(** * dem-gmrf: the estimation-and-validation pipeline of [dem-gmrf_main.cpp]

    A shallow embedding of [dem_gmrf_main], [do_residuals_stats] and [main],
    and the properties of the pipeline stated in the specification.

    - C++ [double] is IEEE-754 binary64, given by the Standard Library's
      executable [spec_float] at precision 53 and [emax] 1024 (NaN, the
      infinities, signed zeros and rounding to nearest-even included);
    - [size_t] is a 64-bit unsigned integer, [int] a 32-bit signed one;
    - a C++ exception, and undefined behaviour (an index out of range), are
      outcomes of the monad [M], which also records the calls the program makes
      to its collaborators (the Field Estimator and the file system) as a trace
      of events. *)

From Stdlib Require Import String ZArith List Bool Lia Permutation Arith Sorted.
From Stdlib Require Import SpecFloat.
Import ListNotations.

Local Open Scope Z_scope.

(* ================================================================== *)
(** * Binary64 *)

Definition prec : Z := 53.
Definition emax : Z := 1024.

(** The C++ type [double]. *)
Definition double : Type := spec_float.

(** A well-formed binary64 value: the mantissa and exponent of a finite value
    are the canonical ones of the format. *)
Definition valid (x : double) : bool := valid_binary prec emax x.

Definition is_nan (x : double) : bool :=
  match x with S754_nan => true | _ => false end.

(** The C++ comparison operators on [double]: each is false when an operand is
    NaN. *)
Definition dlt (a b : double) : bool := SFltb a b.
Definition dgt (a b : double) : bool := SFltb b a.
Definition dle (a b : double) : bool := SFleb a b.
Definition dge (a b : double) : bool := SFleb b a.
Definition deq (a b : double) : bool := SFeqb a b.

(** The C++ arithmetic operators on [double]. *)
Definition dadd : double -> double -> double := SFadd prec emax.
Definition dsub : double -> double -> double := SFsub prec emax.
Definition dmul : double -> double -> double := SFmul prec emax.
Definition ddiv : double -> double -> double := SFdiv prec emax.
Definition dneg : double -> double := SFopp.
Definition dabs : double -> double := SFabs.       (* std::abs *)
Definition dsqrt : double -> double := SFsqrt prec emax. (* std::sqrt *)

(** The conversion of an integer to [double] (round to nearest, ties to even). *)
Definition of_int (n : Z) : double := binary_normalize prec emax n 0 false.

(** [mrpt::utils::square]. *)
Definition square (x : double) : double := dmul x x.

(** Literals of the source. *)
Definition lit_0_0 : double := S754_zero false.
Definition lit_1_0 : double := S754_finite false 4503599627370496 (-52).
Definition lit_10_0 : double := S754_finite false 5629499534213120 (-49).
Definition lit_1e6 : double := S754_finite false 8589934592000000 (-33).
(** [0.20] and [0.01] are not binary64 values: the compiler takes the nearest
    ones, [0x1.999999999999ap-3] and [0x1.47ae147ae147bp-7]. *)
Definition lit_0_20 : double := S754_finite false 7205759403792794 (-55).
Definition lit_0_01 : double := S754_finite false 5764607523034235 (-59).
(** [std::numeric_limits<double>::max()]. *)
Definition DBL_MAX : double := S754_finite false 9007199254740991 971.

(** Widths of the integer types. *)
Definition SIZE_MODULUS : Z := 2 ^ 64.
Definition INT_MAX : Z := 2147483647.
Definition INT_MIN : Z := -2147483648.

(** The conversion of an [int] to [size_t]. *)
Definition size_t_of_int (z : Z) : Z := z mod SIZE_MODULUS.

(** Subtraction of [size_t] values. *)
Definition size_t_sub (a b : Z) : Z := (a - b) mod SIZE_MODULUS.

(* ================================================================== *)
(** * The data of the program *)

(** [CMatrix raw_xyz]: the table loaded from the input file.  (MRPT's
    [CMatrix] holds single-precision values, which the program reads as
    [double]s: each of them is a binary64 value.) *)
Record CMatrix : Type := {
  mat_cols : nat;
  mat_rows : list (list double)
}.

Definition rows (m : CMatrix) : nat := length (mat_rows m).
Definition cols (m : CMatrix) : nat := mat_cols m.

(** A loaded table is rectangular and holds binary64 values. *)
Definition wf_matrix (m : CMatrix) : Prop :=
  Forall (fun r => length r = mat_cols m /\ Forall (fun x => valid x = true) r)
         (mat_rows m).

(** Its row count fits the [int] that [mrpt::utils::round] returns. *)
Definition fits_int (m : CMatrix) : Prop := Z.of_nat (rows m) <= INT_MAX.

(** The command-line options (the TCLAP arguments). *)
Record Config : Type := {
  arg_in_file : string;
  arg_dem_resolution : double;
  arg_out_prefix : string;
  arg_checkpoints_ratio : double;
  arg_std_prior : double;
  arg_std_observations : double;
  arg_skip_variance : bool;
  arg_no_gui : bool
}.

(** The options when only the input file is given. *)
Definition default_config (input : string) : Config := {|
  arg_in_file := input;
  arg_dem_resolution := lit_1_0;
  arg_out_prefix := "demgmrf_out";
  arg_checkpoints_ratio := lit_0_01;
  arg_std_prior := lit_1_0;
  arg_std_observations := lit_0_20;
  arg_skip_variance := false;
  arg_no_gui := false
|}.

(** [CRandomFieldGridMap2D::TGridInterpolationMethod]. *)
Inductive TGridInterpolationMethod : Type := gimNearest | gimBilinear.

(** The bounding box of stage 2. *)
Record BBox : Type := {
  minx : double; maxx : double;
  miny : double; maxy : double;
  minz : double; maxz : double
}.

(** The calls the program makes to its collaborators, in the order made. A
    prediction is recorded with what it returned ([None]: it threw). *)
Inductive Event : Type :=
| EvSetOptions (lambdaPrior lambdaObs : double) (skip_variance : bool)
| EvSetSize (x_min x_max y_min y_max resolution : double)
| EvInsert (z x y : double) (updateNow timeInvariant : bool) (stddev : double)
| EvUpdateMapEstimation
| EvPredict (x y : double) (interp : TGridInterpolationMethod)
            (out : option (double * double))
| EvSaveVector (file : string) (v : list double) (header : option string)
| EvFileOpen (file : string)
| EvFilePrintf (file : string) (x y z : double)
| EvSaveMetricMap (file_prefix : string)
| EvSaveMatlab (file : string)
| EvDisplayWindow.

(** Modelled from the spec: the Field Estimator ([CHeightGridMap2D_MRF] of
    MRPT, not under src/) is an external collaborator known by its interface
    (section 4.4): a map state and the operations the pipeline calls on it. An
    operation that returns [None] throws. *)
Record FieldEstimator : Type := {
  fe_map : Type;
  fe_create : fe_map;
  fe_setOptions : fe_map -> double -> double -> bool -> fe_map;
  fe_setSize : fe_map -> double -> double -> double -> double -> double ->
               option fe_map;
  fe_insertIndividualReading :
    fe_map -> double -> double -> double -> bool -> bool -> double ->
    option fe_map;
  fe_updateMapEstimation : fe_map -> option fe_map;
  fe_predictMeasurement :
    fe_map -> double -> double -> TGridInterpolationMethod ->
    option (double * double * fe_map);
  fe_saveMetricMapRepresentationToFile : fe_map -> string -> option unit;
  fe_saveAsMatlab3DGraph : fe_map -> string -> option unit
}.

(** What the program finds outside itself. *)
Record Env : Type := {
  (** [cmd.parse(argc, argv)]: the options, [None] when parsing fails. *)
  env_parse : option Config;
  (** The files that exist, and what [loadFromTextFile] reads from each
      ([None]: it throws). *)
  env_file_exists : string -> bool;
  env_load : string -> option CMatrix;
  (** The value of the k-th call of [std::rand()] after [std::srand(time(0))]. *)
  env_rand : nat -> nat;
  (** The files that can be opened for writing. *)
  env_writable : string -> bool;
  (** [MRPT_HAS_WXWIDGETS]. *)
  env_has_wxwidgets : bool
}.

(* ================================================================== *)
(** * Effects: the trace, exceptions and undefined behaviour *)

Inductive Res (A : Type) : Type :=
| Ok (a : A)
| Exception
| Undefined.
Arguments Ok {A} a.
Arguments Exception {A}.
Arguments Undefined {A}.

(** A computation yields the events it emitted and how it ended. *)
Definition M (A : Type) : Type := (list Event * Res A)%type.

Definition ret {A} (a : A) : M A := ([], Ok a).

Definition bind {A B} (m : M A) (f : A -> M B) : M B :=
  match m with
  | (t, Ok a) => let (t', r) := f a in (t ++ t', r)
  | (t, Exception) => (t, Exception)
  | (t, Undefined) => (t, Undefined)
  end.

Definition throw {A} : M A := ([], Exception).
Definition undefined {A} : M A := ([], Undefined).
Definition emit (e : Event) : M unit := ([e], Ok tt).

Declare Scope monad_scope.
Delimit Scope monad_scope with monad.
Notation "x <- m ;; k" := (bind m (fun x => k))
  (at level 61, m at next level, right associativity) : monad_scope.
Notation "' pat <- m ;; k" := (bind m (fun x => match x with pat => k end))
  (at level 61, pat pattern, m at next level, right associativity)
  : monad_scope.
Notation "m ;;; k" := (bind m (fun _ => k))
  (at level 61, right associativity) : monad_scope.
Local Open Scope monad_scope.

(** [ASSERT_(cond)]: throws when the condition is false (in every build). *)
Definition ASSERT_ (cond : bool) : M unit := if cond then ret tt else throw.

(** An operation of a collaborator that may throw. *)
Definition call {A} (r : option A) : M A :=
  match r with Some a => ret a | None => throw end.

(** [for (size_t k = 0; k < n; k++) body], over a loop state. *)
Fixpoint for_each {S : Type} (ks : list nat) (body : nat -> S -> M S) (s : S)
  : M S :=
  match ks with
  | [] => ret s
  | k :: ks' => s' <- body k s ;; for_each ks' body s'
  end.

Definition for_loop {S : Type} (n : nat) (body : nat -> S -> M S) (s : S)
  : M S :=
  for_each (seq 0 n) body s.

(** [v[k]] on a [std::vector] or an Eigen vector: out of range is undefined. *)
Definition vec_at {A} (v : list A) (k : nat) : M A :=
  match nth_error v k with Some a => ret a | None => undefined end.

(** [m(i,j)] on the loaded table. *)
Definition coeff (m : CMatrix) (i j : nat) : M double :=
  match nth_error (mat_rows m) i with
  | Some r => vec_at r j
  | None => undefined
  end.

(** [v[k] = x]. *)
Fixpoint set_nth {A} (v : list A) (k : nat) (x : A) : list A :=
  match v, k with
  | [], _ => []
  | _ :: tl, O => x :: tl
  | a :: tl, S k' => a :: set_nth tl k' x
  end.

Definition vec_set {A} (v : list A) (k : nat) (x : A) : M (list A) :=
  if (k <? length v)%nat then ret (set_nth v k x) else undefined.

(* ================================================================== *)
(** * Library functions the program calls *)

(** [mrpt::utils::keep_min] and [keep_max] (MRPT headers):
    [if (test_val<var) var = test_val;] and [if (test_val>var) var = test_val;]. *)
Definition keep_min (var test_val : double) : double :=
  if dlt test_val var then test_val else var.
Definition keep_max (var test_val : double) : double :=
  if dgt test_val var then test_val else var.

(** [mrpt::math::linspace(first, last, count, out)] on [size_t]: [count]
    values from [first] in steps of [(last-first)/(count-1)]; with fewer than
    two values, [count] copies of [last]. *)
Fixpoint linspace_fill (count : nat) (c incr : Z) : list Z :=
  match count with
  | O => []
  | S n => c :: linspace_fill n ((c + incr) mod SIZE_MODULUS) incr
  end.

Definition linspace (first last : Z) (count : nat) : list Z :=
  if (count <? 2)%nat then repeat last count
  else linspace_fill count first
         (size_t_sub last first / Z.of_nat (count - 1)).

(** [std::iter_swap] on two positions of a vector. *)
Definition iter_swap {A} (v : list A) (i j : nat) : list A :=
  match nth_error v i, nth_error v j with
  | Some a, Some b => set_nth (set_nth v i b) j a
  | _, _ => v
  end.

(** [std::random_shuffle(first, last)]: for each position [i] from the second
    on, swaps it with position [rand() % (i+1)]. *)
Definition random_shuffle_step {A} (rand : nat -> nat) (v : list A) (i : nat)
  : list A :=
  let j := (rand (i - 1) mod (i + 1))%nat in
  if (i =? j)%nat then v else iter_swap v i j.

Definition random_shuffle {A} (rand : nat -> nat) (v : list A) : list A :=
  fold_left (random_shuffle_step rand) (seq 1 (length v - 1)) v.

(** Eigen's [maxCoeff()] and [minCoeff()]: a reduction from the first
    coefficient with [(a < b) ? b : a] and [(b < a) ? b : a]; undefined on an
    empty vector. *)
Definition maxCoeff (v : list double) : M double :=
  match v with
  | [] => undefined
  | x :: tl => ret (fold_left (fun a b => if dlt a b then b else a) tl x)
  end.

Definition minCoeff (v : list double) : M double :=
  match v with
  | [] => undefined
  | x :: tl => ret (fold_left (fun a b => if dlt b a then b else a) tl x)
  end.

(** Eigen's [sum()], in the index order of its scalar traversal (a vectorised
    build adds the same terms in another order); zero on an empty vector. *)
Definition vec_sum (v : list double) : double :=
  match v with
  | [] => lit_0_0
  | x :: tl => fold_left dadd tl x
  end.

(** Modelled from the spec: [mrpt::math::meanAndStd] is MRPT code, not under
    src/; section 4.5 gives "mean, std = sample mean and sample standard
    deviation of r". *)
Definition sample_mean (v : list double) : double :=
  ddiv (vec_sum v) (of_int (Z.of_nat (length v))).

Definition sample_std (v : list double) : double :=
  let m := sample_mean v in
  dsqrt (ddiv (vec_sum (map (fun x => square (dsub x m)) v))
              (of_int (Z.of_nat (length v) - 1))).

Definition meanAndStd (v : list double) : double * double :=
  (sample_mean v, sample_std v).

(** [r] sorted ascending, by insertion with [<]. This is the order the
    specification of the median refers to. *)
Fixpoint insert_sorted (x : double) (l : list double) : list double :=
  match l with
  | [] => [x]
  | y :: tl => if dlt y x then y :: insert_sorted x tl else x :: l
  end.

Definition sort_asc (l : list double) : list double :=
  fold_right insert_sorted [] l.

(** The postcondition of [std::nth_element(first, first+n, last)] on a range
    without NaN: the range is rearranged, no element before position [n] is
    greater than the one at [n], and no element after it is less. *)
Definition nth_element_post (v : list double) (n : nat) (v' : list double)
  : Prop :=
  Permutation v v' /\
  forall i a p, nth_error v' n = Some p -> nth_error v' i = Some a ->
    ((i < n)%nat -> dlt p a = false) /\ ((n < i)%nat -> dlt a p = false).

Definition nth_element_contract
  (nth_element : list double -> nat -> list double) : Prop :=
  forall v n, (n < length v)%nat ->
    Forall (fun x => is_nan x = false) v ->
    nth_element_post v n (nth_element v n).

(** The value [mrpt::utils::round] is required to return on a value between
    zero and an integer that fits [int]: an integer in the same range. *)
Definition round_contract (round : double -> Z) : Prop :=
  forall x n, valid x = true -> 0 <= n <= INT_MAX ->
    dle lit_0_0 x = true -> dle x (of_int n) = true ->
    0 <= round x <= n.

(* ================================================================== *)
(** * The program *)

Definition newline : string := String (Ascii.ascii_of_nat 10) EmptyString.

Definition BORDER : double := lit_10_0.

(** The index partition of stage 3. *)
Record Partition : Type := {
  pts_indices : list Z;
  N_chk_pts : Z;
  N_insert_pts : Z
}.

(** The two sets of the partition, as the loops of stages 5, 7 and 9 read
    them: [pts_indices[k]] for [k < N_insert_pts], and
    [pts_indices[k+N_insert_pts]] for [k < N_chk_pts]. *)
Definition insertion_index (p : Partition) (k : nat) : Z :=
  nth k (pts_indices p) 0.

Definition checkpoint_index (p : Partition) (k : nat) : Z :=
  nth (Z.to_nat ((Z.of_nat k + N_insert_pts p) mod SIZE_MODULUS))
      (pts_indices p) 0.

Definition insertion_set (p : Partition) : list Z :=
  map (insertion_index p) (seq 0 (Z.to_nat (N_insert_pts p))).

Definition checkpoint_set (p : Partition) : list Z :=
  map (checkpoint_index p) (seq 0 (Z.to_nat (N_chk_pts p))).

Section Program.

(** The Field Estimator in use. *)
Variable FE : FieldEstimator.
(** [mrpt::utils::round] (MRPT code, not under src/): [double] to [int]. *)
Variable round : double -> Z.
(** [std::nth_element] with [<] on [double]. *)
Variable nth_element : list double -> nat -> list double.
(** The content of storage that Eigen allocates and does not initialise. *)
Variable uninitialized : nat -> double.
(** The world outside. *)
Variable env : Env.

(** [VectorXd v(n)]: [n] coefficients, not initialised. *)
Definition Eigen_new (n : nat) : list double := map uninitialized (seq 0 n).

(** [v.resize(n)]: nothing happens when the size is [n] already; otherwise
    the storage is allocated anew and not initialised. *)
Definition Eigen_resize (v : list double) (n : nat) : list double :=
  if (length v =? n)%nat then v else Eigen_new n.

(** [v.saveToTextFile(file, MATRIX_FORMAT_ENG, false, header)]; the header is
    empty when it is not given. *)
Definition saveToTextFile (v : list double) (file header : string) : M unit :=
  if env_writable env file
  then emit (EvSaveVector file v (if (String.length header =? 0)%nat
                                  then None else Some header))
  else throw.

(** [CFileOutputStream f(file)]: throws when the file cannot be opened. *)
Definition CFileOutputStream (file : string) : M unit :=
  if env_writable env file then emit (EvFileOpen file) else throw.

(** ** [do_residuals_stats] (lines 290-309) *)

Definition file_hdr_text : string :=
  ("% MAX_ABS_ERR   MIN_ABS_ERR   AVERAGE_ERR   STD_DEV   RMSE    MEDIAN"
   ++ newline)%string.

Definition do_residuals_stats (r : list double) (stats : list double)
  : M (list double * string) :=
  let file_hdr := file_hdr_text in
  let N := length r in
  let stats := Eigen_resize stats 6 in
  if (N =? 0)%nat then ret (stats, file_hdr) else
  mx <- maxCoeff r ;;
  stats <- vec_set stats 0 mx ;;
  mn <- minCoeff r ;;
  stats <- vec_set stats 1 mn ;;
  let '(mean, std) := meanAndStd r in
  stats <- vec_set stats 2 mean ;;
  stats <- vec_set stats 3 std ;;
  stats <- vec_set stats 4
    (dsqrt (ddiv (vec_sum (map square r)) (of_int (Z.of_nat N)))) ;;
  v <- for_loop N (fun i v => ri <- vec_at r i ;; vec_set v i ri)
                (repeat lit_0_0 N) ;;
  let v := nth_element v (N / 2)%nat in
  med <- vec_at v (N / 2)%nat ;;
  stats <- vec_set stats 5 med ;;
  ret (stats, file_hdr).

(** ** Stage 2: the bounding box (lines 89-109) *)

Definition bbox_init : BBox := {|
  minx := DBL_MAX; miny := DBL_MAX; minz := DBL_MAX;
  maxx := dneg DBL_MAX; maxy := dneg DBL_MAX; maxz := dneg DBL_MAX
|}.

Definition bbox_add_point (b : BBox) (x y z : double) : BBox :=
  let maxx' := keep_max (maxx b) x in
  let minx' := keep_min (minx b) x in
  let maxy' := keep_max (maxy b) y in
  let miny' := keep_min (miny b) y in
  if dlt (dabs z) lit_1e6
  then {| minx := minx'; maxx := maxx'; miny := miny'; maxy := maxy';
          minz := keep_min (minz b) z; maxz := keep_max (maxz b) z |}
  else {| minx := minx'; maxx := maxx'; miny := miny'; maxy := maxy';
          minz := minz b; maxz := maxz b |}.

Definition bbox_scan (raw_xyz : CMatrix) : M BBox :=
  for_loop (rows raw_xyz)
    (fun i b =>
       x <- coeff raw_xyz i 0 ;;
       y <- coeff raw_xyz i 1 ;;
       z <- coeff raw_xyz i 2 ;;
       ret (bbox_add_point b x y z))
    bbox_init.

Definition bbox_expand (b : BBox) : BBox := {|
  minx := dsub (minx b) BORDER; maxx := dadd (maxx b) BORDER;
  miny := dsub (miny b) BORDER; maxy := dadd (maxy b) BORDER;
  minz := dsub (minz b) BORDER; maxz := dadd (maxz b) BORDER
|}.

Definition determine_bounding_box (raw_xyz : CMatrix) : M BBox :=
  b <- bbox_scan raw_xyz ;;
  ret (bbox_expand b).

(** ** Stage 3: the random checkpoints (lines 125-131) *)

Definition pick_random_checkpoints (N : nat) (chkpts_ratio : double)
  : Partition :=
  let pts := linspace 0 (size_t_sub (Z.of_nat N) 1) N in
  let pts := random_shuffle (env_rand env) pts in
  let N_chk :=
    size_t_of_int (round (dmul chkpts_ratio (of_int (Z.of_nat N)))) in
  {| pts_indices := pts;
     N_chk_pts := N_chk;
     N_insert_pts := size_t_sub (Z.of_nat N) N_chk |}.

(** ** Stage 4: the map estimator (lines 140-153) *)

Definition init_dem_map (cfg : Config) (b : BBox) : M (fe_map FE) :=
  let RESOLUTION := arg_dem_resolution cfg in
  let dem_map := fe_create FE in
  let lambdaPrior := ddiv lit_1_0 (square (arg_std_prior cfg)) in
  let lambdaObs := ddiv lit_1_0 (square (arg_std_observations cfg)) in
  emit (EvSetOptions lambdaPrior lambdaObs (arg_skip_variance cfg)) ;;;
  let dem_map := fe_setOptions FE dem_map lambdaPrior lambdaObs
                               (arg_skip_variance cfg) in
  emit (EvSetSize (minx b) (maxx b) (miny b) (maxy b) RESOLUTION) ;;;
  call (fe_setSize FE dem_map (minx b) (maxx b) (miny b) (maxy b) RESOLUTION).

(** ** Stage 5: the insertion of the points (lines 165-184) *)

Definition insert_point (cfg : Config) (raw_xyz : CMatrix)
           (all_readings_same_stddev : bool) (p : Partition)
           (k : nat) (dem_map : fe_map FE) : M (fe_map FE) :=
  i <- vec_at (pts_indices p) k ;;
  let i := Z.to_nat i in
  x <- coeff raw_xyz i 0 ;;
  y <- coeff raw_xyz i 1 ;;
  z <- coeff raw_xyz i 2 ;;
  reading_stddev <-
    (if all_readings_same_stddev
     then ret (arg_std_observations cfg)
     else coeff raw_xyz i 3) ;;
  emit (EvInsert z x y false true reading_stddev) ;;;
  call (fe_insertIndividualReading FE dem_map z x y false true reading_stddev).

Definition insert_points (cfg : Config) (raw_xyz : CMatrix)
           (all_readings_same_stddev : bool) (p : Partition)
           (dem_map : fe_map FE) : M (fe_map FE) :=
  for_loop (Z.to_nat (N_insert_pts p))
           (insert_point cfg raw_xyz all_readings_same_stddev p) dem_map.

(** ** Stage 6: the estimation (line 192) *)

Definition update_gmrf (dem_map : fe_map FE) : M (fe_map FE) :=
  emit EvUpdateMapEstimation ;;;
  call (fe_updateMapEstimation FE dem_map).

(** ** Stage 7: the checkpoints (lines 198-235) *)

(** [dem_map.predictMeasurement(x, y, out_z, out_std, false, interp)]. *)
Definition predictMeasurement (dem_map : fe_map FE) (x y : double)
           (interp : TGridInterpolationMethod)
  : M (double * double * fe_map FE) :=
  let r := fe_predictMeasurement FE dem_map x y interp in
  emit (EvPredict x y interp (option_map fst r)) ;;;
  call r.

Definition eval_checkpoint (raw_xyz : CMatrix) (p : Partition) (k : nat)
           (st : fe_map FE * list double * list double)
  : M (fe_map FE * list double * list double) :=
  let '(dem_map, residuals_NN, residuals_Bi) := st in
  i <- vec_at (pts_indices p)
              (Z.to_nat ((Z.of_nat k + N_insert_pts p) mod SIZE_MODULUS)) ;;
  let i := Z.to_nat i in
  (* Nearest neighbour: *)
  x <- coeff raw_xyz i 0 ;;
  y <- coeff raw_xyz i 1 ;;
  ' (dem_z_NN, dem_std_NN, dem_map) <-
    predictMeasurement dem_map x y gimNearest ;;
  z <- coeff raw_xyz i 2 ;;
  residuals_NN <- vec_set residuals_NN k (dsub z dem_z_NN) ;;
  (* Bilinear interpolation: *)
  x <- coeff raw_xyz i 0 ;;
  y <- coeff raw_xyz i 1 ;;
  ' (dem_z_Bi, dem_std_Bi, dem_map) <-
    predictMeasurement dem_map x y gimBilinear ;;
  z <- coeff raw_xyz i 2 ;;
  residuals_Bi <- vec_set residuals_Bi k (dsub z dem_z_Bi) ;;
  ret (dem_map, residuals_NN, residuals_Bi).

Definition eval_checkpoints (raw_xyz : CMatrix) (p : Partition)
           (sPrefix : string) (dem_map : fe_map FE) : M (fe_map FE) :=
  let n := Z.to_nat (N_chk_pts p) in
  ' (dem_map, residuals_NN, residuals_Bi) <-
    for_loop n (eval_checkpoint raw_xyz p)
             (dem_map, Eigen_new n, Eigen_new n) ;;
  (* Residuals: *)
  saveToTextFile residuals_NN
                 (sPrefix ++ "_chkpt_residuals_NN.txt")%string EmptyString ;;;
  saveToTextFile residuals_Bi
                 (sPrefix ++ "_chkpt_residuals_Bi.txt")%string EmptyString ;;;
  (* Residuals stats: *)
  ' (residuals_NN_stats, stats_hdr) <- do_residuals_stats residuals_NN [] ;;
  ' (residuals_Bi_stats, stats_hdr) <- do_residuals_stats residuals_Bi [] ;;
  saveToTextFile residuals_NN_stats
                 (sPrefix ++ "_chkpt_residuals_NN_stats.txt")%string stats_hdr ;;;
  saveToTextFile residuals_Bi_stats
                 (sPrefix ++ "_chkpt_residuals_Bi_stats.txt")%string stats_hdr ;;;
  ret dem_map.

(** ** Stage 9: the output files (lines 237-257) *)

Definition print_point (raw_xyz : CMatrix) (file : string) (i : nat)
  : M unit :=
  x <- coeff raw_xyz i 0 ;;
  y <- coeff raw_xyz i 1 ;;
  z <- coeff raw_xyz i 2 ;;
  emit (EvFilePrintf file x y z).

Definition save_points (raw_xyz : CMatrix) (p : Partition)
           (sPrefix : string) (dem_map : fe_map FE) : M unit :=
  let fil_pts_map := (sPrefix ++ "_pts_map.txt")%string in
  CFileOutputStream fil_pts_map ;;;
  for_loop (Z.to_nat (N_insert_pts p))
    (fun k _ =>
       i <- vec_at (pts_indices p) k ;;
       print_point raw_xyz fil_pts_map (Z.to_nat i)) tt ;;;
  let fil_pts_chk := (sPrefix ++ "_pts_chk.txt")%string in
  CFileOutputStream fil_pts_chk ;;;
  for_loop (Z.to_nat (N_chk_pts p))
    (fun k _ =>
       i <- vec_at (pts_indices p)
              (Z.to_nat ((Z.of_nat k + N_insert_pts p) mod SIZE_MODULUS)) ;;
       print_point raw_xyz fil_pts_chk (Z.to_nat i)) tt ;;;
  emit (EvSaveMetricMap (sPrefix ++ "_grmf")%string) ;;;
  call (fe_saveMetricMapRepresentationToFile FE dem_map
          (sPrefix ++ "_grmf")%string) ;;;
  emit (EvSaveMatlab (sPrefix ++ "_grmf_draw.m")%string) ;;;
  call (fe_saveAsMatlab3DGraph FE dem_map (sPrefix ++ "_grmf_draw.m")%string).

(** The window of lines 262-286, compiled in with [MRPT_HAS_WXWIDGETS]. *)
Definition show_window (cfg : Config) : M unit :=
  if env_has_wxwidgets env && negb (arg_no_gui cfg)
  then emit EvDisplayWindow else ret tt.

(** ** Stages 4 to 9 of [dem_gmrf_main] (lines 140-285), once the table is
    loaded and the checkpoints are picked *)

Definition build_dem (cfg : Config) (raw_xyz : CMatrix)
           (all_readings_same_stddev : bool) (p : Partition) (bbox : BBox)
  : M Z :=
  let sPrefix := arg_out_prefix cfg in
  (* [4] *)
  dem_map <- init_dem_map cfg bbox ;;
  (* [5] *)
  dem_map <- insert_points cfg raw_xyz all_readings_same_stddev p dem_map ;;
  (* [6] *)
  dem_map <- update_gmrf dem_map ;;
  (* [7] *)
  dem_map <- (if N_chk_pts p =? 0 then ret dem_map
              else eval_checkpoints raw_xyz p sPrefix dem_map) ;;
  (* [9] *)
  save_points raw_xyz p sPrefix dem_map ;;;
  show_window cfg ;;;
  ret 0.

(** ** [dem_gmrf_main] (lines 53-288) *)

Definition dem_gmrf_main : M Z :=
  match env_parse env with
  | None => ret 1
  | Some cfg =>
    let sDataFile := arg_in_file cfg in
    ASSERT_ (env_file_exists env sDataFile) ;;;
    (* [1] *)
    raw_xyz <- call (env_load env sDataFile) ;;
    let N := rows raw_xyz in
    let nCols := cols raw_xyz in
    ASSERT_ (3 <=? nCols)%nat ;;;
    let all_readings_same_stddev := (nCols =? 3)%nat in
    (* [2] *)
    bbox <- determine_bounding_box raw_xyz ;;
    (* [3] *)
    let chkpts_ratio := arg_checkpoints_ratio cfg in
    ASSERT_ (dge chkpts_ratio lit_0_0 && dle chkpts_ratio lit_1_0) ;;;
    let p := pick_random_checkpoints N chkpts_ratio in
    build_dem cfg raw_xyz all_readings_same_stddev p bbox
  end.

(** ** [main] (lines 312-320): an exception ends the process with status 1. *)

Definition main : M Z :=
  match dem_gmrf_main with
  | (t, Exception) => (t, Ok 1)
  | r => r
  end.

End Program.

(* ================================================================== *)
(** * Instances of what the program is linked with *)

(** [mrpt::utils::round] as MRPT builds it on x86-64 ([cvtsd2si], and
    [lrint] elsewhere): the nearest integer, ties to even, and [INT_MIN]
    when that integer does not fit [int]. *)
Definition nearest_even (m e : Z) : Z :=
  if 0 <=? e then m * 2 ^ e
  else
    let d := 2 ^ (- e) in
    let q := m / d in
    match 2 * (m mod d) ?= d with
    | Lt => q
    | Gt => q + 1
    | Eq => if Z.even q then q else q + 1
    end.

Definition cvtsd2si (x : double) : Z :=
  match x with
  | S754_zero _ => 0
  | S754_finite s m e =>
    let v := cond_Zopp s (nearest_even (Zpos m) e) in
    if (INT_MIN <=? v) && (v <=? INT_MAX) then v else INT_MIN
  | _ => INT_MIN
  end.

(** [std::nth_element] done by sorting the whole range. *)
Definition nth_element_by_sort (v : list double) (n : nat) : list double :=
  sort_asc v.

(** An estimator that accepts every call: it keeps the heights it was given,
    and predicts the first height it holds once it has been solved. *)
Record FlatMap : Type := {
  flat_solved : bool;
  flat_heights : list double
}.

Definition flat_estimator : FieldEstimator := {|
  fe_map := FlatMap;
  fe_create := {| flat_solved := false; flat_heights := [] |};
  fe_setOptions := fun m _ _ _ => m;
  fe_setSize := fun m _ _ _ _ _ => Some m;
  fe_insertIndividualReading := fun m z _ _ updateNow _ _ =>
    Some {| flat_solved := updateNow;
            flat_heights := flat_heights m ++ [z] |};
  fe_updateMapEstimation := fun m =>
    Some {| flat_solved := true; flat_heights := flat_heights m |};
  fe_predictMeasurement := fun m _ _ _ =>
    if flat_solved m
    then Some (hd lit_0_0 (flat_heights m), lit_0_0, m)
    else None;
  fe_saveMetricMapRepresentationToFile := fun _ _ => Some tt;
  fe_saveAsMatlab3DGraph := fun _ _ => Some tt
|}.

(** The same estimator with the failure of section 4.4: resizing with a
    resolution that is not positive throws. *)
Definition checking_estimator : FieldEstimator := {|
  fe_map := FlatMap;
  fe_create := fe_create flat_estimator;
  fe_setOptions := fe_setOptions flat_estimator;
  fe_setSize := fun m x0 x1 y0 y1 resolution =>
    if dgt resolution lit_0_0 then Some m else None;
  fe_insertIndividualReading := fe_insertIndividualReading flat_estimator;
  fe_updateMapEstimation := fe_updateMapEstimation flat_estimator;
  fe_predictMeasurement := fe_predictMeasurement flat_estimator;
  fe_saveMetricMapRepresentationToFile :=
    fe_saveMetricMapRepresentationToFile flat_estimator;
  fe_saveAsMatlab3DGraph := fe_saveAsMatlab3DGraph flat_estimator
|}.

(** A table of four points with three columns, and one with four. *)
Definition sample_xyz : CMatrix := {|
  mat_cols := 3;
  mat_rows := [ [of_int 0; of_int 0; of_int 1];
                [of_int 4; of_int 0; of_int 2];
                [of_int 0; of_int 3; of_int 5];
                [of_int 4; of_int 3; of_int 3] ]
|}.

Definition sample_xyzs : CMatrix := {|
  mat_cols := 4;
  mat_rows := [ [of_int 0; of_int 0; of_int 1; lit_0_01];
                [of_int 4; of_int 0; of_int 2; lit_0_20];
                [of_int 0; of_int 3; of_int 5; lit_1_0];
                [of_int 4; of_int 3; of_int 3; lit_0_01] ]
|}.

(** A run on a table with given options: every file can be written, [rand()]
    returns 3, 1, 4, 1, 5, ... *)
Definition sample_rand (k : nat) : nat :=
  nth k [3; 1; 4; 1; 5; 9; 2; 6]%nat 7%nat.

Definition sample_env (cfg : Config) (raw_xyz : CMatrix) : Env := {|
  env_parse := Some cfg;
  env_file_exists := fun _ => true;
  env_load := fun _ => Some raw_xyz;
  env_rand := sample_rand;
  env_writable := fun _ => true;
  env_has_wxwidgets := false
|}.

Definition with_ratio (cfg : Config) (ratio : double) : Config := {|
  arg_in_file := arg_in_file cfg;
  arg_dem_resolution := arg_dem_resolution cfg;
  arg_out_prefix := arg_out_prefix cfg;
  arg_checkpoints_ratio := ratio;
  arg_std_prior := arg_std_prior cfg;
  arg_std_observations := arg_std_observations cfg;
  arg_skip_variance := arg_skip_variance cfg;
  arg_no_gui := arg_no_gui cfg
|}.

Definition with_resolution (cfg : Config) (resolution : double) : Config := {|
  arg_in_file := arg_in_file cfg;
  arg_dem_resolution := resolution;
  arg_out_prefix := arg_out_prefix cfg;
  arg_checkpoints_ratio := arg_checkpoints_ratio cfg;
  arg_std_prior := arg_std_prior cfg;
  arg_std_observations := arg_std_observations cfg;
  arg_skip_variance := arg_skip_variance cfg;
  arg_no_gui := arg_no_gui cfg
|}.

(** Storage that was not initialised, holding ones. *)
Definition stale_ones (k : nat) : double := lit_1_0.

(** [0.5]. *)
Definition lit_0_5 : double := S754_finite false 4503599627370496 (-53).

(* ================================================================== *)
(** * The vocabulary of the properties *)

(** ** binary64 values as integers *)

(** Every finite binary64 value is an integer multiple of [2^-bias]. *)
Definition bias : Z := 2200.

(** The value [m * 2^e] of a mantissa and an exponent, scaled by [2^bias] so
    that it is an integer. *)
Definition zval (m e : Z) : Z := m * 2 ^ (e + bias).

Arguments zval : simpl never.

(** After [k] shifts of [m0]: the quotient by [2^k], and whether the part
    shifted out is zero. *)
Definition shr_inv (m0 k : Z) (mrs : shr_record) : Prop :=
  shr_m mrs = m0 / 2 ^ k /\
  (shr_r mrs || shr_s mrs = false <-> m0 mod 2 ^ k = 0).

(** The last step of a rounding: the rounded mantissa [m''] at exponent [f],
    renormalised when it reached [2^53], infinite when the exponent is too
    large. *)
Definition finish (s : bool) (m'' f : Z) : spec_float :=
  match m'' with
  | Zpos p =>
    if Zpos p <? 9007199254740992
    then if f <=? 971 then S754_finite s p f else S754_infinity s
    else if f + 1 <=? 971 then S754_finite s 4503599627370496 (f + 1)
         else S754_infinity s
  | _ => S754_zero s
  end.

(** The magnitude of a rounded result against a scaled value [v]. *)
Definition mag_le (r : spec_float) (v : Z) : Prop :=
  match r with
  | S754_zero _ => True
  | S754_finite _ mr er => bounded prec emax mr er = true /\ zval (Zpos mr) er <= v
  | _ => False
  end.

Definition mag_ge (r : spec_float) (v : Z) : Prop :=
  match r with
  | S754_infinity _ => True
  | S754_finite _ mr er => bounded prec emax mr er = true /\ v <= zval (Zpos mr) er
  | _ => False
  end.

Definition sign_is (s : bool) (r : spec_float) : Prop :=
  match r with
  | S754_zero s' | S754_infinity s' | S754_finite s' _ _ => s' = s
  | S754_nan => False
  end.

(** ** Tables and vectors *)

(** The coordinates of a row of the table. *)
Definition px (r : list double) : double := nth 0 r lit_0_0.
Definition py (r : list double) : double := nth 1 r lit_0_0.
Definition pz (r : list double) : double := nth 2 r lit_0_0.

(** The heights the scan takes into account. *)
Definition z_kept (z : double) : bool := dlt (dabs z) lit_1e6.

(** One step of the scan of stage 2. *)
Definition bbox_add_row (b : BBox) (r : list double) : BBox :=
  bbox_add_point b (px r) (py r) (pz r).

(** The table of one point whose x is NaN. *)
Definition nan_xyz : CMatrix :=
  {| mat_cols := 3; mat_rows := [[S754_nan; of_int 0; of_int 0]] |}.

(** A vector without NaN, and a vector in ascending order. *)
Definition no_nan (l : list double) : Prop :=
  Forall (fun x => is_nan x = false) l.

Definition ascending (l : list double) : Prop :=
  StronglySorted (fun a b => dle a b = true) l.

(** The row of the table an index of the partition stands for. *)
Definition row_of (raw_xyz : CMatrix) (i : Z) : list double :=
  nth (Z.to_nat i) (mat_rows raw_xyz) [].

(** A row that stage 5 can read: three columns, and a fourth when the
    table has not exactly three. *)
Definition readable (raw_xyz : CMatrix) (r : list double) : Prop :=
  (3 <= length r)%nat /\ (cols raw_xyz <> 3%nat -> (4 <= length r)%nat).

(** ** The events of a run *)

Definition is_setup (e : Event) : Prop :=
  match e with EvSetOptions _ _ _ | EvSetSize _ _ _ _ _ => True | _ => False end.

Definition is_insert (e : Event) : Prop :=
  match e with EvInsert _ _ _ _ _ _ => True | _ => False end.

Definition is_solve (e : Event) : Prop :=
  match e with EvUpdateMapEstimation => True | _ => False end.

Definition is_predict (e : Event) : Prop :=
  match e with EvPredict _ _ _ _ => True | _ => False end.

Definition is_save_vector (e : Event) : Prop :=
  match e with EvSaveVector _ _ _ => True | _ => False end.

(** The calls that make the estimator work: insertion, estimation and
    prediction. *)
Definition is_heavy (e : Event) : Prop :=
  is_insert e \/ is_solve e \/ is_predict e.

(** The events of stage 7: predictions and the residual files. *)
Definition is_validation (e : Event) : Prop :=
  is_predict e \/ is_save_vector e.

(** The events of stage 9 and of the window. *)
Definition is_output (e : Event) : Prop :=
  match e with
  | EvFileOpen _ | EvFilePrintf _ _ _ _ | EvSaveMetricMap _ | EvSaveMatlab _
  | EvDisplayWindow => True
  | _ => False
  end.

(** An insertion that leaves the estimation for later. *)
Definition deferred (e : Event) : Prop :=
  match e with
  | EvInsert _ _ _ updateNow _ _ => updateNow = false
  | _ => False
  end.

(** The standard deviation of the reading of a row: the default one when the
    table has three columns, the fourth column otherwise. *)
Definition stddev_of (cfg : Config) (raw_xyz : CMatrix) (r : list double)
  : double :=
  if (cols raw_xyz =? 3)%nat then arg_std_observations cfg else nth 3 r lit_0_0.

(** The insertion of a row, as stage 5 makes it. *)
Definition insert_event (cfg : Config) (raw_xyz : CMatrix) (i : Z) : Event :=
  let r := row_of raw_xyz i in
  EvInsert (pz r) (px r) (py r) false true (stddev_of cfg raw_xyz r).

(** The line stage 9 prints for a row. *)
Definition print_event (file : string) (raw_xyz : CMatrix) (i : Z) : Event :=
  let r := row_of raw_xyz i in EvFilePrintf file (px r) (py r) (pz r).

(** What holds of every insertion: the map is not updated at once, and the
    reading is a row of the table with the standard deviation of C8. *)
Definition insert_rule (cfg : Config) (raw_xyz : CMatrix) (e : Event) : Prop :=
  match e with
  | EvInsert z x y updateNow timeInvariant stddev =>
    updateNow = false /\
    exists r, In r (mat_rows raw_xyz) /\
      nth_error r 0 = Some x /\ nth_error r 1 = Some y /\
      nth_error r 2 = Some z /\
      (cols raw_xyz = 3%nat -> stddev = arg_std_observations cfg) /\
      (cols raw_xyz <> 3%nat -> nth_error r 3 = Some stddev)
  | _ => False
  end.

(** ** The events of the stages when they end well *)

(** The partition stage 3 makes for a table. *)
Definition partition_of (round : double -> Z) (env : Env)
           (cfg : Config) (raw_xyz : CMatrix) : Partition :=
  pick_random_checkpoints round env (rows raw_xyz) (arg_checkpoints_ratio cfg).

(** Stage 4. *)
Definition setup_events (cfg : Config) (b : BBox) : list Event :=
  [EvSetOptions (ddiv lit_1_0 (square (arg_std_prior cfg)))
                (ddiv lit_1_0 (square (arg_std_observations cfg)))
                (arg_skip_variance cfg);
   EvSetSize (minx b) (maxx b) (miny b) (maxy b) (arg_dem_resolution cfg)].

(** What the estimator returns for a checkpoint: the height and deviation of
    the nearest cell, and the bilinear ones. *)
Definition Prediction : Type := (double * double * (double * double))%type.

(** The two queries of stage 7 for the checkpoint of index [i]. *)
Definition predict_events (raw_xyz : CMatrix) (i : Z) (o : Prediction)
  : list Event :=
  let r := row_of raw_xyz i in
  [EvPredict (px r) (py r) gimNearest (Some (fst o));
   EvPredict (px r) (py r) gimBilinear (Some (snd o))].

Definition residual_NN (raw_xyz : CMatrix) (i : Z) (o : Prediction) : double :=
  dsub (pz (row_of raw_xyz i)) (fst (fst o)).

Definition residual_Bi (raw_xyz : CMatrix) (i : Z) (o : Prediction) : double :=
  dsub (pz (row_of raw_xyz i)) (fst (snd o)).

(** The residual vectors and the predictions of the checkpoints, in terms of
    the checkpoint set. *)
Definition predictions_of (raw_xyz : CMatrix) (p : Partition)
           (outs : list Prediction) : list Event :=
  flat_map (fun io => predict_events raw_xyz (fst io) (snd io))
           (combine (checkpoint_set p) outs).

Definition residuals_NN_of (raw_xyz : CMatrix) (p : Partition)
           (outs : list Prediction) : list double :=
  map (fun io => residual_NN raw_xyz (fst io) (snd io))
      (combine (checkpoint_set p) outs).

Definition residuals_Bi_of (raw_xyz : CMatrix) (p : Partition)
           (outs : list Prediction) : list double :=
  map (fun io => residual_Bi raw_xyz (fst io) (snd io))
      (combine (checkpoint_set p) outs).

(** The two residual files and the two files of statistics. *)
Definition residual_files (sPrefix : string) (e : Event) : Prop :=
  match e with
  | EvSaveVector file _ _ =>
    file = (sPrefix ++ "_chkpt_residuals_NN.txt")%string \/
    file = (sPrefix ++ "_chkpt_residuals_Bi.txt")%string \/
    file = (sPrefix ++ "_chkpt_residuals_NN_stats.txt")%string \/
    file = (sPrefix ++ "_chkpt_residuals_Bi_stats.txt")%string
  | _ => False
  end.

(** Stage 7, for the predictions [outs] of the estimator. *)
Definition validation_events (raw_xyz : CMatrix) (p : Partition)
           (sPrefix : string) (outs : list Prediction) (files : list Event)
  : list Event :=
  predictions_of raw_xyz p outs ++
  EvSaveVector (sPrefix ++ "_chkpt_residuals_NN.txt")
               (residuals_NN_of raw_xyz p outs) None ::
  EvSaveVector (sPrefix ++ "_chkpt_residuals_Bi.txt")
               (residuals_Bi_of raw_xyz p outs) None :: files.

Definition fil_pts_map (sPrefix : string) : string :=
  (sPrefix ++ "_pts_map.txt")%string.

Definition fil_pts_chk (sPrefix : string) : string :=
  (sPrefix ++ "_pts_chk.txt")%string.

(** Stage 9. *)
Definition output_events (raw_xyz : CMatrix) (p : Partition)
           (sPrefix : string) : list Event :=
  EvFileOpen (fil_pts_map sPrefix) ::
  map (print_event (fil_pts_map sPrefix) raw_xyz) (insertion_set p) ++
  EvFileOpen (fil_pts_chk sPrefix) ::
  map (print_event (fil_pts_chk sPrefix) raw_xyz) (checkpoint_set p) ++
  [EvSaveMetricMap (sPrefix ++ "_grmf")%string;
   EvSaveMatlab (sPrefix ++ "_grmf_draw.m")%string].

(** The window. *)
Definition window_events (env : Env) (cfg : Config) : list Event :=
  if env_has_wxwidgets env && negb (arg_no_gui cfg) then [EvDisplayWindow]
  else [].

(** ** What the collaborators are asked for *)

(** Modelled from the spec: [CRandomFieldGridMap2D::setSize] is code of MRPT,
    not of this repository; the specification (4.4) says that a resize with a
    non-positive resolution signals [InvalidConfiguration].  This is an
    estimator that refuses such a resolution. *)
Definition rejects_resolution (FE : FieldEstimator) : Prop :=
  forall m x_min x_max y_min y_max resolution,
    dle resolution lit_0_0 = true ->
    fe_setSize FE m x_min x_max y_min y_max resolution = None.

(** An estimator that refuses nothing the pipeline asks of it outside
    stage 7. *)
Definition accepts_all (FE : FieldEstimator) : Prop :=
  (forall m x_min x_max y_min y_max resolution,
      fe_setSize FE m x_min x_max y_min y_max resolution <> None) /\
  (forall m z x y updateNow timeInvariant stddev,
      fe_insertIndividualReading FE m z x y updateNow timeInvariant stddev
      <> None) /\
  (forall m, fe_updateMapEstimation FE m <> None) /\
  (forall m file, fe_saveMetricMapRepresentationToFile FE m file <> None) /\
  (forall m file, fe_saveAsMatlab3DGraph FE m file <> None).

(** An estimator that answers every prediction. *)
Definition accepts_predictions (FE : FieldEstimator) : Prop :=
  forall m x y interp, fe_predictMeasurement FE m x y interp <> None.

(** [std::nth_element] rearranges its range in place: what it leaves has the
    length of what it was given. *)
Definition keeps_length (nth_element : list double -> nat -> list double)
  : Prop :=
  forall v n, length (nth_element v n) = length v.

(** ** How a computation may end *)

(** A computation that has no undefined behaviour: it returns a value that
    satisfies [post], or throws, and it throws only when some collaborator
    may refuse a call (when [accepting] does not hold). *)
Definition safe {A} (accepting : Prop) (post : A -> Prop) (m : M A) : Prop :=
  match snd m with
  | Ok a => post a
  | Exception => ~ accepting
  | Undefined => False
  end.

(** An estimator without state that accepts every call and predicts a height
    of zero everywhere. *)
Definition level_estimator : FieldEstimator := {|
  fe_map := unit;
  fe_create := tt;
  fe_setOptions := fun m _ _ _ => m;
  fe_setSize := fun m _ _ _ _ _ => Some m;
  fe_insertIndividualReading := fun m _ _ _ _ _ _ => Some m;
  fe_updateMapEstimation := fun m => Some m;
  fe_predictMeasurement := fun m _ _ _ => Some (lit_0_0, lit_1_0, m);
  fe_saveMetricMapRepresentationToFile := fun _ _ => Some tt;
  fe_saveAsMatlab3DGraph := fun _ _ => Some tt
|}.

(** ** What a trace shows *)

Definition xyz_of_row (r : list double) : double * double * double :=
  (px r, py r, pz r).

Definition xy_of_point (q : double * double * double) : double * double :=
  (fst (fst q), snd (fst q)).

Definition same_method (a b : TGridInterpolationMethod) : bool :=
  match a, b with
  | gimNearest, gimNearest | gimBilinear, gimBilinear => true
  | _, _ => false
  end.

(** The points given to the estimator, in the order given. *)
Definition inserted_points (t : list Event)
  : list (double * double * double) :=
  flat_map (fun e => match e with
                     | EvInsert z x y _ _ _ => [(x, y, z)]
                     | _ => []
                     end) t.

(** The lines printed in a file, in the order printed. *)
Definition printed_points (file : string) (t : list Event)
  : list (double * double * double) :=
  flat_map (fun e => match e with
                     | EvFilePrintf f x y z =>
                       if String.eqb f file then [(x, y, z)] else []
                     | _ => []
                     end) t.

(** The places where a prediction was asked with a method, in the order
    asked. *)
Definition predicted_places (interp : TGridInterpolationMethod)
           (t : list Event) : list (double * double) :=
  flat_map (fun e => match e with
                     | EvPredict x y i _ =>
                       if same_method i interp then [(x, y)] else []
                     | _ => []
                     end) t.

(** A prediction that threw. *)
Definition failed_prediction (e : Event) : Prop :=
  match e with EvPredict _ _ _ None => True | _ => False end.

Definition is_window (e : Event) : Prop :=
  match e with EvDisplayWindow => True | _ => False end.

(** A call to the estimator that is not a prediction that threw. *)
Definition calm (e : Event) : Prop :=
  (is_setup e \/ is_insert e \/ is_solve e \/ is_predict e) /\
  ~ failed_prediction e.

(** A computation all of whose events are [quiet], or that ends with an
    exception right after a prediction that threw, having made only calls to
    the estimator before. *)
Definition ends_at {A} (quiet : Event -> Prop) (m : M A) : Prop :=
  Forall quiet (fst m) \/
  (snd m = Exception /\
   exists pre e, fst m = pre ++ [e] /\ failed_prediction e /\
                 Forall calm pre).

(** An estimator that accepts every call but the predictions. *)
Definition blind_estimator : FieldEstimator := {|
  fe_map := unit;
  fe_create := tt;
  fe_setOptions := fun m _ _ _ => m;
  fe_setSize := fun m _ _ _ _ _ => Some m;
  fe_insertIndividualReading := fun m _ _ _ _ _ _ => Some m;
  fe_updateMapEstimation := fun m => Some m;
  fe_predictMeasurement := fun m _ _ _ => None;
  fe_saveMetricMapRepresentationToFile := fun _ _ => Some tt;
  fe_saveAsMatlab3DGraph := fun _ _ => Some tt
|}.

(** The same environment, for a program built with wxWidgets. *)
Definition with_window (env : Env) : Env := {|
  env_parse := env_parse env;
  env_file_exists := env_file_exists env;
  env_load := env_load env;
  env_rand := env_rand env;
  env_writable := env_writable env;
  env_has_wxwidgets := true
|}.

(* ================================================================== *)
(** * Lemmas and theorems *)

(** ** The literals of the source

    [10.0], [1e6], [1.0] and [0.5] are values of the format; [0.20] and
    [0.01] are not, and the literal is the value nearest to them: within half
    a unit in the last place. *)

Lemma literals_valid :
  Forall (fun x => valid x = true)
         [lit_0_0; lit_1_0; lit_10_0; lit_1e6; lit_0_20; lit_0_01; lit_0_5;
          DBL_MAX].
Proof. repeat constructor. Qed.

Lemma lit_10_0_exact :
  lit_10_0 = S754_finite false 5629499534213120 (-49) /\
  5629499534213120 = 10 * 2 ^ 49.
Proof. split; reflexivity. Qed.

Lemma lit_1e6_exact :
  lit_1e6 = S754_finite false 8589934592000000 (-33) /\
  8589934592000000 = 1000000 * 2 ^ 33.
Proof. split; reflexivity. Qed.

Lemma lit_0_20_nearest :
  lit_0_20 = S754_finite false 7205759403792794 (-55) /\
  2 * Z.abs (5 * 7205759403792794 - 2 ^ 55) <= 5.
Proof. split; [reflexivity|]. vm_compute. discriminate. Qed.

Lemma lit_0_01_nearest :
  lit_0_01 = S754_finite false 5764607523034235 (-59) /\
  2 * Z.abs (100 * 5764607523034235 - 2 ^ 59) <= 100.
Proof. split; [reflexivity|]. vm_compute. discriminate. Qed.

(** ** binary64: mantissas, exponents and values *)

Lemma fexp_eq x : fexp prec emax x = Z.max (x - 53) (-1074).
Proof. reflexivity. Qed.

Lemma digits2_log2 m : Zpos (digits2_pos m) = Z.log2 (Zpos m) + 1.
Proof.
  assert (H : forall p, digits2_pos p = Pos.size p).
  { induction p; simpl; congruence. }
  rewrite H. destruct m; simpl; lia.
Qed.

Lemma digits2_bounds m :
  2 ^ (Zpos (digits2_pos m) - 1) <= Zpos m < 2 ^ Zpos (digits2_pos m).
Proof.
  rewrite digits2_log2.
  replace (Z.log2 (Zpos m) + 1 - 1) with (Z.log2 (Zpos m)) by lia.
  apply (Z.log2_spec (Zpos m)). lia.
Qed.

Lemma digits2_unique m d :
  2 ^ (d - 1) <= Zpos m < 2 ^ d -> Zpos (digits2_pos m) = d.
Proof.
  intros [H1 H2]. rewrite digits2_log2.
  assert (0 < d).
  { destruct (Z.le_gt_cases d 0) as [Hd|Hd]; [|exact Hd].
    exfalso.
    assert (2 ^ d <= 2 ^ 0) by (apply Z.pow_le_mono_r; lia).
    simpl in H. lia. }
  assert (Z.log2 (Zpos m) = d - 1).
  { apply Z.log2_unique; [lia|]. replace (Z.succ (d - 1)) with d by lia. lia. }
  lia.
Qed.

Lemma bounded_iff m e :
  bounded prec emax m e = true <->
  e = Z.max (Zpos (digits2_pos m) + e - 53) (-1074) /\ e <= 971.
Proof.
  unfold bounded, canonical_mantissa. rewrite fexp_eq.
  rewrite andb_true_iff, Z.eqb_eq, Z.leb_le.
  change (emax - prec) with 971. intuition lia.
Qed.

Lemma zval_pos m e : 0 < m -> - bias <= e -> 0 < zval m e.
Proof.
  intros. unfold zval, bias in *. apply Z.mul_pos_pos; [lia|].
  apply Z.pow_pos_nonneg; lia.
Qed.

Lemma zval_shift m e k :
  0 <= k -> - bias <= e -> zval (m * 2 ^ k) e = zval m (e + k).
Proof.
  intros. unfold zval, bias in *.
  replace (e + k + 2200) with (k + (e + 2200)) by lia.
  rewrite (Z.pow_add_r 2 k (e + 2200)) by lia. ring.
Qed.

(** Canonical mantissas are ordered as the values are. *)
Lemma canonical_lt m1 e1 m2 e2 :
  bounded prec emax m1 e1 = true -> bounded prec emax m2 e2 = true ->
  e1 < e2 -> zval (Zpos m1) e1 < zval (Zpos m2) e2.
Proof.
  rewrite !bounded_iff. intros [H1 _] [H2 _] Hlt.
  pose proof (digits2_bounds m1) as D1.
  pose proof (digits2_bounds m2) as D2.
  assert (Hd2 : Zpos (digits2_pos m2) = 53) by lia.
  assert (Hd1 : Zpos (digits2_pos m1) <= 53) by lia.
  rewrite Hd2 in D2.
  assert (Zpos m1 < 2 ^ 53).
  { eapply Z.lt_le_trans; [apply D1|]. apply Z.pow_le_mono_r; lia. }
  unfold zval, bias.
  replace (e2 + 2200) with ((e2 - e1) + (e1 + 2200)) by lia.
  rewrite (Z.pow_add_r 2 (e2 - e1) (e1 + 2200)) by lia.
  assert (0 < 2 ^ (e1 + 2200)) by (apply Z.pow_pos_nonneg; lia).
  assert (2 ^ 1 <= 2 ^ (e2 - e1)) by (apply Z.pow_le_mono_r; lia).
  change (2 ^ (53 - 1)) with 4503599627370496 in D2.
  change (2 ^ 53) with 9007199254740992 in *.
  change (2 ^ 1) with 2 in *.
  assert (Zpos m1 < Zpos m2 * 2 ^ (e2 - e1)) by nia.
  rewrite Z.mul_assoc. apply Z.mul_lt_mono_pos_r; assumption.
Qed.

Lemma canonical_compare m1 e1 m2 e2 :
  bounded prec emax m1 e1 = true -> bounded prec emax m2 e2 = true ->
  match e1 ?= e2 with
  | Lt => Lt
  | Gt => Gt
  | Eq => Pos.compare_cont Eq m1 m2
  end = (zval (Zpos m1) e1 ?= zval (Zpos m2) e2).
Proof.
  intros B1 B2. symmetry.
  destruct (Z.compare_spec e1 e2) as [He|He|He].
  - subst e2. unfold zval.
    assert (0 < 2 ^ (e1 + bias)).
    { apply Z.pow_pos_nonneg; [lia|].
      apply bounded_iff in B1. unfold bias. lia. }
    change (Pos.compare_cont Eq m1 m2) with (Zpos m1 ?= Zpos m2).
    destruct (Z.compare_spec (Zpos m1) (Zpos m2)) as [Hm|Hm|Hm].
    + rewrite Hm. apply Z.compare_refl.
    + apply Z.compare_lt_iff. nia.
    + apply Z.compare_gt_iff. nia.
  - apply Z.compare_lt_iff. now apply canonical_lt.
  - apply Z.compare_gt_iff. now apply canonical_lt.
Qed.

(** ** Shifting a mantissa right *)

Lemma shr_1_spec mrs :
  0 <= shr_m mrs ->
  shr_m (shr_1 mrs) = shr_m mrs / 2 /\
  shr_r (shr_1 mrs) = Z.odd (shr_m mrs) /\
  shr_s (shr_1 mrs) = shr_r mrs || shr_s mrs.
Proof.
  destruct mrs as [m r s]. simpl. intros Hm.
  destruct m as [|p|p]; [| |lia].
  - repeat split.
  - destruct p as [p|p|].
    + split; [|split; reflexivity]. simpl. rewrite Pos2Z.inj_xI.
      apply Z.div_unique with (r := 1); lia.
    + split; [|split; reflexivity]. simpl. rewrite Pos2Z.inj_xO.
      apply Z.div_unique with (r := 0); lia.
    + repeat split.
Qed.

Lemma shr_1_inv m0 k mrs :
  0 <= m0 -> 0 <= k -> shr_inv m0 k mrs -> shr_inv m0 (k + 1) (shr_1 mrs).
Proof.
  intros Hm0 Hk [Hm Hrs].
  assert (Hp : 0 < 2 ^ k) by (apply Z.pow_pos_nonneg; lia).
  assert (Hq : 0 <= m0 / 2 ^ k) by (apply Z.div_pos; lia).
  destruct (shr_1_spec mrs) as (E1 & E2 & E3); [lia|].
  unfold shr_inv.
  rewrite Z.pow_add_r, Z.pow_1_r by lia.
  split.
  - rewrite E1, Hm. rewrite Z.div_div by lia. reflexivity.
  - rewrite E2, E3, Hm.
    rewrite Z.rem_mul_r by lia.
    pose proof (Z.mod_pos_bound m0 (2 ^ k) Hp) as Hb.
    pose proof (Z.mod_pos_bound (m0 / 2 ^ k) 2 ltac:(lia)) as Hb2.
    rewrite orb_false_iff, Hrs.
    pose proof (Zmod_odd (m0 / 2 ^ k)) as Hodd.
    destruct (Z.odd (m0 / 2 ^ k)); rewrite Hodd.
    + split; [intros [H1 _]; discriminate | intros H; exfalso; nia].
    + split; [intros [_ H2]; rewrite H2; lia | intros H; split; [reflexivity | nia]].
Qed.

Lemma iter_pos_inv {A} (f : A -> A) (P : Z -> A -> Prop) :
  (forall k x, 0 <= k -> P k x -> P (k + 1) (f x)) ->
  forall p k x, 0 <= k -> P k x -> P (k + Zpos p) (iter_pos f p x).
Proof.
  intros Hstep. induction p as [p IH|p IH|]; intros k x Hk Hx; simpl.
  - replace (k + Zpos p~1) with (k + 1 + Zpos p + Zpos p) by lia.
    apply IH; [lia|]. apply IH; [lia|]. now apply Hstep.
  - replace (k + Zpos p~0) with (k + Zpos p + Zpos p) by lia.
    apply IH; [lia|]. now apply IH.
  - now apply Hstep.
Qed.

Lemma shr_fexp_exact m e :
  e <= fexp prec emax (Zpos (digits2_pos m) + e) ->
  exists mrs,
    shr_fexp prec emax (Zpos m) e loc_Exact
    = (mrs, fexp prec emax (Zpos (digits2_pos m) + e)) /\
    shr_inv (Zpos m) (fexp prec emax (Zpos (digits2_pos m) + e) - e) mrs.
Proof.
  intros Hf. unfold shr_fexp, shr. simpl Zdigits2.
  set (f := fexp prec emax (Zpos (digits2_pos m) + e)) in *.
  simpl shr_record_of_loc.
  destruct (f - e) as [|p|p] eqn:Hn; try lia.
  - eexists. split; [f_equal; lia|].
    split; simpl; [now rewrite Z.div_1_r|].
    rewrite Z.mod_1_r. tauto.
  - eexists. split; [f_equal; lia|].
    change (Zpos p) with (0 + Zpos p).
    apply (iter_pos_inv shr_1 (shr_inv (Zpos m))); [|lia|].
    + intros k x Hk. apply shr_1_inv; lia.
    + split; simpl; [now rewrite Z.div_1_r|].
      rewrite Z.mod_1_r. tauto.
Qed.

Lemma round_nearest_even_bounds mrs :
  let m'' := round_nearest_even (shr_m mrs) (loc_of_shr_record mrs) in
  shr_m mrs <= m'' <= shr_m mrs + 1 /\
  (shr_r mrs || shr_s mrs = false -> m'' = shr_m mrs).
Proof.
  destruct mrs as [m [|] [|]]; simpl; try destruct (Z.even m);
    split; try lia; try discriminate; reflexivity.
Qed.

(** ** The last step of rounding: renormalise and check for overflow *)

(** What is left of a mantissa [m] at exponent [e] once shifted to the
    exponent of the format. *)
Lemma shifted_mantissa_bounds m e :
  let f := fexp prec emax (Zpos (digits2_pos m) + e) in
  e <= f ->
  -1074 <= f /\
  Zpos m / 2 ^ (f - e) < 2 ^ 53 /\
  (-1074 < f -> 2 ^ 52 <= Zpos m / 2 ^ (f - e)).
Proof.
  intros f Hf. subst f. rewrite fexp_eq in *.
  pose proof (digits2_bounds m) as D.
  set (d := Zpos (digits2_pos m)) in *.
  assert (0 < d) by (subst d; lia).
  split; [lia|].
  destruct (Z.max_spec (d + e - 53) (-1074)) as [[Hc Hm]|[Hc Hm]]; rewrite Hm in *.
  - (* subnormal: the exponent is the least one *)
    split; [|lia].
    apply Z.div_lt_upper_bound; [apply Z.pow_pos_nonneg; lia|].
    rewrite <- Z.pow_add_r by lia.
    eapply Z.lt_le_trans; [apply D|]. apply Z.pow_le_mono_r; lia.
  - split.
    + apply Z.div_lt_upper_bound; [apply Z.pow_pos_nonneg; lia|].
      rewrite <- Z.pow_add_r by lia.
      replace (d + e - 53 - e + 53) with d by lia. apply D.
    + intros _. apply Z.div_le_lower_bound; [apply Z.pow_pos_nonneg; lia|].
      rewrite <- Z.pow_add_r by lia.
      replace (d + e - 53 - e + 52) with (d - 1) by lia. apply D.
Qed.

Lemma binary_round_aux_finish s m e :
  let f := fexp prec emax (Zpos (digits2_pos m) + e) in
  e <= f ->
  exists m'',
    Zpos m / 2 ^ (f - e) <= m'' <= Zpos m / 2 ^ (f - e) + 1 /\
    (Zpos m mod 2 ^ (f - e) = 0 -> m'' = Zpos m / 2 ^ (f - e)) /\
    binary_round_aux prec emax s (Zpos m) e loc_Exact = finish s m'' f.
Proof.
  intros f Hf.
  destruct (shr_fexp_exact m e Hf) as (mrs & Hshr & Hm & Hrs).
  destruct (shifted_mantissa_bounds m e Hf) as (Hf0 & Hlt & Hge).
  fold f in Hshr, Hm, Hrs, Hf0, Hlt, Hge.
  pose proof (round_nearest_even_bounds mrs) as [Hb Hex].
  set (m'' := round_nearest_even (shr_m mrs) (loc_of_shr_record mrs)) in *.
  exists m''. rewrite <- Hm.
  split; [exact Hb|]. split; [intros H0; apply Hex, Hrs, H0|].
  unfold binary_round_aux. rewrite Hshr. fold m''.
  assert (Hm0 : 0 <= shr_m mrs).
  { rewrite Hm. apply Z.div_pos; [lia|]. apply Z.pow_pos_nonneg; lia. }
  rewrite Hm in Hb. rewrite <- Hm in Hlt, Hge.
  change (2 ^ 53) with 9007199254740992 in *.
  change (2 ^ 52) with 4503599627370496 in *.
  destruct m'' as [|p|p] eqn:Hp; [| |lia].
  - (* rounded to zero *)
    unfold shr_fexp, shr. simpl Zdigits2. rewrite fexp_eq.
    destruct (Z.max (0 + f - 53) (-1074) - f) eqn:Hn; try lia. reflexivity.
  - unfold finish.
    pose proof (digits2_bounds p) as D.
    destruct (Z.ltb_spec (Zpos p) 9007199254740992) as [Hsmall|Hbig].
    + (* no carry: the mantissa fits *)
      assert (Hd : Zpos (digits2_pos p) <= 53).
      { destruct (Z.le_gt_cases (Zpos (digits2_pos p)) 53) as [H|H]; [exact H|].
        exfalso.
        assert (2 ^ 53 <= 2 ^ (Zpos (digits2_pos p) - 1))
          by (apply Z.pow_le_mono_r; lia).
        change (2 ^ 53) with 9007199254740992 in *. lia. }
      unfold shr_fexp, shr. simpl Zdigits2. rewrite fexp_eq.
      destruct (Z.max (Zpos (digits2_pos p) + f - 53) (-1074) - f) eqn:Hn;
        try lia; reflexivity.
    + (* carry out of the mantissa: [p = 2^53] *)
      assert (Hp53 : p = 9007199254740992%positive) by lia.
      subst p.
      unfold shr_fexp, shr. simpl Zdigits2. rewrite fexp_eq.
      change (Zpos (digits2_pos 9007199254740992)) with 54.
      replace (Z.max (54 + f - 53) (-1074) - f) with 1 by lia.
      reflexivity.
Qed.

(** ** Rounding is monotone against the values of the format *)

Lemma canonical_upper mb eb :
  bounded prec emax mb eb = true ->
  zval (Zpos mb) eb < 2 ^ (1024 + bias).
Proof.
  intros Hb. apply bounded_iff in Hb. destruct Hb as [Hc He].
  pose proof (digits2_bounds mb) as D.
  assert (Hd : Zpos (digits2_pos mb) <= 53) by lia.
  assert (Zpos mb < 2 ^ 53).
  { eapply Z.lt_le_trans; [apply D|]. apply Z.pow_le_mono_r; lia. }
  unfold zval, bias.
  assert (0 < 2 ^ (eb + 2200)) by (apply Z.pow_pos_nonneg; lia).
  assert (2 ^ (eb + 2200) <= 2 ^ (971 + 2200)) by (apply Z.pow_le_mono_r; lia).
  replace (1024 + 2200) with (53 + (971 + 2200)) by lia.
  rewrite (Z.pow_add_r 2 53 (971 + 2200)) by lia.
  assert (0 < 2 ^ 53) by (apply Z.pow_pos_nonneg; lia).
  nia.
Qed.

(** Between two neighbouring multiples of [2^f] that are at least [2^52 * 2^f]
    (or any two, at the least exponent) there is no value of the format. *)
Lemma grid mb eb f n :
  bounded prec emax mb eb = true ->
  -1074 <= f -> 0 <= n -> (-1074 < f -> 2 ^ 52 <= n) ->
  let P := 2 ^ (f + bias) in
  let Bv := zval (Zpos mb) eb in
  (n * P < Bv -> (n + 1) * P <= Bv) /\ (Bv < (n + 1) * P -> Bv <= n * P).
Proof.
  intros Hb Hf Hn Hnorm P Bv.
  assert (HP : 0 < P) by (apply Z.pow_pos_nonneg; unfold bias; lia).
  pose proof Hb as Hb'. apply bounded_iff in Hb'. destruct Hb' as [Hc He].
  destruct (Z.le_gt_cases f eb) as [Hfe|Hfe].
  - (* [Bv] is a multiple of [P] *)
    assert (HB : Bv = Zpos mb * 2 ^ (eb - f) * P).
    { subst Bv P. unfold zval.
      replace (eb + bias) with ((eb - f) + (f + bias)) by lia.
      rewrite (Z.pow_add_r 2 (eb - f) (f + bias)) by (unfold bias; lia). ring. }
    set (q := Zpos mb * 2 ^ (eb - f)) in *.
    rewrite HB. split; intros Hx.
    + assert (n < q) by nia. nia.
    + assert (q < n + 1) by nia. nia.
  - (* [Bv] is below every multiple considered *)
    assert (Hlow : Bv < 2 ^ 52 * P).
    { subst Bv P.
      pose proof (digits2_bounds mb) as D.
      assert (Hd : Zpos (digits2_pos mb) <= 53) by lia.
      assert (Zpos mb < 2 ^ 53).
      { eapply Z.lt_le_trans; [apply D|]. apply Z.pow_le_mono_r; lia. }
      unfold zval, bias.
      replace (f + 2200) with ((f - eb) + (eb + 2200)) by lia.
      rewrite (Z.pow_add_r 2 (f - eb) (eb + 2200)) by lia.
      assert (0 < 2 ^ (eb + 2200)) by (apply Z.pow_pos_nonneg; lia).
      assert (2 ^ 1 <= 2 ^ (f - eb)) by (apply Z.pow_le_mono_r; lia).
      change (2 ^ 1) with 2 in *.
      change (2 ^ 52) with 4503599627370496.
      change (2 ^ 53) with 9007199254740992 in *.
      assert (Zpos mb < 4503599627370496 * 2 ^ (f - eb)) by nia.
      rewrite Z.mul_assoc. apply Z.mul_lt_mono_pos_r; assumption. }
    assert (2 ^ 52 <= n) by (apply Hnorm; lia).
    assert (2 ^ 52 * P <= n * P) by (apply Z.mul_le_mono_nonneg_r; lia).
    split; intros Hx; nia.
Qed.

Lemma finish_mono s m'' f m' V mb eb :
  -1074 <= f -> 0 <= m' -> m' <= m'' <= m' + 1 -> m' < 2 ^ 53 ->
  (-1074 < f -> 2 ^ 52 <= m') ->
  m' * 2 ^ (f + bias) <= V < (m' + 1) * 2 ^ (f + bias) ->
  (m'' = m' + 1 -> m' * 2 ^ (f + bias) < V) ->
  bounded prec emax mb eb = true ->
  sign_is s (finish s m'' f) /\
  valid (finish s m'' f) = true /\
  (V <= zval (Zpos mb) eb -> mag_le (finish s m'' f) (zval (Zpos mb) eb)) /\
  (zval (Zpos mb) eb <= V -> mag_ge (finish s m'' f) (zval (Zpos mb) eb)).
Proof.
  intros Hf Hm0 Hm'' Hlt Hnorm HV Hup Hb.
  pose proof (grid mb eb f m' Hb Hf Hm0 Hnorm) as [G1 G2]. cbv zeta in G1, G2.
  pose proof (canonical_upper mb eb Hb) as HBmax.
  pose proof (zval_pos (Zpos mb) eb ltac:(lia)) as HBpos.
  assert (Heb : -1074 <= eb) by (apply bounded_iff in Hb; lia).
  specialize (HBpos ltac:(unfold bias; lia)).
  set (Bv := zval (Zpos mb) eb) in *.
  set (P := 2 ^ (f + bias)) in *.
  assert (HP : 0 < P) by (apply Z.pow_pos_nonneg; unfold bias; lia).
  change (2 ^ 53) with 9007199254740992 in *.
  change (2 ^ 52) with 4503599627370496 in *.
  assert (Hle : V <= Bv -> m'' * P <= Bv).
  { intros Hx. destruct (Z.eq_dec m'' m') as [E|E]; [rewrite E; lia|].
    assert (E' : m'' = m' + 1) by lia. rewrite E'. apply G1.
    specialize (Hup E'). lia. }
  assert (Hge : Bv <= V -> Bv <= m'' * P).
  { intros Hx. assert (Bv <= m' * P) by (apply G2; lia). nia. }
  assert (Hbig : forall g, 972 <= g -> 2 ^ (1024 + bias) <= 4503599627370496 * 2 ^ (g + bias)).
  { intros g Hg. change 4503599627370496 with (2 ^ 52).
    rewrite <- Z.pow_add_r by (unfold bias; lia).
    apply Z.pow_le_mono_r; unfold bias; lia. }
  unfold finish.
  destruct m'' as [|p|p]; [| |lia].
  - (* zero *)
    simpl. repeat split; trivial.
    intros Hx. specialize (Hge Hx). lia.
  - destruct (Z.ltb_spec (Zpos p) 9007199254740992) as [Hsmall|Hcarry].
    + destruct (Z.leb_spec f 971) as [Hfin|Hovf].
      * (* a finite result with mantissa [p] *)
        assert (Hbd : bounded prec emax p f = true).
        { apply bounded_iff. split; [|lia].
          pose proof (digits2_bounds p) as D.
          destruct (Z.eq_dec f (-1074)) as [E|E].
          - assert (Zpos (digits2_pos p) <= 53); [|lia].
            destruct (Z.le_gt_cases (Zpos (digits2_pos p)) 53) as [H'|H']; [exact H'|].
            exfalso.
            assert (2 ^ 53 <= 2 ^ (Zpos (digits2_pos p) - 1))
              by (apply Z.pow_le_mono_r; lia).
            change (2 ^ 53) with 9007199254740992 in *. lia.
          - assert (Zpos (digits2_pos p) = 53); [|lia].
            apply digits2_unique.
            change (2 ^ (53 - 1)) with 4503599627370496.
            change (2 ^ 53) with 9007199254740992.
            specialize (Hnorm ltac:(lia)). lia. }
        unfold valid. cbn [sign_is mag_le mag_ge valid_binary]. rewrite Hbd.
        repeat split; trivial; [apply Hle | apply Hge]; assumption.
      * (* overflow *)
        simpl. repeat split; trivial.
        intros Hx. specialize (Hle Hx).
        specialize (Hnorm ltac:(lia)).
        specialize (Hbig f ltac:(lia)). fold P in Hbig.
        assert (4503599627370496 * P <= Zpos p * P)
          by (apply Z.mul_le_mono_nonneg_r; lia).
        lia.
    + (* the carry: [p = 2^53] *)
      assert (Hp : Zpos p = 9007199254740992) by lia.
      assert (HP2 : zval 4503599627370496 (f + 1) = Zpos p * P).
      { rewrite Hp. subst P. unfold zval.
        replace (f + 1 + bias) with (1 + (f + bias)) by lia.
        rewrite (Z.pow_add_r 2 1 (f + bias)) by (unfold bias; lia).
        change (2 ^ 1) with 2. ring. }
      destruct (Z.leb_spec (f + 1) 971) as [Hfin|Hovf].
      * assert (Hbd : bounded prec emax 4503599627370496 (f + 1) = true).
        { apply bounded_iff. change (Zpos (digits2_pos 4503599627370496)) with 53. lia. }
        unfold valid. cbn [sign_is mag_le mag_ge valid_binary]. rewrite Hbd.
        rewrite HP2.
        repeat split; trivial; [apply Hle | apply Hge]; assumption.
      * simpl. repeat split; trivial.
        intros Hx. specialize (Hle Hx).
        specialize (Hbig (f + 1) ltac:(lia)).
        change (Zpos 4503599627370496) with 4503599627370496 in HP2.
        unfold zval in HP2. rewrite HP2 in Hbig.
        assert (Zpos p * P <= Zpos p * P * 1) by lia.
        rewrite Hp in *. nia.
Qed.

Lemma binary_round_aux_mono s m e mb eb :
  - bias <= e ->
  e <= fexp prec emax (Zpos (digits2_pos m) + e) ->
  bounded prec emax mb eb = true ->
  let r := binary_round_aux prec emax s (Zpos m) e loc_Exact in
  sign_is s r /\ valid r = true /\
  (zval (Zpos m) e <= zval (Zpos mb) eb -> mag_le r (zval (Zpos mb) eb)) /\
  (zval (Zpos mb) eb <= zval (Zpos m) e -> mag_ge r (zval (Zpos mb) eb)).
Proof.
  intros He Hf Hb r. subst r.
  destruct (binary_round_aux_finish s m e Hf) as (m'' & Hm'' & Hex & ->).
  destruct (shifted_mantissa_bounds m e Hf) as (Hf0 & Hlt & Hge).
  set (f := fexp prec emax (Zpos (digits2_pos m) + e)) in *.
  set (k := f - e) in *.
  assert (Hk : 0 <= k) by (subst k; lia).
  assert (Hpk : 0 < 2 ^ k) by (apply Z.pow_pos_nonneg; lia).
  assert (HQ : 0 < 2 ^ (e + bias)) by (apply Z.pow_pos_nonneg; lia).
  assert (HP : 2 ^ (f + bias) = 2 ^ k * 2 ^ (e + bias)).
  { rewrite <- Z.pow_add_r by lia. f_equal. subst k. lia. }
  pose proof (Z.div_mod (Zpos m) (2 ^ k) ltac:(lia)) as Hdm.
  pose proof (Z.mod_pos_bound (Zpos m) (2 ^ k) Hpk) as Hrem.
  assert (Hm'0 : 0 <= Zpos m / 2 ^ k) by (apply Z.div_pos; lia).
  apply finish_mono with (m' := Zpos m / 2 ^ k); try assumption.
  - rewrite HP. unfold zval.
    set (Q := 2 ^ (e + bias)) in *. set (q := Zpos m / 2 ^ k) in *.
    set (rem := Zpos m mod 2 ^ k) in *. set (T := 2 ^ k) in *.
    clearbody q rem T Q. rewrite Hdm. split; nia.
  - intros Hup.
    destruct (Z.eq_dec (Zpos m mod 2 ^ k) 0) as [E|E].
    + specialize (Hex E). lia.
    + rewrite HP. unfold zval.
      set (Q := 2 ^ (e + bias)) in *. set (q := Zpos m / 2 ^ k) in *.
      set (rem := Zpos m mod 2 ^ k) in *. set (T := 2 ^ k) in *.
      clearbody q rem T Q. rewrite Hdm. nia.
Qed.

(** ** Aligning a mantissa to a smaller exponent *)

Lemma iter_xO m p : Zpos (Pos.iter xO m p) = Zpos m * 2 ^ Zpos p.
Proof.
  induction p as [|p IH] using Pos.peano_ind.
  - simpl. lia.
  - rewrite Pos.iter_succ, Pos2Z.inj_xO, IH, Pos2Z.inj_succ.
    rewrite Z.pow_succ_r by lia. ring.
Qed.

Lemma shl_align_spec mx ex ex' :
  ex' <= ex ->
  shl_align mx ex ex' = (Z.to_pos (Zpos mx * 2 ^ (ex - ex')), ex') /\
  Zpos (fst (shl_align mx ex ex')) = Zpos mx * 2 ^ (ex - ex').
Proof.
  intros H. unfold shl_align.
  destruct (ex' - ex) as [|p|p] eqn:E; try lia.
  - assert (ex = ex') by lia. subst ex'. rewrite Z.sub_diag. simpl.
    rewrite Pos.mul_1_r. split; reflexivity.
  - assert (Hd : ex - ex' = Zpos p) by lia. rewrite Hd. simpl fst.
    rewrite iter_xO. split; [|reflexivity].
    f_equal. rewrite <- iter_xO. reflexivity.
Qed.

Lemma digits2_shift m k :
  0 <= k ->
  Zpos (digits2_pos (Z.to_pos (Zpos m * 2 ^ k))) = Zpos (digits2_pos m) + k.
Proof.
  intros Hk. pose proof (digits2_bounds m) as D.
  assert (0 < 2 ^ k) by (apply Z.pow_pos_nonneg; lia).
  apply digits2_unique. rewrite Z2Pos.id by nia.
  replace (Zpos (digits2_pos m) + k - 1) with (Zpos (digits2_pos m) - 1 + k) by lia.
  rewrite !Z.pow_add_r by lia. nia.
Qed.

Lemma binary_round_mono s m e mb eb :
  - bias <= e ->
  bounded prec emax mb eb = true ->
  let r := binary_round prec emax s m e in
  sign_is s r /\ valid r = true /\
  (zval (Zpos m) e <= zval (Zpos mb) eb -> mag_le r (zval (Zpos mb) eb)) /\
  (zval (Zpos mb) eb <= zval (Zpos m) e -> mag_ge r (zval (Zpos mb) eb)).
Proof.
  intros He Hb r. subst r. unfold binary_round.
  set (f := fexp prec emax (Zpos (digits2_pos m) + e)).
  destruct (Z.le_gt_cases e f) as [Hef|Hef].
  - (* nothing to align *)
    assert (E : shl_align m e f = (m, e)).
    { unfold shl_align. destruct (f - e) eqn:E; try lia; reflexivity. }
    rewrite E. apply binary_round_aux_mono; assumption.
  - destruct (shl_align_spec m e f ltac:(lia)) as [E _]. rewrite E.
    assert (Hf0 : -1074 <= f) by (subst f; rewrite fexp_eq; lia).
    assert (Hpk : 0 < 2 ^ (e - f)) by (apply Z.pow_pos_nonneg; lia).
    assert (Hv : zval (Zpos (Z.to_pos (Zpos m * 2 ^ (e - f)))) f = zval (Zpos m) e).
    { rewrite Z2Pos.id by nia. rewrite zval_shift by (unfold bias; lia).
      f_equal. lia. }
    rewrite <- Hv.
    apply binary_round_aux_mono; [unfold bias; lia | | assumption].
    rewrite digits2_shift by lia.
    replace (Zpos (digits2_pos m) + (e - f) + f) with (Zpos (digits2_pos m) + e) by lia.
    fold f. lia.
Qed.

(** A value of the format that the result of a rounding can be compared
    with, to know its sign and that it is well formed. *)
Lemma bounded_one : bounded prec emax 4503599627370496 (-52) = true.
Proof. reflexivity. Qed.

Lemma binary_round_valid s m e :
  - bias <= e ->
  sign_is s (binary_round prec emax s m e) /\
  valid (binary_round prec emax s m e) = true.
Proof.
  intros He.
  destruct (binary_round_mono s m e _ _ He bounded_one) as (H1 & H2 & _).
  split; assumption.
Qed.

(** ** From magnitudes to the comparison of [double]s *)

Lemma SFcompare_finite_pos m1 e1 m2 e2 :
  bounded prec emax m1 e1 = true -> bounded prec emax m2 e2 = true ->
  SFcompare (S754_finite false m1 e1) (S754_finite false m2 e2)
  = Some (zval (Zpos m1) e1 ?= zval (Zpos m2) e2).
Proof.
  intros B1 B2. unfold SFcompare.
  rewrite <- (canonical_compare _ _ _ _ B1 B2). reflexivity.
Qed.

Lemma SFcompare_finite_neg m1 e1 m2 e2 :
  bounded prec emax m1 e1 = true -> bounded prec emax m2 e2 = true ->
  SFcompare (S754_finite true m1 e1) (S754_finite true m2 e2)
  = Some (zval (Zpos m2) e2 ?= zval (Zpos m1) e1).
Proof.
  intros B1 B2. unfold SFcompare.
  rewrite (Z.compare_antisym (zval (Zpos m1) e1)).
  rewrite <- (canonical_compare _ _ _ _ B1 B2).
  destruct (e1 ?= e2); reflexivity.
Qed.

Lemma compare_le_cases a b : a <= b -> (a ?= b) = Lt \/ (a ?= b) = Eq.
Proof.
  intros H. destruct (Z.compare_spec a b); auto; lia.
Qed.

Lemma pos_result_le r ma ea :
  bounded prec emax ma ea = true ->
  sign_is false r -> mag_le r (zval (Zpos ma) ea) ->
  dle r (S754_finite false ma ea) = true.
Proof.
  intros Hb Hs Hm. unfold dle, SFleb.
  destruct r as [s|s| |s mr er]; simpl in Hs, Hm; try contradiction; subst s.
  - reflexivity.
  - destruct Hm as [Hbr Hle]. rewrite SFcompare_finite_pos by assumption.
    destruct (compare_le_cases _ _ Hle) as [-> | ->]; reflexivity.
Qed.

Lemma pos_result_ge r ma ea :
  bounded prec emax ma ea = true ->
  sign_is false r -> mag_ge r (zval (Zpos ma) ea) ->
  dle (S754_finite false ma ea) r = true.
Proof.
  intros Hb Hs Hm. unfold dle, SFleb.
  destruct r as [s|s| |s mr er]; simpl in Hs, Hm; try contradiction; subst s.
  - reflexivity.
  - destruct Hm as [Hbr Hle]. rewrite SFcompare_finite_pos by assumption.
    destruct (compare_le_cases _ _ Hle) as [-> | ->]; reflexivity.
Qed.

Lemma neg_result_le r ma ea :
  bounded prec emax ma ea = true ->
  sign_is true r -> mag_ge r (zval (Zpos ma) ea) ->
  dle r (S754_finite true ma ea) = true.
Proof.
  intros Hb Hs Hm. unfold dle, SFleb.
  destruct r as [s|s| |s mr er]; simpl in Hs, Hm; try contradiction; subst s.
  - reflexivity.
  - destruct Hm as [Hbr Hle]. rewrite SFcompare_finite_neg by assumption.
    destruct (compare_le_cases _ _ Hle) as [-> | ->]; reflexivity.
Qed.

Lemma neg_result_ge r ma ea :
  bounded prec emax ma ea = true ->
  sign_is true r -> mag_le r (zval (Zpos ma) ea) ->
  dle (S754_finite true ma ea) r = true.
Proof.
  intros Hb Hs Hm. unfold dle, SFleb.
  destruct r as [s|s| |s mr er]; simpl in Hs, Hm; try contradiction; subst s.
  - reflexivity.
  - destruct Hm as [Hbr Hle]. rewrite SFcompare_finite_neg by assumption.
    destruct (compare_le_cases _ _ Hle) as [-> | ->]; reflexivity.
Qed.

(** A result with the sign of a negative number is below every positive one,
    and the other way round. *)
Lemma neg_le_pos r ma ea :
  sign_is true r -> dle r (S754_finite false ma ea) = true.
Proof.
  destruct r as [s|s| |s mr er]; simpl; intros Hs; try contradiction;
    subst s; reflexivity.
Qed.

Lemma neg_le_nonneg ma ea r :
  sign_is false r -> dle (S754_finite true ma ea) r = true.
Proof.
  destruct r as [s|s| |s mr er]; simpl; intros Hs; try contradiction;
    subst s; reflexivity.
Qed.

(** ** Adding or subtracting a positive number *)

Lemma aligned_zval m e ez :
  -1074 <= ez -> ez <= e ->
  zval (Zpos (fst (shl_align m e ez))) ez = zval (Zpos m) e.
Proof.
  intros H1 H2. destruct (shl_align_spec m e ez H2) as [_ E]. rewrite E.
  rewrite zval_shift by (unfold bias; lia). f_equal. lia.
Qed.

Lemma zval_add a b e : zval (a + b) e = zval a e + zval b e.
Proof. unfold zval. ring. Qed.

Lemma zval_sub a b e : zval (a - b) e = zval a e - zval b e.
Proof. unfold zval. ring. Qed.

Lemma dsub_pos_le a mc ec :
  valid a = true -> is_nan a = false ->
  bounded prec emax mc ec = true ->
  dle (dsub a (S754_finite false mc ec)) a = true.
Proof.
  intros Ha Hnan Hc.
  destruct a as [s|s| |sa ma ea]; try discriminate.
  - destruct s; reflexivity.
  - destruct s; reflexivity.
  - unfold valid in Ha. simpl in Ha.
    assert (Hea : -1074 <= ea) by (apply bounded_iff in Ha; lia).
    assert (Hec : -1074 <= ec) by (apply bounded_iff in Hc; lia).
    unfold dsub, SFsub.
    set (ez := Z.min ea ec).
    assert (Hez : -1074 <= ez) by (subst ez; lia).
    pose proof (aligned_zval ma ea ez Hez ltac:(subst ez; lia)) as HA.
    pose proof (aligned_zval mc ec ez Hez ltac:(subst ez; lia)) as HT.
    set (A := Zpos (fst (shl_align ma ea ez))) in *.
    set (T := Zpos (fst (shl_align mc ec ez))) in *.
    assert (HApos : 0 < A) by (subst A; lia).
    assert (HTpos : 0 < T) by (subst T; lia).
    pose proof (zval_pos T ez HTpos ltac:(unfold bias; lia)) as HTv.
    clearbody A T.
    unfold binary_normalize. simpl (cond_Zopp false T).
    destruct (cond_Zopp sa A - T) as [|p|p] eqn:HM.
    + destruct sa; simpl in HM; [lia | reflexivity].
    + destruct sa; simpl in HM; [lia|].
      destruct (binary_round_mono false p ez ma ea ltac:(unfold bias; lia) Ha)
        as (Hs & _ & Hle & _).
      apply pos_result_le; [assumption..|].
      apply Hle. rewrite <- HM, zval_sub, HA. lia.
    + destruct (binary_round_mono true p ez ma ea ltac:(unfold bias; lia) Ha)
        as (Hs & _ & _ & Hge).
      destruct sa; simpl in HM.
      * apply neg_result_le; [assumption..|].
        apply Hge. replace (Zpos p) with (A + T) by lia.
        rewrite zval_add, HA. lia.
      * now apply neg_le_pos.
Qed.

Lemma dadd_pos_ge a mc ec :
  valid a = true -> is_nan a = false ->
  bounded prec emax mc ec = true ->
  dle a (dadd a (S754_finite false mc ec)) = true.
Proof.
  intros Ha Hnan Hc.
  destruct a as [s|s| |sa ma ea]; try discriminate.
  - destruct s; reflexivity.
  - destruct s; reflexivity.
  - unfold valid in Ha. simpl in Ha.
    assert (Hea : -1074 <= ea) by (apply bounded_iff in Ha; lia).
    assert (Hec : -1074 <= ec) by (apply bounded_iff in Hc; lia).
    unfold dadd, SFadd.
    set (ez := Z.min ea ec).
    assert (Hez : -1074 <= ez) by (subst ez; lia).
    pose proof (aligned_zval ma ea ez Hez ltac:(subst ez; lia)) as HA.
    pose proof (aligned_zval mc ec ez Hez ltac:(subst ez; lia)) as HT.
    set (A := Zpos (fst (shl_align ma ea ez))) in *.
    set (T := Zpos (fst (shl_align mc ec ez))) in *.
    assert (HApos : 0 < A) by (subst A; lia).
    assert (HTpos : 0 < T) by (subst T; lia).
    pose proof (zval_pos T ez HTpos ltac:(unfold bias; lia)) as HTv.
    clearbody A T.
    unfold binary_normalize. simpl (cond_Zopp false T).
    destruct (cond_Zopp sa A + T) as [|p|p] eqn:HM.
    + destruct sa; simpl in HM; [reflexivity | lia].
    + destruct (binary_round_mono false p ez ma ea ltac:(unfold bias; lia) Ha)
        as (Hs & _ & _ & Hge).
      destruct sa; simpl in HM.
      * now apply neg_le_nonneg.
      * apply pos_result_ge; [assumption..|].
        apply Hge. rewrite <- HM, zval_add, HA. lia.
    + destruct sa; simpl in HM; [|lia].
      destruct (binary_round_mono true p ez ma ea ltac:(unfold bias; lia) Ha)
        as (Hs & _ & Hle & _).
      apply neg_result_ge; [assumption..|].
      apply Hle. replace (Zpos p) with (A - T) by lia.
      rewrite zval_sub, HA. lia.
Qed.

(** ** Integers as [double]s *)

Lemma zval_int n : zval n 0 = n * 2 ^ bias.
Proof. reflexivity. Qed.

(** An integer below [2^53] is a value of the format. *)
Lemma int_representable n :
  Zpos n < 2 ^ 53 ->
  exists mb eb, bounded prec emax mb eb = true /\
                zval (Zpos mb) eb = zval (Zpos n) 0.
Proof.
  intros Hn. pose proof (digits2_bounds n) as D.
  set (d := Zpos (digits2_pos n)) in *.
  assert (Hd1 : 0 < d) by (subst d; lia).
  assert (Hd : d <= 53).
  { destruct (Z.le_gt_cases d 53) as [H|H]; [exact H|]. exfalso.
    assert (2 ^ 53 <= 2 ^ (d - 1)) by (apply Z.pow_le_mono_r; lia). lia. }
  assert (Hp : 0 < 2 ^ (53 - d)) by (apply Z.pow_pos_nonneg; lia).
  exists (Z.to_pos (Zpos n * 2 ^ (53 - d))), (d - 53). split.
  - apply bounded_iff. rewrite digits2_shift by lia. fold d. lia.
  - rewrite Z2Pos.id by nia. rewrite zval_shift by (unfold bias; lia).
    f_equal. lia.
Qed.

(** The conversion of such an integer is exact. *)
Lemma of_int_exact n :
  Zpos n < 2 ^ 53 ->
  exists m e, of_int (Zpos n) = S754_finite false m e /\
              bounded prec emax m e = true /\
              zval (Zpos m) e = zval (Zpos n) 0.
Proof.
  intros Hn. destruct (int_representable n Hn) as (mb & eb & Hb & Hv).
  unfold of_int, binary_normalize.
  destruct (binary_round_mono false n 0 mb eb ltac:(unfold bias; lia) Hb)
    as (Hs & _ & Hle & Hge).
  specialize (Hle ltac:(lia)). specialize (Hge ltac:(lia)).
  destruct (binary_round prec emax false n 0) as [s|s| |s m e];
    simpl in Hs, Hle, Hge; try contradiction.
  subst s. exists m, e. repeat split; try tauto. lia.
Qed.

Lemma of_int_zero : of_int 0 = S754_zero false.
Proof. reflexivity. Qed.

(** ** The product of a ratio in [0,1] and a count *)

Lemma digits2_mul m1 m2 :
  Zpos (digits2_pos m1) + Zpos (digits2_pos m2) - 1
  <= Zpos (digits2_pos (m1 * m2)).
Proof.
  pose proof (digits2_bounds m1) as D1.
  pose proof (digits2_bounds m2) as D2.
  pose proof (digits2_bounds (m1 * m2)) as D.
  set (d1 := Zpos (digits2_pos m1)) in *.
  set (d2 := Zpos (digits2_pos m2)) in *.
  set (d := Zpos (digits2_pos (m1 * m2))) in *.
  assert (0 < d1) by (subst d1; lia). assert (0 < d2) by (subst d2; lia).
  assert (0 < d) by (subst d; lia).
  assert (H2 : 2 ^ (d1 - 1 + (d2 - 1)) < 2 ^ d).
  { rewrite Z.pow_add_r by lia. rewrite Pos2Z.inj_mul in D.
    assert (0 < 2 ^ (d1 - 1)) by (apply Z.pow_pos_nonneg; lia).
    assert (0 < 2 ^ (d2 - 1)) by (apply Z.pow_pos_nonneg; lia). nia. }
  apply Z.pow_lt_mono_r_iff in H2; lia.
Qed.

Lemma mul_exponent_ok m1 e1 m2 e2 :
  bounded prec emax m1 e1 = true -> bounded prec emax m2 e2 = true ->
  e1 + e2 <= fexp prec emax (Zpos (digits2_pos (m1 * m2)) + (e1 + e2)).
Proof.
  rewrite !bounded_iff, fexp_eq. intros [H1 _] [H2 _].
  pose proof (digits2_mul m1 m2).
  assert (0 < Zpos (digits2_pos m1)) by lia.
  assert (0 < Zpos (digits2_pos m2)) by lia.
  lia.
Qed.

Lemma zval_one : zval 4503599627370496 (-52) = 2 ^ bias.
Proof. reflexivity. Qed.

Lemma zval_mul m1 e1 m2 e2 :
  - 1074 <= e1 -> -1074 <= e2 ->
  zval (m1 * m2) (e1 + e2) * 2 ^ bias = zval m1 e1 * zval m2 e2.
Proof.
  intros H1 H2. unfold zval, bias.
  assert (E1 : 2 ^ (e1 + e2 + 2200) * 2 ^ 2200 = 2 ^ (e1 + e2 + 4400)).
  { rewrite <- Z.pow_add_r by lia. f_equal. lia. }
  assert (E2 : 2 ^ (e1 + 2200) * 2 ^ (e2 + 2200) = 2 ^ (e1 + e2 + 4400)).
  { rewrite <- Z.pow_add_r by lia. f_equal. lia. }
  replace (m1 * m2 * 2 ^ (e1 + e2 + 2200) * 2 ^ 2200)
    with (m1 * m2 * (2 ^ (e1 + e2 + 2200) * 2 ^ 2200)) by ring.
  replace (m1 * 2 ^ (e1 + 2200) * (m2 * 2 ^ (e2 + 2200)))
    with (m1 * m2 * (2 ^ (e1 + 2200) * 2 ^ (e2 + 2200))) by ring.
  rewrite E1, E2. reflexivity.
Qed.

Lemma dmul_le_right mr er mN eN :
  bounded prec emax mr er = true -> bounded prec emax mN eN = true ->
  dle (S754_finite false mr er) lit_1_0 = true ->
  let x := dmul (S754_finite false mr er) (S754_finite false mN eN) in
  valid x = true /\ dle lit_0_0 x = true /\
  dle x (S754_finite false mN eN) = true.
Proof.
  intros Hr HN Hle1 x. subst x. unfold dmul, SFmul. simpl xorb.
  assert (Her : -1074 <= er) by (apply bounded_iff in Hr; lia).
  assert (HeN : -1074 <= eN) by (apply bounded_iff in HN; lia).
  destruct (binary_round_aux_mono false (mr * mN) (er + eN) mN eN
              ltac:(unfold bias; lia) (mul_exponent_ok _ _ _ _ Hr HN) HN)
    as (Hs & Hv & Hle & _).
  split; [exact Hv|]. split.
  - revert Hs. clear.
    destruct (binary_round_aux prec emax false (Zpos (mr * mN)) (er + eN) loc_Exact)
      as [s|s| |s m e]; simpl; intros Hs; try contradiction; subst s; reflexivity.
  - apply pos_result_le; [assumption..|]. apply Hle.
    unfold dle, lit_1_0, SFleb in Hle1.
    rewrite SFcompare_finite_pos in Hle1 by (assumption || reflexivity).
    change (Zpos 4503599627370496) with 4503599627370496 in Hle1.
    rewrite zval_one in Hle1.
    assert (Hr1 : zval (Zpos mr) er <= 2 ^ bias).
    { destruct (Z.compare_spec (zval (Zpos mr) er) (2 ^ bias));
        try discriminate; lia. }
    pose proof (zval_mul (Zpos mr) er (Zpos mN) eN Her HeN) as Hm.
    rewrite Pos2Z.inj_mul.
    pose proof (zval_pos (Zpos mN) eN ltac:(lia) ltac:(unfold bias; lia)) as HNpos.
    assert (Hb : 0 < 2 ^ bias) by (apply Z.pow_pos_nonneg; unfold bias; lia).
    nia.
Qed.

(** [chkpts_ratio * N] for a ratio between zero and one and a count [N] that
    fits [int]: a well-formed value between zero and [N]. *)
Lemma ratio_times_count ratio N :
  valid ratio = true ->
  dge ratio lit_0_0 = true -> dle ratio lit_1_0 = true ->
  0 <= N <= INT_MAX ->
  let x := dmul ratio (of_int N) in
  valid x = true /\ dle lit_0_0 x = true /\ dle x (of_int N) = true.
Proof.
  intros Hv H0 H1 HN x. subst x.
  destruct N as [|n|n]; [| |lia].
  - rewrite of_int_zero.
    destruct ratio as [s|s| |s m e]; try discriminate.
    + destruct s; repeat split; reflexivity.
    + destruct s; discriminate.
    + destruct s; [discriminate|]. repeat split; reflexivity.
  - destruct (of_int_exact n) as (mN & eN & -> & HbN & _).
    { unfold INT_MAX in HN. change (2 ^ 53) with 9007199254740992. lia. }
    destruct ratio as [s|s| |s m e]; try discriminate.
    + destruct s; repeat split; reflexivity.
    + destruct s; discriminate.
    + destruct s; [discriminate|].
      apply dmul_le_right; assumption.
Qed.

(** ** [cvtsd2si] keeps a value between zero and an [int] in that range *)

Lemma nearest_even_le m e n :
  0 < m -> - bias <= e -> 0 <= n ->
  zval m e <= zval n 0 ->
  0 <= nearest_even m e <= n.
Proof.
  intros Hm He Hn Hle. unfold nearest_even.
  rewrite zval_int in Hle. unfold zval in Hle.
  destruct (Z.leb_spec 0 e) as [H0|H0].
  - assert (Hp : 0 < 2 ^ e) by (apply Z.pow_pos_nonneg; lia).
    replace (e + bias) with (e + bias) in Hle by lia.
    rewrite Z.pow_add_r in Hle by (unfold bias; lia).
    assert (Hb : 0 < 2 ^ bias) by (apply Z.pow_pos_nonneg; unfold bias; lia).
    split; [nia|]. nia.
  - set (d := 2 ^ (- e)).
    assert (Hd : 0 < d) by (apply Z.pow_pos_nonneg; lia).
    assert (Hsplit : 2 ^ bias = 2 ^ (e + bias) * d).
    { subst d. rewrite <- Z.pow_add_r by (unfold bias in *; lia). f_equal. lia. }
    assert (Hq : 0 < 2 ^ (e + bias)) by (apply Z.pow_pos_nonneg; lia).
    rewrite Hsplit in Hle.
    assert (Hmn : m <= n * d) by nia.
    pose proof (Z.div_mod m d ltac:(lia)) as Hdm.
    pose proof (Z.mod_pos_bound m d Hd) as Hrem.
    assert (0 <= m / d) by (apply Z.div_pos; lia).
    assert (m / d <= n) by nia.
    destruct (Z.compare_spec (2 * (m mod d)) d) as [E|E|E].
    + assert (m / d < n) by nia.
      destruct (Z.even (m / d)); lia.
    + lia.
    + assert (m / d < n) by nia. lia.
Qed.

Lemma cvtsd2si_contract : round_contract cvtsd2si.
Proof.
  intros x n Hv Hn H0 Hle.
  destruct x as [s|s| |s m e].
  - simpl. lia.
  - exfalso. destruct s; [discriminate|].
    destruct n as [|p|p]; [discriminate| |lia].
    destruct (of_int_exact p) as (mN & eN & E & _).
    { unfold INT_MAX in Hn. change (2 ^ 53) with 9007199254740992. lia. }
    rewrite E in Hle. discriminate.
  - discriminate.
  - destruct s; [discriminate|].
    destruct n as [|p|p]; [discriminate| |lia].
    destruct (of_int_exact p) as (mN & eN & E & HbN & HvN).
    { unfold INT_MAX in Hn. change (2 ^ 53) with 9007199254740992. lia. }
    rewrite E in Hle. unfold dle, SFleb in Hle.
    unfold valid in Hv. simpl in Hv.
    rewrite SFcompare_finite_pos in Hle by assumption.
    rewrite HvN in Hle.
    assert (Hz : zval (Zpos m) e <= zval (Zpos p) 0).
    { destruct (Z.compare_spec (zval (Zpos m) e) (zval (Zpos p) 0));
        try discriminate; lia. }
    assert (He : -1074 <= e) by (apply bounded_iff in Hv; lia).
    pose proof (nearest_even_le (Zpos m) e (Zpos p) ltac:(lia)
                  ltac:(unfold bias; lia) ltac:(lia) Hz) as Hne.
    unfold cvtsd2si. simpl cond_Zopp.
    unfold INT_MAX, INT_MIN in *.
    destruct (Z.leb_spec (-2147483648) (nearest_even (Zpos m) e));
      destruct (Z.leb_spec (nearest_even (Zpos m) e) 2147483647);
      simpl; lia.
Qed.

(** ** The order of [double]s

    [<] and [<=] are a total preorder on the values that are not NaN, for
    every mantissa and exponent. *)

Ltac compare_cases :=
  repeat match goal with
  | H : context [Z.compare ?a ?b] |- _ => destruct (Z.compare_spec a b)
  | |- context [Z.compare ?a ?b] => destruct (Z.compare_spec a b)
  | H : context [Pos.compare_cont Eq ?a ?b] |- _ =>
    change (Pos.compare_cont Eq a b) with (Pos.compare a b) in H;
    destruct (Pos.compare_spec a b)
  | |- context [Pos.compare_cont Eq ?a ?b] =>
    change (Pos.compare_cont Eq a b) with (Pos.compare a b);
    destruct (Pos.compare_spec a b)
  end.

Ltac float_order :=
  unfold dle, dlt, dgt, dge, deq, SFleb, SFltb, SFeqb, SFcompare, is_nan in *;
  repeat match goal with
  | x : double |- _ => destruct x as [[|]|[|]| |[|] ? ?]
  | x : spec_float |- _ => destruct x as [[|]|[|]| |[|] ? ?]
  end;
  try discriminate; try reflexivity;
  compare_cases; simpl in *; try discriminate; try reflexivity; try lia.

Lemma dle_refl a : is_nan a = false -> dle a a = true.
Proof. intros. float_order. Qed.

Lemma dle_trans a b c : dle a b = true -> dle b c = true -> dle a c = true.
Proof. intros. float_order. Qed.

Lemma dlt_dle a b : dlt a b = true -> dle a b = true.
Proof. intros. float_order. Qed.

Lemma dle_dlt_trans a b c : dle a b = true -> dlt b c = true -> dlt a c = true.
Proof. intros. float_order. Qed.

Lemma dlt_dle_trans a b c : dlt a b = true -> dle b c = true -> dlt a c = true.
Proof. intros. float_order. Qed.

Lemma not_dlt_dle a b :
  is_nan a = false -> is_nan b = false -> dlt a b = false -> dle b a = true.
Proof. intros. float_order. Qed.

Lemma dle_not_dlt a b : dle a b = true -> dlt b a = false.
Proof. intros. float_order. Qed.

Lemma dlt_not_nan a b : dlt a b = true -> is_nan a = false /\ is_nan b = false.
Proof. intros. split; float_order. Qed.

Lemma dle_not_nan a b : dle a b = true -> is_nan a = false /\ is_nan b = false.
Proof. intros. split; float_order. Qed.

Lemma dle_antisym a b : dle a b = true -> dle b a = true -> deq a b = true.
Proof. intros. float_order. Qed.

Lemma deq_dle a b : deq a b = true -> dle a b = true /\ dle b a = true.
Proof. intros. split; float_order. Qed.

Lemma dabs_not_nan a : is_nan (dabs a) = is_nan a.
Proof. destruct a; reflexivity. Qed.

(** ** Computations *)

Lemma bind_ret_l {A B} (a : A) (f : A -> M B) : bind (ret a) f = f a.
Proof. unfold bind, ret. destruct (f a). reflexivity. Qed.

Lemma bind_ok {A B} (m : M A) (f : A -> M B) t a :
  m = (t, Ok a) -> bind m f = (t ++ fst (f a), snd (f a)).
Proof. intros ->. unfold bind. destruct (f a). reflexivity. Qed.

Lemma bind_exception {A B} (m : M A) (f : A -> M B) t :
  m = (t, Exception) -> bind m f = (t, Exception).
Proof. intros ->. reflexivity. Qed.

Lemma bind_undefined {A B} (m : M A) (f : A -> M B) t :
  m = (t, Undefined) -> bind m f = (t, Undefined).
Proof. intros ->. reflexivity. Qed.

(** The ways a sequence of two computations can end. *)
Lemma bind_inv {A B} (m : M A) (f : A -> M B) t r :
  bind m f = (t, r) ->
  (exists t1 a t2, m = (t1, Ok a) /\ f a = (t2, r) /\ t = t1 ++ t2) \/
  (m = (t, Exception) /\ r = Exception) \/
  (m = (t, Undefined) /\ r = Undefined).
Proof.
  destruct m as [t1 [a| |]]; simpl.
  - destruct (f a) as [t2 r2] eqn:E. intros H. inversion H; subst.
    left. exists t1, a, t2. auto.
  - intros H. inversion H; subst. auto.
  - intros H. inversion H; subst. auto.
Qed.

Lemma bind_ok_inv {A B} (m : M A) (f : A -> M B) t b :
  bind m f = (t, Ok b) ->
  exists t1 a t2, m = (t1, Ok a) /\ f a = (t2, Ok b) /\ t = t1 ++ t2.
Proof.
  intros H. apply bind_inv in H.
  destruct H as [H|[[_ H]|[_ H]]]; [exact H|discriminate..].
Qed.

Lemma vec_at_Some {A} (v : list A) k a :
  nth_error v k = Some a -> vec_at v k = ret a.
Proof. unfold vec_at. now intros ->. Qed.

Lemma vec_at_ok_inv {A} (v : list A) k t a :
  vec_at v k = (t, Ok a) -> nth_error v k = Some a /\ t = [].
Proof.
  unfold vec_at. destruct (nth_error v k); intros H; inversion H; auto.
Qed.

Lemma coeff_Some m i j r x :
  nth_error (mat_rows m) i = Some r -> nth_error r j = Some x ->
  coeff m i j = ret x.
Proof. unfold coeff. intros -> H. now apply vec_at_Some. Qed.

Lemma coeff_ok_inv m i j t x :
  coeff m i j = (t, Ok x) ->
  exists r, nth_error (mat_rows m) i = Some r /\ nth_error r j = Some x /\ t = [].
Proof.
  unfold coeff. destruct (nth_error (mat_rows m) i) as [r|]; [|discriminate].
  intros H. apply vec_at_ok_inv in H. exists r. tauto.
Qed.

(** A loop over the rows of a list whose body is a pure step. *)
Lemma for_each_fold {R S} (pre rest : list R) (body : nat -> S -> M S)
      (g : S -> R -> S) (s : S) :
  (forall i r s, nth_error (pre ++ rest) i = Some r -> body i s = ret (g s r)) ->
  for_each (seq (length pre) (length rest)) body s = ret (fold_left g rest s).
Proof.
  revert pre s. induction rest as [|r rest IH]; intros pre s Hbody.
  - reflexivity.
  - simpl. rewrite (Hbody (length pre) r s).
    + rewrite bind_ret_l.
      specialize (IH (pre ++ [r]) (g s r)).
      rewrite length_app, Nat.add_1_r in IH. apply IH.
      intros i r' s'. rewrite <- app_assoc. apply Hbody.
    + rewrite nth_error_app2, Nat.sub_diag by lia. reflexivity.
Qed.

Lemma for_loop_fold {R S} (l : list R) (body : nat -> S -> M S)
      (g : S -> R -> S) (s : S) :
  (forall i r s, nth_error l i = Some r -> body i s = ret (g s r)) ->
  for_loop (length l) body s = ret (fold_left g l s).
Proof. intros H. apply (for_each_fold [] l). exact H. Qed.

(** The events of a loop satisfy what the events of each turn satisfy. *)
Lemma for_each_trace_Forall {S} (P : Event -> Prop) ks (body : nat -> S -> M S) s :
  (forall k s, Forall P (fst (body k s))) ->
  Forall P (fst (for_each ks body s)).
Proof.
  intros Hbody. revert s. induction ks as [|k ks IH]; intros s; simpl.
  - constructor.
  - specialize (Hbody k s). destruct (body k s) as [t [s'| |]]; simpl in *; trivial.
    specialize (IH s'). destruct (for_each ks body s') as [t' r]. simpl in *.
    apply Forall_app. split; assumption.
Qed.

Lemma bind_trace_Forall {A B} (P : Event -> Prop) (m : M A) (f : A -> M B) :
  Forall P (fst m) -> (forall a, Forall P (fst (f a))) ->
  Forall P (fst (bind m f)).
Proof.
  intros Hm Hf. destruct m as [t [a| |]]; simpl in *; trivial.
  specialize (Hf a). destruct (f a). simpl in *. apply Forall_app. auto.
Qed.

(** ** Running extremes *)

Lemma keep_max_fold xs m0 :
  is_nan m0 = false ->
  let m := fold_left keep_max xs m0 in
  is_nan m = false /\ dle m0 m = true /\
  (forall x, In x xs -> is_nan x = false -> dle x m = true) /\
  (m = m0 \/ In m xs).
Proof.
  revert m0. induction xs as [|x xs IH]; intros m0 Hm0; simpl.
  - repeat split; auto using dle_refl; try (intros x []); try contradiction.
  - change (keep_max m0 x) with (if dlt m0 x then x else m0).
    destruct (dlt m0 x) eqn:Hlt.
    + destruct (dlt_not_nan _ _ Hlt) as [_ Hx].
      destruct (IH x Hx) as (H1 & H2 & H3 & H4).
      split; [exact H1|]. split; [|split].
      * eapply dle_trans; [apply dlt_dle, Hlt | exact H2].
      * intros y [<-|Hy] Hny; [exact H2 | now apply H3].
      * right. destruct H4 as [->|H4]; auto.
    + destruct (IH m0 Hm0) as (H1 & H2 & H3 & H4).
      split; [exact H1|]. split; [exact H2|]. split.
      * intros y [<-|Hy] Hny; [|now apply H3].
        eapply dle_trans; [|exact H2]. now apply not_dlt_dle.
      * destruct H4 as [->|H4]; auto.
Qed.

Lemma keep_min_fold xs m0 :
  is_nan m0 = false ->
  let m := fold_left keep_min xs m0 in
  is_nan m = false /\ dle m m0 = true /\
  (forall x, In x xs -> is_nan x = false -> dle m x = true) /\
  (m = m0 \/ In m xs).
Proof.
  revert m0. induction xs as [|x xs IH]; intros m0 Hm0; simpl.
  - repeat split; auto using dle_refl; try (intros x []); try contradiction.
  - change (keep_min m0 x) with (if dlt x m0 then x else m0).
    destruct (dlt x m0) eqn:Hlt.
    + destruct (dlt_not_nan _ _ Hlt) as [Hx _].
      destruct (IH x Hx) as (H1 & H2 & H3 & H4).
      split; [exact H1|]. split; [|split].
      * eapply dle_trans; [exact H2 | apply dlt_dle, Hlt].
      * intros y [<-|Hy] Hny; [exact H2 | now apply H3].
      * right. destruct H4 as [->|H4]; auto.
    + destruct (IH m0 Hm0) as (H1 & H2 & H3 & H4).
      split; [exact H1|]. split; [exact H2|]. split.
      * intros y [<-|Hy] Hny; [|now apply H3].
        eapply dle_trans; [exact H2|]. now apply not_dlt_dle.
      * destruct H4 as [->|H4]; auto.
Qed.

(** ** The scan of stage 2 *)

Lemma nth_error_nth' {A} (l : list A) n d :
  (n < length l)%nat -> nth_error l n = Some (nth n l d).
Proof. intros H. now apply nth_error_nth'. Qed.

Lemma bbox_scan_fold raw :
  wf_matrix raw -> (3 <= cols raw)%nat ->
  bbox_scan raw = ret (fold_left bbox_add_row (mat_rows raw) bbox_init).
Proof.
  intros Hwf Hc. unfold bbox_scan, rows. apply for_loop_fold.
  intros i r s Hr.
  assert (Hlen : length r = mat_cols raw).
  { unfold wf_matrix in Hwf. rewrite Forall_forall in Hwf.
    apply (Hwf r). eapply nth_error_In, Hr. }
  unfold cols in Hc.
  rewrite (coeff_Some raw i 0 r (px r) Hr) by (apply nth_error_nth'; lia).
  rewrite bind_ret_l.
  rewrite (coeff_Some raw i 1 r (py r) Hr) by (apply nth_error_nth'; lia).
  rewrite bind_ret_l.
  rewrite (coeff_Some raw i 2 r (pz r) Hr) by (apply nth_error_nth'; lia).
  rewrite bind_ret_l. reflexivity.
Qed.

Lemma bbox_add_point_x b x y z :
  minx (bbox_add_point b x y z) = keep_min (minx b) x /\
  maxx (bbox_add_point b x y z) = keep_max (maxx b) x.
Proof. unfold bbox_add_point. destruct (dlt (dabs z) lit_1e6); auto. Qed.

Lemma bbox_add_point_y b x y z :
  miny (bbox_add_point b x y z) = keep_min (miny b) y /\
  maxy (bbox_add_point b x y z) = keep_max (maxy b) y.
Proof. unfold bbox_add_point. destruct (dlt (dabs z) lit_1e6); auto. Qed.

Lemma bbox_add_point_z b x y z :
  minz (bbox_add_point b x y z)
  = (if z_kept z then keep_min (minz b) z else minz b) /\
  maxz (bbox_add_point b x y z)
  = (if z_kept z then keep_max (maxz b) z else maxz b).
Proof.
  unfold bbox_add_point, z_kept. destruct (dlt (dabs z) lit_1e6); auto.
Qed.

(** The scan gives, on each axis, the running extremes of the coordinates;
    on the z axis, of the heights it keeps. *)
Lemma bbox_fold_fields l b :
  let b' := fold_left bbox_add_row l b in
  minx b' = fold_left keep_min (map px l) (minx b) /\
  maxx b' = fold_left keep_max (map px l) (maxx b) /\
  miny b' = fold_left keep_min (map py l) (miny b) /\
  maxy b' = fold_left keep_max (map py l) (maxy b) /\
  minz b' = fold_left keep_min (filter z_kept (map pz l)) (minz b) /\
  maxz b' = fold_left keep_max (filter z_kept (map pz l)) (maxz b).
Proof.
  revert b. induction l as [|r l IH]; intros b; simpl.
  - repeat split.
  - specialize (IH (bbox_add_row b r)). cbv zeta in IH.
    destruct IH as (H1 & H2 & H3 & H4 & H5 & H6).
    unfold bbox_add_row in *.
    destruct (bbox_add_point_x b (px r) (py r) (pz r)) as [X1 X2].
    destruct (bbox_add_point_y b (px r) (py r) (pz r)) as [Y1 Y2].
    destruct (bbox_add_point_z b (px r) (py r) (pz r)) as [Z1 Z2].
    rewrite H1, H2, H3, H4, H5, H6, X1, X2, Y1, Y2, Z1, Z2.
    destruct (z_kept (pz r)); repeat split.
Qed.

Lemma z_kept_not_nan z : z_kept z = true -> is_nan z = false.
Proof.
  unfold z_kept. intros H. apply dlt_not_nan in H.
  rewrite dabs_not_nan in H. tauto.
Qed.

(** ** The margin *)

Lemma bounded_BORDER : bounded prec emax 5629499534213120 (-49) = true.
Proof. reflexivity. Qed.

Lemma sub_BORDER_le a :
  valid a = true -> is_nan a = false -> dle (dsub a BORDER) a = true.
Proof. intros. apply dsub_pos_le; auto using bounded_BORDER. Qed.

Lemma add_BORDER_ge a :
  valid a = true -> is_nan a = false -> dle a (dadd a BORDER) = true.
Proof. intros. apply dadd_pos_ge; auto using bounded_BORDER. Qed.

Lemma wf_matrix_valid raw r :
  wf_matrix raw -> In r (mat_rows raw) -> Forall (fun x => valid x = true) r.
Proof.
  unfold wf_matrix. rewrite Forall_forall. intros H Hr. apply (H r Hr).
Qed.

Lemma nth_valid r k :
  Forall (fun x => valid x = true) r -> valid (nth k r lit_0_0) = true.
Proof.
  intros H. destruct (Nat.lt_ge_cases k (length r)) as [Hk|Hk].
  - rewrite Forall_forall in H. apply H. now apply nth_In.
  - now rewrite nth_overflow.
Qed.

Section BoundingBox.

Variable raw_xyz : CMatrix.
Hypothesis Hwf : wf_matrix raw_xyz.
Hypothesis Hcols : (3 <= cols raw_xyz)%nat.

Let points := mat_rows raw_xyz.
Let zs := filter z_kept (map pz points).

Lemma coord_valid (k : nat) r : In r points -> valid (nth k r lit_0_0) = true.
Proof. intros Hr. apply nth_valid. eapply wf_matrix_valid; eauto. Qed.

Lemma extreme_valid (k : nat) m m0 :
  valid m0 = true ->
  m = m0 \/ In m (map (fun r => nth k r lit_0_0) points) -> valid m = true.
Proof.
  intros H0 [->|Hin]; [exact H0|].
  apply in_map_iff in Hin. destruct Hin as (r & <- & Hr).
  now apply coord_valid.
Qed.

(** The box after the scan and the margin holds every coordinate that is a
    number. *)
Lemma expanded_bounds (k : nat) :
  let xs := map (fun r => nth k r lit_0_0) points in
  forall r, In r points -> is_nan (nth k r lit_0_0) = false ->
    dle (dsub (fold_left keep_min xs DBL_MAX) BORDER) (nth k r lit_0_0) = true /\
    dle (nth k r lit_0_0) (dadd (fold_left keep_max xs (dneg DBL_MAX)) BORDER) = true.
Proof.
  intros xs r Hr Hnan.
  destruct (keep_min_fold xs DBL_MAX eq_refl) as (N1 & _ & L1 & A1).
  destruct (keep_max_fold xs (dneg DBL_MAX) eq_refl) as (N2 & _ & L2 & A2).
  cbv zeta in *.
  assert (Hin : In (nth k r lit_0_0) (map (fun r => nth k r lit_0_0) points))
    by (apply (in_map (fun r => nth k r lit_0_0)); exact Hr).
  split.
  - eapply dle_trans; [|apply L1; assumption].
    apply sub_BORDER_le; [|exact N1].
    apply (extreme_valid k _ DBL_MAX eq_refl A1).
  - eapply dle_trans; [apply L2; assumption|].
    apply add_BORDER_ge; [|exact N2].
    apply (extreme_valid k _ (dneg DBL_MAX) eq_refl A2).
Qed.

Lemma expanded_z_bounds :
  forall z, In z zs ->
    dle (dsub (fold_left keep_min zs DBL_MAX) BORDER) z = true /\
    dle z (dadd (fold_left keep_max zs (dneg DBL_MAX)) BORDER) = true.
Proof.
  intros z Hz.
  destruct (keep_min_fold zs DBL_MAX eq_refl) as (N1 & _ & L1 & A1).
  destruct (keep_max_fold zs (dneg DBL_MAX) eq_refl) as (N2 & _ & L2 & A2).
  cbv zeta in *.
  assert (Hnan : is_nan z = false).
  { apply filter_In in Hz. now apply z_kept_not_nan. }
  assert (Hv : forall m m0, valid m0 = true -> m = m0 \/ In m zs -> valid m = true).
  { intros m m0 H0 [->|Hin]; [exact H0|].
    apply filter_In in Hin. destruct Hin as [Hin _].
    apply in_map_iff in Hin. destruct Hin as (r & <- & Hr).
    now apply (coord_valid 2). }
  split.
  - eapply dle_trans; [|apply L1; assumption].
    apply sub_BORDER_le; [|exact N1]. apply (Hv _ DBL_MAX eq_refl A1).
  - eapply dle_trans; [apply L2; assumption|].
    apply add_BORDER_ge; [|exact N2]. apply (Hv _ (dneg DBL_MAX) eq_refl A2).
Qed.

(** C3 (as amended): on a table of at least three columns the scan ends
    without error; the box it yields holds the x and y of every point whose
    x, respectively y, is a number (not NaN); its z bounds are the least and
    the greatest of the heights with [|z| < 1e6] alone, starting from
    [DBL_MAX] and [-DBL_MAX], and hold every such height; and each of the
    six bounds is the extreme found by the scan moved outward by
    [BORDER = 10.0]. *)
Theorem bounding_box_after_margin :
  exists bb, determine_bounding_box raw_xyz = ([], Ok bb) /\
    (forall r, In r points ->
       (is_nan (px r) = false ->
        dle (minx bb) (px r) = true /\ dle (px r) (maxx bb) = true) /\
       (is_nan (py r) = false ->
        dle (miny bb) (py r) = true /\ dle (py r) (maxy bb) = true) /\
       (z_kept (pz r) = true ->
        dle (minz bb) (pz r) = true /\ dle (pz r) (maxz bb) = true)) /\
    minx bb = dsub (fold_left keep_min (map px points) DBL_MAX) BORDER /\
    maxx bb = dadd (fold_left keep_max (map px points) (dneg DBL_MAX)) BORDER /\
    miny bb = dsub (fold_left keep_min (map py points) DBL_MAX) BORDER /\
    maxy bb = dadd (fold_left keep_max (map py points) (dneg DBL_MAX)) BORDER /\
    minz bb = dsub (fold_left keep_min zs DBL_MAX) BORDER /\
    maxz bb = dadd (fold_left keep_max zs (dneg DBL_MAX)) BORDER.
Proof.
  unfold determine_bounding_box.
  rewrite (bbox_scan_fold raw_xyz Hwf Hcols), bind_ret_l.
  eexists. split; [reflexivity|].
  destruct (bbox_fold_fields (mat_rows raw_xyz) bbox_init)
    as (H1 & H2 & H3 & H4 & H5 & H6).
  cbv zeta in *. simpl bbox_init in *.
  unfold bbox_expand. cbn [minx maxx miny maxy minz maxz].
  rewrite H1, H2, H3, H4, H5, H6. fold points. fold zs.
  split; [|repeat split].
  intros r Hr. split; [|split].
  - apply (expanded_bounds 0 r Hr).
  - apply (expanded_bounds 1 r Hr).
  - intros Hk. apply expanded_z_bounds.
    subst zs. apply filter_In. split; [|exact Hk]. apply (in_map pz), Hr.
Qed.

End BoundingBox.

Lemma sample_xyz_wf : wf_matrix sample_xyz.
Proof. repeat constructor. Qed.

Lemma bounding_box_after_margin_witness :
  exists bb, determine_bounding_box sample_xyz = ([], Ok bb) /\
    dle (minx bb) (of_int 4) = true /\ dle (of_int 4) (maxx bb) = true /\
    minz bb = dsub (of_int 1) BORDER /\ maxz bb = dadd (of_int 5) BORDER.
Proof.
  destruct (bounding_box_after_margin sample_xyz sample_xyz_wf ltac:(simpl; lia))
    as (bb & Hrun & Hpts & _ & _ & _ & _ & Hz1 & Hz2).
  exists bb. split; [exact Hrun|].
  destruct (Hpts [of_int 4; of_int 0; of_int 2] ltac:(simpl; auto)) as (Hx & _ & _).
  destruct (Hx eq_refl) as [Hx1 Hx2].
  repeat split; assumption.
Defined.

(** C3 as stated fails on a point whose x is NaN: the scan leaves the x
    bounds at their initial extremes, and no bound compares with NaN. *)
Lemma bounding_box_nan_counterexample :
  wf_matrix nan_xyz /\
  exists bb, determine_bounding_box nan_xyz = ([], Ok bb) /\
    In [S754_nan; of_int 0; of_int 0] (mat_rows nan_xyz) /\
    dle (minx bb) S754_nan = false /\ dle S754_nan (maxx bb) = false.
Proof.
  split; [repeat constructor|].
  eexists. split; [vm_compute; reflexivity|].
  split; [left; reflexivity|]. split; reflexivity.
Qed.

(** ** Vectors updated in place *)

Lemma set_nth_length {A} (v : list A) k x : length (set_nth v k x) = length v.
Proof.
  revert k. induction v as [|a v IH]; intros [|k]; simpl; auto.
Qed.

Lemma nth_error_set_nth_eq {A} (v : list A) k x :
  (k < length v)%nat -> nth_error (set_nth v k x) k = Some x.
Proof.
  revert k. induction v as [|a v IH]; intros [|k] H; simpl in *; try lia; auto.
  apply IH. lia.
Qed.

Lemma nth_error_set_nth_neq {A} (v : list A) k j x :
  k <> j -> nth_error (set_nth v k x) j = nth_error v j.
Proof.
  revert k j. induction v as [|a v IH]; intros [|k] [|j] H; simpl; auto.
  congruence.
Qed.

(** Writing [x] over the element [a] exchanges one for the other. *)
Lemma set_nth_Permutation {A} (v : list A) k a x :
  nth_error v k = Some a -> Permutation (x :: v) (a :: set_nth v k x).
Proof.
  revert k. induction v as [|b v IH]; intros [|k] H; simpl in *; try discriminate.
  - inversion H; subst. apply perm_swap.
  - eapply perm_trans; [apply perm_swap|].
    eapply perm_trans; [apply perm_skip, (IH k H)|]. apply perm_swap.
Qed.

Lemma iter_swap_Permutation {A} (v : list A) i j :
  Permutation (iter_swap v i j) v.
Proof.
  unfold iter_swap.
  destruct (nth_error v i) as [a|] eqn:Hi; [|reflexivity].
  destruct (nth_error v j) as [b|] eqn:Hj; [|reflexivity].
  assert (Hli : (i < length v)%nat) by (apply nth_error_Some; congruence).
  assert (Hj' : nth_error (set_nth v i b) j = Some b).
  { destruct (Nat.eq_dec i j) as [->|Hne].
    - now apply nth_error_set_nth_eq.
    - now rewrite nth_error_set_nth_neq. }
  pose proof (set_nth_Permutation v i a b Hi) as P1.
  pose proof (set_nth_Permutation (set_nth v i b) j b a Hj') as P2.
  symmetry. apply Permutation_cons_inv with (a := b).
  eapply perm_trans; [exact P1 | exact P2].
Qed.

Lemma random_shuffle_Permutation {A} (rand : nat -> nat) (v : list A) :
  Permutation (random_shuffle rand v) v.
Proof.
  unfold random_shuffle. generalize (seq 1 (length v - 1)) as steps.
  intros steps. revert v. induction steps as [|i steps IH]; intros v; simpl.
  - reflexivity.
  - eapply perm_trans; [apply IH|].
    unfold random_shuffle_step.
    destruct (i =? rand (i - 1)%nat mod (i + 1))%nat; [reflexivity|].
    apply iter_swap_Permutation.
Qed.

(** ** The identity sequence *)

Lemma linspace_fill_seq n c :
  0 <= c -> c + Z.of_nat n <= SIZE_MODULUS ->
  linspace_fill n c 1 = map Z.of_nat (seq (Z.to_nat c) n).
Proof.
  revert c. induction n as [|n IH]; intros c H0 H; simpl.
  - reflexivity.
  - rewrite Z2Nat.id by lia. f_equal.
    destruct n as [|n']; [reflexivity|].
    rewrite Z.mod_small by lia. rewrite IH by lia.
    f_equal. f_equal. lia.
Qed.

Lemma linspace_identity N :
  Z.of_nat N <= INT_MAX ->
  linspace 0 (size_t_sub (Z.of_nat N) 1) N = map Z.of_nat (seq 0 N).
Proof.
  intros HN. unfold linspace, INT_MAX in *.
  destruct N as [|[|N]]; try reflexivity.
  change (S (S N) <? 2)%nat with false. cbv iota.
  assert (E : size_t_sub (size_t_sub (Z.of_nat (S (S N))) 1) 0
              = Z.of_nat (S (S N) - 1)).
  { unfold size_t_sub, SIZE_MODULUS.
    rewrite Z.sub_0_r, Z.mod_mod by lia.
    rewrite Z.mod_small by lia. lia. }
  rewrite E, Z.div_same by lia.
  apply (linspace_fill_seq (S (S N)) 0); unfold SIZE_MODULUS; lia.
Qed.

(** ** The partition of stage 3 *)


Section Partitioner.

Variable round : double -> Z.
Variable env : Env.
Hypothesis round_ok : round_contract round.

Variable N : nat.
Variable chkpts_ratio : double.
Hypothesis HN : Z.of_nat N <= INT_MAX.
Hypothesis Hvalid : valid chkpts_ratio = true.
Hypothesis Hratio :
  dge chkpts_ratio lit_0_0 && dle chkpts_ratio lit_1_0 = true.

Let p := pick_random_checkpoints round env N chkpts_ratio.

Lemma round_in_range :
  0 <= round (dmul chkpts_ratio (of_int (Z.of_nat N))) <= Z.of_nat N.
Proof.
  apply andb_true_iff in Hratio. destruct Hratio as [H0 H1].
  destruct (ratio_times_count chkpts_ratio (Z.of_nat N) Hvalid H0 H1 ltac:(lia))
    as (Hv & Hge & Hle).
  apply round_ok; auto. lia.
Qed.

Lemma N_chk_pts_eq :
  N_chk_pts p = round (dmul chkpts_ratio (of_int (Z.of_nat N))).
Proof.
  pose proof round_in_range as H. unfold INT_MAX in HN.
  subst p. simpl. unfold size_t_of_int, SIZE_MODULUS.
  apply Z.mod_small. lia.
Qed.

Lemma N_insert_pts_eq : N_insert_pts p = Z.of_nat N - N_chk_pts p.
Proof.
  pose proof round_in_range as H. pose proof N_chk_pts_eq as E.
  unfold INT_MAX in HN.
  subst p. simpl in *. rewrite E. unfold size_t_sub, SIZE_MODULUS.
  apply Z.mod_small. lia.
Qed.

Lemma pts_indices_Permutation :
  Permutation (pts_indices p) (map Z.of_nat (seq 0 N)).
Proof.
  subst p. simpl. rewrite linspace_identity by exact HN.
  apply random_shuffle_Permutation.
Qed.

Lemma pts_indices_length : length (pts_indices p) = N.
Proof.
  rewrite (Permutation_length pts_indices_Permutation).
  now rewrite length_map, length_seq.
Qed.

Lemma map_nth_seq {A} (l : list A) (d : A) (m : nat) :
  (m <= length l)%nat -> map (fun k => nth k l d) (seq 0 m) = firstn m l.
Proof.
  revert m. induction l as [|a l IH]; intros [|m] H; simpl in *; try lia; auto.
  f_equal. rewrite <- seq_shift, map_map. apply IH. lia.
Qed.

Lemma insertion_set_firstn :
  insertion_set p = firstn (Z.to_nat (N_insert_pts p)) (pts_indices p).
Proof.
  pose proof round_in_range as H. pose proof N_chk_pts_eq as E1.
  pose proof N_insert_pts_eq as E2. pose proof pts_indices_length as L.
  unfold insertion_set, insertion_index. apply map_nth_seq. lia.
Qed.

Lemma checkpoint_set_skipn :
  checkpoint_set p = skipn (Z.to_nat (N_insert_pts p)) (pts_indices p).
Proof.
  pose proof round_in_range as H. pose proof N_chk_pts_eq as E1.
  pose proof N_insert_pts_eq as E2. pose proof pts_indices_length as L.
  unfold INT_MAX in HN.
  unfold checkpoint_set, checkpoint_index.
  set (a := Z.to_nat (N_insert_pts p)). set (n := Z.to_nat (N_chk_pts p)).
  transitivity (firstn n (skipn a (pts_indices p))).
  - rewrite <- (map_nth_seq _ 0) by (rewrite length_skipn; lia).
    apply map_ext_in. intros k Hk. apply in_seq in Hk.
    rewrite nth_skipn. f_equal.
    unfold SIZE_MODULUS. rewrite Z.mod_small by lia. lia.
  - apply firstn_all2. rewrite length_skipn. lia.
Qed.

Lemma partition_covers : insertion_set p ++ checkpoint_set p = pts_indices p.
Proof.
  rewrite insertion_set_firstn, checkpoint_set_skipn. apply firstn_skipn.
Qed.


End Partitioner.







(** ** Sorted vectors *)

Lemma insert_sorted_Permutation x l : Permutation (x :: l) (insert_sorted x l).
Proof.
  induction l as [|y l IH]; simpl; [reflexivity|].
  destruct (dlt y x); [|reflexivity].
  eapply perm_trans; [apply perm_swap|]. now apply perm_skip.
Qed.

Lemma sort_asc_Permutation l : Permutation l (sort_asc l).
Proof.
  induction l as [|x l IH]; simpl; [reflexivity|].
  eapply perm_trans; [apply perm_skip, IH|]. apply insert_sorted_Permutation.
Qed.

Lemma no_nan_Permutation l l' : Permutation l l' -> no_nan l -> no_nan l'.
Proof. intros P H. unfold no_nan. now rewrite <- P. Qed.

Lemma insert_sorted_ascending x l :
  is_nan x = false -> no_nan l -> ascending l -> ascending (insert_sorted x l).
Proof.
  intros Hx Hl Hs. induction Hs as [|y l Hs IH Hy]; simpl.
  - repeat constructor.
  - inversion Hl as [|? ? Hny Hl']; subst.
    destruct (dlt y x) eqn:Hlt.
    + constructor; [now apply IH|].
      rewrite <- (insert_sorted_Permutation x l).
      constructor; [now apply dlt_dle | exact Hy].
    + assert (Hxy : dle x y = true) by now apply not_dlt_dle.
      constructor; [now constructor|].
      constructor; [exact Hxy|].
      eapply Forall_impl; [|exact Hy]. intros z Hz. eapply dle_trans; eauto.
Qed.

Lemma sort_asc_ascending l : no_nan l -> ascending (sort_asc l).
Proof.
  induction l as [|x l IH]; intros H; simpl.
  - constructor.
  - inversion H; subst. apply insert_sorted_ascending; auto.
    eapply no_nan_Permutation; [apply sort_asc_Permutation | assumption].
Qed.

(** ** Counting below a value *)

Lemma filter_length_Permutation {A} (f : A -> bool) l l' :
  Permutation l l' -> length (filter f l) = length (filter f l').
Proof.
  induction 1; simpl; auto.
  - destruct (f x); simpl; auto.
  - destruct (f x), (f y); reflexivity.
  - congruence.
Qed.

(** In an ascending vector the elements that satisfy a property closed
    under going down come first. *)
Lemma ascending_filter_prefix (h : double -> bool) l :
  (forall a b, dle a b = true -> h b = true -> h a = true) ->
  ascending l ->
  forall i q, nth_error l i = Some q ->
    ((i < length (filter h l))%nat -> h q = true) /\
    ((length (filter h l) <= i)%nat -> h q = false).
Proof.
  intros Hdown Hs. induction Hs as [|a l Hs IH Ha]; intros i q Hq.
  - destruct i; discriminate.
  - simpl. destruct (h a) eqn:Hha.
    + destruct i as [|i]; simpl in *.
      * inversion Hq; subst. split; [auto | lia].
      * destruct (IH i q Hq) as [I1 I2]. split; intros; [apply I1 | apply I2]; lia.
    + assert (Hall : forall b, In b l -> h b = false).
      { intros b Hb. rewrite Forall_forall in Ha. specialize (Ha b Hb).
        destruct (h b) eqn:Hhb; [|reflexivity].
        rewrite (Hdown a b Ha Hhb) in Hha. discriminate. }
      assert (Hnil : filter h l = []).
      { clear - Hall. induction l as [|b l IH]; simpl; [reflexivity|].
        rewrite (Hall b) by (left; reflexivity). apply IH.
        intros c Hc. apply Hall. now right. }
      rewrite Hnil. simpl. split; [lia|]. intros _.
      destruct i as [|i]; simpl in Hq.
      * inversion Hq; subst. exact Hha.
      * apply Hall. eapply nth_error_In, Hq.
Qed.

Lemma filter_all {A} (f : A -> bool) l :
  (forall a, In a l -> f a = true) -> filter f l = l.
Proof.
  induction l as [|a l IH]; intros H; simpl; [reflexivity|].
  rewrite (H a) by (left; reflexivity). f_equal. apply IH.
  intros b Hb. apply H. now right.
Qed.

Lemma filter_none {A} (f : A -> bool) l :
  (forall a, In a l -> f a = false) -> filter f l = [].
Proof.
  induction l as [|a l IH]; intros H; simpl; [reflexivity|].
  rewrite (H a) by (left; reflexivity). apply IH.
  intros b Hb. apply H. now right.
Qed.

(** ** The element [std::nth_element] selects *)

Lemma nth_element_selects v n v' p :
  no_nan v -> nth_element_post v n v' -> nth_error v' n = Some p ->
  exists q, nth_error (sort_asc v) n = Some q /\ deq p q = true.
Proof.
  intros Hnan [Hperm Hpart] Hp.
  assert (Hnan' : no_nan v') by (eapply no_nan_Permutation; eauto).
  assert (Hpn : is_nan p = false).
  { unfold no_nan in Hnan'. rewrite Forall_forall in Hnan'.
    eapply Hnan', nth_error_In, Hp. }
  pose proof (sort_asc_Permutation v) as Hs.
  pose proof (sort_asc_ascending v Hnan) as Hasc.
  assert (Hsn : no_nan (sort_asc v)) by (eapply no_nan_Permutation; eauto).
  assert (Hlen : (n < length v')%nat) by (apply nth_error_Some; congruence).
  assert (Hlen2 : length (sort_asc v) = length v').
  { rewrite <- (Permutation_length Hs). apply Permutation_length, Hperm. }
  destruct (nth_error (sort_asc v) n) as [q|] eqn:Hq;
    [|apply nth_error_None in Hq; lia].
  exists q. split; [reflexivity|].
  assert (Hqn : is_nan q = false).
  { unfold no_nan in Hsn. rewrite Forall_forall in Hsn.
    eapply Hsn, nth_error_In, Hq. }
  (* [v'] around position [n] *)
  pose proof (firstn_skipn_middle n v' Hp) as Hsplit.
  assert (Hbefore : forall a, In a (firstn n v') -> dle a p = true).
  { intros a Ha. apply In_nth_error in Ha. destruct Ha as [i Hi].
    rewrite nth_error_firstn in Hi.
    destruct (Nat.ltb_spec i n) as [Hin|Hin]; [|discriminate].
    destruct (Hpart i a p Hp Hi) as [H1 _].
    apply not_dlt_dle; auto.
    unfold no_nan in Hnan'. rewrite Forall_forall in Hnan'.
    eapply Hnan', nth_error_In, Hi. }
  assert (Hafter : forall a, In a (skipn (S n) v') -> dlt a p = false).
  { intros a Ha. apply In_nth_error in Ha. destruct Ha as [i Hi].
    rewrite nth_error_skipn in Hi.
    destruct (Hpart (S n + i)%nat a p Hp Hi) as [_ H2]. apply H2. lia. }
  (* fewer than [n+1] elements are below [p]; at least [n+1] are at most [p] *)
  set (f := fun x => dlt x p). set (g := fun x => dle x p).
  assert (Hcf : (length (filter f v') <= n)%nat).
  { rewrite <- Hsplit. rewrite filter_app. cbn [filter].
    assert (Hfp : f p = false) by (subst f; simpl; now apply dle_not_dlt, dle_refl).
    rewrite Hfp, (filter_none f (skipn (S n) v')) by exact Hafter.
    rewrite app_nil_r.
    etransitivity; [apply filter_length_le|]. rewrite length_firstn. lia. }
  assert (Hcg : (n < length (filter g v'))%nat).
  { rewrite <- Hsplit. rewrite filter_app. cbn [filter].
    assert (Hgp : g p = true) by (subst g; simpl; now apply dle_refl).
    rewrite Hgp, (filter_all g (firstn n v')) by exact Hbefore.
    rewrite length_app, length_firstn. cbn [length]. lia. }
  assert (Pv : Permutation (sort_asc v) v')
    by (eapply perm_trans; [symmetry; exact Hs | exact Hperm]).
  rewrite <- (filter_length_Permutation f _ _ Pv) in Hcf.
  rewrite <- (filter_length_Permutation g _ _ Pv) in Hcg.
  destruct (ascending_filter_prefix f (sort_asc v)) with (i := n) (q := q)
    as [_ Hf2]; auto.
  { intros a b Hab Hb. subst f. simpl in *. eapply dle_dlt_trans; eauto. }
  destruct (ascending_filter_prefix g (sort_asc v)) with (i := n) (q := q)
    as [Hg1 _]; auto.
  { intros a b Hab Hb. subst g. simpl in *. eapply dle_trans; eauto. }
  specialize (Hf2 Hcf). specialize (Hg1 Hcg). subst f g. simpl in *.
  apply dle_antisym; [|exact Hg1]. now apply not_dlt_dle.
Qed.

(** Sorting the whole range is one way to meet the contract. *)
Lemma ascending_nth l i j a b :
  ascending l -> (i < j)%nat ->
  nth_error l i = Some a -> nth_error l j = Some b -> dle a b = true.
Proof.
  intros Hs. revert i j. induction Hs as [|x l Hs IH Hx]; intros i j Hij Ha Hb.
  - destruct i; discriminate.
  - destruct j as [|j]; [lia|]. simpl in Hb.
    destruct i as [|i]; simpl in Ha.
    + inversion Ha; subst. rewrite Forall_forall in Hx.
      eapply Hx, nth_error_In, Hb.
    + apply (IH i j); auto. lia.
Qed.

Lemma nth_element_by_sort_contract : nth_element_contract nth_element_by_sort.
Proof.
  intros v n Hn Hnan. unfold nth_element_by_sort.
  split; [apply sort_asc_Permutation|].
  pose proof (sort_asc_ascending v Hnan) as Hasc.
  intros i a p Hp Ha. split; intros Hi; apply dle_not_dlt.
  - eapply (ascending_nth _ i n); eauto.
  - eapply (ascending_nth _ n i); eauto.
Qed.

(** ** [do_residuals_stats] *)

Lemma vec_set_ok {A} (v : list A) k x :
  (k < length v)%nat -> vec_set v k x = ret (set_nth v k x).
Proof.
  intros H. unfold vec_set. apply Nat.ltb_lt in H. now rewrite H.
Qed.

Lemma set_nth_middle {A} (l1 l2 : list A) y x k :
  length l1 = k -> set_nth (l1 ++ y :: l2) k x = l1 ++ x :: l2.
Proof.
  intros <-. induction l1 as [|a l1 IH]; simpl; [reflexivity | now rewrite IH].
Qed.

(** The loop of line 306 copies the residuals. *)
Lemma copy_loop (r : list double) a m :
  (a + m = length r)%nat ->
  for_each (seq a m) (fun i v => ri <- vec_at r i ;; vec_set v i ri)
           (firstn a r ++ repeat lit_0_0 m)
  = ret r.
Proof.
  revert a. induction m as [|m IH]; intros a H; simpl.
  - rewrite app_nil_r, firstn_all2 by lia. reflexivity.
  - destruct (nth_error r a) as [x|] eqn:Hx;
      [|apply nth_error_None in Hx; lia].
    rewrite (vec_at_Some r a x Hx), bind_ret_l.
    assert (La : length (firstn a r) = a) by (rewrite length_firstn; lia).
    rewrite vec_set_ok by (rewrite length_app, La; simpl; lia).
    rewrite bind_ret_l.
    rewrite (set_nth_middle _ _ _ _ _ La).
    replace (firstn a r ++ x :: repeat lit_0_0 m)
      with (firstn (S a) r ++ repeat lit_0_0 m).
    + apply IH. lia.
    + rewrite <- (firstn_skipn_middle a r Hx) at 1.
      rewrite firstn_app, La.
      replace (S a - a)%nat with 1%nat by lia.
      rewrite firstn_all2 by lia. simpl. now rewrite <- app_assoc.
Qed.

Lemma set_nth_six {A} (s : list A) a b c d e f :
  length s = 6%nat ->
  set_nth (set_nth (set_nth (set_nth (set_nth (set_nth s 0 a) 1 b) 2 c) 3 d) 4 e) 5 f
  = [a; b; c; d; e; f].
Proof.
  intros H. do 7 (destruct s as [|? s]; try discriminate). reflexivity.
Qed.

Lemma Eigen_resize_length uninitialized v n :
  length (Eigen_resize uninitialized v n) = n.
Proof.
  unfold Eigen_resize, Eigen_new.
  destruct (Nat.eqb_spec (length v) n); [assumption|].
  now rewrite length_map, length_seq.
Qed.

Lemma do_residuals_stats_run nth_element uninitialized r stats0 x tl med :
  r = x :: tl ->
  nth_error (nth_element r (length r / 2)%nat) (length r / 2)%nat = Some med ->
  do_residuals_stats nth_element uninitialized r stats0
  = ret ([fold_left keep_max tl x; fold_left keep_min tl x;
          sample_mean r; sample_std r;
          dsqrt (ddiv (vec_sum (map square r)) (of_int (Z.of_nat (length r))));
          med], file_hdr_text).
Proof.
  intros Hr Hmed. unfold do_residuals_stats.
  pose proof (Eigen_resize_length uninitialized stats0 6) as L.
  set (s := Eigen_resize uninitialized stats0 6) in *.
  destruct (Nat.eqb_spec (length r) 0) as [E|_]; [subst r; discriminate|].
  assert (Hmax : maxCoeff r = ret (fold_left keep_max tl x)) by (subst r; reflexivity).
  assert (Hmin : minCoeff r = ret (fold_left keep_min tl x)) by (subst r; reflexivity).
  rewrite Hmax, bind_ret_l.
  rewrite vec_set_ok by lia. rewrite bind_ret_l.
  rewrite Hmin, bind_ret_l.
  rewrite vec_set_ok by (rewrite !set_nth_length; lia). rewrite bind_ret_l.
  unfold meanAndStd.
  rewrite vec_set_ok by (rewrite !set_nth_length; lia). rewrite bind_ret_l.
  rewrite vec_set_ok by (rewrite !set_nth_length; lia). rewrite bind_ret_l.
  rewrite vec_set_ok by (rewrite !set_nth_length; lia). rewrite bind_ret_l.
  unfold for_loop.
  pose proof (copy_loop r 0 (length r) eq_refl) as Hcopy. simpl firstn in Hcopy.
  simpl app in Hcopy. rewrite Hcopy, bind_ret_l.
  rewrite (vec_at_Some _ _ _ Hmed), bind_ret_l.
  rewrite vec_set_ok by (rewrite !set_nth_length; lia). rewrite bind_ret_l.
  rewrite set_nth_six by exact L. reflexivity.
Qed.

Section Statistics.

Variable nth_element : list double -> nat -> list double.
Variable uninitialized : nat -> double.
Hypothesis nth_element_ok : nth_element_contract nth_element.

Variable r : list double.
Variable stats : list double.
Hypothesis Hnonempty : r <> [].
Hypothesis Hnumbers : no_nan r.

(** C2 (as amended): on a non-empty collection of residuals that holds no
    NaN, the function returns the six statistics in the order: the maximum
    of [r] (an element of [r] that none exceeds); the minimum; the sample
    mean; the sample standard deviation; [sqrt(sum(r_i^2) / N)]; and the
    median, equal to the element at position [N/2] of [r] sorted ascending. *)
Theorem residual_stats :
  exists mx mn med,
    do_residuals_stats nth_element uninitialized r stats
    = ([], Ok ([mx; mn; sample_mean r; sample_std r;
                dsqrt (ddiv (vec_sum (map square r))
                            (of_int (Z.of_nat (length r))));
                med], file_hdr_text)) /\
    (In mx r /\ forall x, In x r -> dle x mx = true) /\
    (In mn r /\ forall x, In x r -> dle mn x = true) /\
    (In med r /\
     exists q, nth_error (sort_asc r) (length r / 2)%nat = Some q /\
               deq med q = true).
Proof.
  destruct r as [|x tl] eqn:Hr; [contradiction|]. rewrite <- Hr in *.
  assert (Hhalf : (length r / 2 < length r)%nat).
  { apply Nat.div_lt; [subst r; simpl|]; lia. }
  pose proof (nth_element_ok r (length r / 2)%nat Hhalf Hnumbers) as Hpost.
  assert (Hperm : Permutation r (nth_element r (length r / 2)%nat))
    by apply Hpost.
  assert (Hsome : exists med,
             nth_error (nth_element r (length r / 2)%nat) (length r / 2)%nat
             = Some med).
  { destruct (nth_error (nth_element r (length r / 2)%nat) (length r / 2)%nat)
      as [med|] eqn:Hmed; [now exists med|].
    apply nth_error_None in Hmed.
    rewrite <- (Permutation_length Hperm) in Hmed. lia. }
  destruct Hsome as [med Hmed].
  exists (fold_left keep_max tl x), (fold_left keep_min tl x), med.
  split; [now apply do_residuals_stats_run|].
  assert (Hx : is_nan x = false).
  { unfold no_nan in Hnumbers. rewrite Forall_forall in Hnumbers.
    apply Hnumbers. rewrite Hr. now left. }
  assert (Hall : forall y, In y r -> is_nan y = false).
  { unfold no_nan in Hnumbers. now rewrite Forall_forall in Hnumbers. }
  destruct (keep_max_fold tl x Hx) as (_ & M1 & M2 & M3).
  destruct (keep_min_fold tl x Hx) as (_ & m1 & m2 & m3).
  cbv zeta in *.
  split; [|split].
  - split.
    + rewrite Hr. destruct M3 as [M3|M3]; [rewrite M3; now left | now right].
    + intros y Hy. pose proof (Hall y Hy) as Hyn. rewrite Hr in Hy.
      destruct Hy as [<-|Hy]; auto.
  - split.
    + rewrite Hr. destruct m3 as [m3|m3]; [rewrite m3; now left | now right].
    + intros y Hy. pose proof (Hall y Hy) as Hyn. rewrite Hr in Hy.
      destruct Hy as [<-|Hy]; auto.
  - split.
    + eapply Permutation_in; [symmetry; exact Hperm|].
      eapply nth_error_In, Hmed.
    + exact (nth_element_selects r _ _ med Hnumbers Hpost Hmed).
Qed.

End Statistics.

Lemma residual_stats_witness :
  exists mx mn med,
    do_residuals_stats nth_element_by_sort stale_ones
                       (map of_int [4; 1; 3; 2]) []
    = ([], Ok ([mx; mn; sample_mean (map of_int [4; 1; 3; 2]);
                sample_std (map of_int [4; 1; 3; 2]);
                dsqrt (ddiv (vec_sum (map square (map of_int [4; 1; 3; 2])))
                            (of_int 4));
                med], file_hdr_text)) /\
    deq mx (of_int 4) = true /\ deq mn (of_int 1) = true /\
    deq med (of_int 3) = true.
Proof.
  destruct (residual_stats nth_element_by_sort stale_ones
              nth_element_by_sort_contract (map of_int [4; 1; 3; 2]) []
              ltac:(discriminate) ltac:(repeat constructor))
    as (mx & mn & med & Hrun & _ & _ & _).
  exists mx, mn, med. split; [exact Hrun|].
  vm_compute in Hrun. inversion Hrun; subst. repeat split; reflexivity.
Defined.

(** C2 as stated fails on a collection that holds a NaN: the first two
    entries are then no maximum and no minimum of the collection.  The same
    three residuals in two orders give NaN and NaN when the NaN comes first,
    and 2 and 1 when it comes second: Eigen's reductions keep their first
    coefficient against a NaN, and drop a NaN that comes later. *)
Lemma residual_stats_nan_counterexample :
  let r1 := [S754_nan; of_int 2; of_int 1] in
  let r2 := [of_int 2; S754_nan; of_int 1] in
  r1 <> [] /\ r2 <> [] /\ Permutation r1 r2 /\
  exists s1 s2,
    do_residuals_stats nth_element_by_sort stale_ones r1 []
    = ([], Ok (s1, file_hdr_text)) /\
    do_residuals_stats nth_element_by_sort stale_ones r2 []
    = ([], Ok (s2, file_hdr_text)) /\
    nth_error s1 0 = Some S754_nan /\ nth_error s1 1 = Some S754_nan /\
    nth_error s2 0 = Some (of_int 2) /\ nth_error s2 1 = Some (of_int 1) /\
    (forall x, In x r1 -> dle x S754_nan = false).
Proof.
  intros r1 r2. split; [discriminate|]. split; [discriminate|].
  split; [apply perm_swap|].
  eexists. eexists.
  split; [vm_compute; reflexivity|]. split; [vm_compute; reflexivity|].
  repeat split; try reflexivity.
  intros x Hx. destruct x; reflexivity.
Qed.

(** C4 (as amended): on an empty collection the function raises nothing and
    returns a vector of six entries, none of which it assigns: they are the
    entries [stats] came with when it already had six, and otherwise whatever
    the storage allocated by [resize(6)] holds. *)
Theorem stats_of_empty nth_element uninitialized stats :
  do_residuals_stats nth_element uninitialized [] stats
  = ([], Ok (Eigen_resize uninitialized stats 6, file_hdr_text)) /\
  length (Eigen_resize uninitialized stats 6) = 6%nat /\
  (length stats = 6%nat -> Eigen_resize uninitialized stats 6 = stats) /\
  (length stats <> 6%nat ->
   Eigen_resize uninitialized stats 6 = map uninitialized (seq 0 6)).
Proof.
  split; [reflexivity|]. split; [apply Eigen_resize_length|].
  unfold Eigen_resize, Eigen_new.
  destruct (Nat.eqb_spec (length stats) 6); split; intros; congruence.
Qed.

(** C4 as stated fails: the six entries are not zero when the storage
    [resize(6)] allocates holds something else, nor when [stats] comes with six
    entries of an earlier call. *)
Lemma stats_of_empty_counterexample :
  (do_residuals_stats nth_element_by_sort stale_ones [] []
   = ([], Ok (repeat lit_1_0 6, file_hdr_text)) /\
   Forall (fun x => deq x lit_0_0 = false) (repeat lit_1_0 6)) /\
  (do_residuals_stats nth_element_by_sort (fun _ => lit_0_0) []
                      (map of_int [4; 1; 3; 2; 5; 6])
   = ([], Ok (map of_int [4; 1; 3; 2; 5; 6], file_hdr_text)) /\
   Forall (fun x => deq x lit_0_0 = false) (map of_int [4; 1; 3; 2; 5; 6])).
Proof.
  split; (split; [reflexivity | repeat constructor]).
Qed.

(** ** Reads of the table *)

Lemma coeff_cases m i j :
  (exists r x, nth_error (mat_rows m) i = Some r /\ nth_error r j = Some x /\
               coeff m i j = ret x) \/
  coeff m i j = undefined.
Proof.
  unfold coeff, vec_at.
  destruct (nth_error (mat_rows m) i) as [r|]; [|now right].
  destruct (nth_error r j) as [x|] eqn:E; [|now right].
  left. exists r, x. auto.
Qed.

Lemma vec_at_cases {A} (v : list A) k :
  (exists a, nth_error v k = Some a /\ vec_at v k = ret a) \/
  vec_at v k = undefined.
Proof.
  unfold vec_at. destruct (nth_error v k) as [a|]; [left; eauto | now right].
Qed.

Lemma nth_error_nth_default {A} (l : list A) k a d :
  nth_error l k = Some a -> nth k l d = a.
Proof. intros H. now apply nth_error_nth. Qed.

Lemma bind_undefined_l {A B} (f : A -> M B) : bind undefined f = undefined.
Proof. reflexivity. Qed.

Lemma bind_throw_l {A B} (f : A -> M B) : bind throw f = throw.
Proof. reflexivity. Qed.

Lemma bind_emit {B} e (k : M B) :
  bind (emit e) (fun _ => k) = (e :: fst k, snd k).
Proof. unfold bind, emit. destruct k. reflexivity. Qed.

Lemma call_cases {A} (r : option A) :
  call r = match r with Some a => ret a | None => throw end.
Proof. reflexivity. Qed.

(** ** Loops *)

Lemma for_each_trace_exact {S} (ev : nat -> Event) ks
      (body : nat -> S -> M S) s t s' :
  (forall k s t s', body k s = (t, Ok s') -> t = [ev k]) ->
  for_each ks body s = (t, Ok s') -> t = map ev ks.
Proof.
  intros Hbody. revert s t. induction ks as [|k ks IH]; intros s t H; simpl in H.
  - inversion H. reflexivity.
  - apply bind_ok_inv in H. destruct H as (t1 & s1 & t2 & H1 & H2 & ->).
    rewrite (Hbody _ _ _ _ H1). simpl. f_equal. eapply IH, H2.
Qed.

Lemma for_each_ok {S} ks (body : nat -> S -> M S) :
  (forall k s, In k ks -> exists t s', body k s = (t, Ok s')) ->
  forall s, exists t s', for_each ks body s = (t, Ok s').
Proof.
  induction ks as [|k ks IH]; intros Hbody s; simpl.
  - exists [], s. reflexivity.
  - destruct (Hbody k s (or_introl eq_refl)) as (t1 & s1 & H1).
    destruct (IH (fun k s Hk => Hbody k s (or_intror Hk)) s1) as (t2 & s2 & H2).
    exists (t1 ++ t2), s2. rewrite (bind_ok _ _ _ _ H1), H2. reflexivity.
Qed.

Lemma for_each_ok_body {S} ks (body : nat -> S -> M S) s t s' :
  for_each ks body s = (t, Ok s') ->
  forall k, In k ks -> exists s1 t1 s2, body k s1 = (t1, Ok s2).
Proof.
  revert s t. induction ks as [|k0 ks IH]; intros s t H k Hk; [destruct Hk|].
  simpl in H. apply bind_ok_inv in H. destruct H as (t1 & s1 & t2 & H1 & H2 & _).
  destruct Hk as [<-|Hk]; [eauto | eapply IH; eauto].
Qed.

Lemma Forall_nil_iff {A} (l : list A) : Forall (fun _ => False) l -> l = [].
Proof. destruct l; [reflexivity|]. intros H. inversion H. contradiction. Qed.

(** ** Stage 2 makes no call *)

Lemma ret_trace {A} (a : A) P : Forall P (fst (ret a)).
Proof. constructor. Qed.

Lemma coeff_trace P m i j : Forall P (fst (coeff m i j)).
Proof.
  destruct (coeff_cases m i j) as [(r & x & _ & _ & ->)| ->]; constructor.
Qed.

Lemma vec_at_trace {A} P (v : list A) k : Forall P (fst (vec_at v k)).
Proof.
  destruct (vec_at_cases v k) as [(a & _ & ->)| ->]; constructor.
Qed.

Lemma vec_set_trace {A} P (v : list A) k x : Forall P (fst (vec_set v k x)).
Proof. unfold vec_set. destruct (k <? length v)%nat; constructor. Qed.

Lemma determine_bounding_box_silent raw :
  fst (determine_bounding_box raw) = [].
Proof.
  apply Forall_nil_iff. unfold determine_bounding_box, bbox_scan, for_loop.
  apply bind_trace_Forall; [|intros; apply ret_trace].
  apply for_each_trace_Forall. intros k s.
  repeat (apply bind_trace_Forall; [apply coeff_trace|intros]).
  apply ret_trace.
Qed.

(** ** The stages of a run *)

Section Stages.

Variable FE : FieldEstimator.
Variable round : double -> Z.
Variable nth_element : list double -> nat -> list double.
Variable uninitialized : nat -> double.
Variable env : Env.

Variable cfg : Config.
Variable raw_xyz : CMatrix.
Variable p : Partition.

Let same_stddev := (cols raw_xyz =? 3)%nat.

(** *** Stage 4 *)

Lemma init_dem_map_run b :
  init_dem_map FE cfg b
  = (setup_events cfg b,
     match fe_setSize FE
             (fe_setOptions FE (fe_create FE)
                (ddiv lit_1_0 (square (arg_std_prior cfg)))
                (ddiv lit_1_0 (square (arg_std_observations cfg)))
                (arg_skip_variance cfg))
             (minx b) (maxx b) (miny b) (maxy b) (arg_dem_resolution cfg) with
     | Some m => Ok m
     | None => Exception
     end).
Proof.
  unfold init_dem_map. rewrite !bind_emit, call_cases.
  destruct (fe_setSize _ _ _ _ _ _ _); reflexivity.
Qed.

Lemma setup_events_setup b : Forall is_setup (setup_events cfg b).
Proof. repeat constructor. Qed.

(** *** Stage 5 *)

Lemma insert_point_run k dm i r :
  nth_error (pts_indices p) k = Some i ->
  nth_error (mat_rows raw_xyz) (Z.to_nat i) = Some r ->
  readable raw_xyz r ->
  insert_point FE cfg raw_xyz same_stddev p k dm
  = ([insert_event cfg raw_xyz i],
     match fe_insertIndividualReading FE dm (pz r) (px r) (py r) false true
             (stddev_of cfg raw_xyz r) with
     | Some m => Ok m
     | None => Exception
     end).
Proof.
  intros Hi Hr [H3 H4]. unfold insert_point.
  rewrite (vec_at_Some _ _ _ Hi), bind_ret_l.
  rewrite (coeff_Some raw_xyz _ 0 r (px r) Hr) by (apply nth_error_nth'; lia).
  rewrite bind_ret_l.
  rewrite (coeff_Some raw_xyz _ 1 r (py r) Hr) by (apply nth_error_nth'; lia).
  rewrite bind_ret_l.
  rewrite (coeff_Some raw_xyz _ 2 r (pz r) Hr) by (apply nth_error_nth'; lia).
  rewrite bind_ret_l.
  assert (Hsd : (if same_stddev then ret (arg_std_observations cfg)
                 else coeff raw_xyz (Z.to_nat i) 3)
                = ret (stddev_of cfg raw_xyz r)).
  { unfold stddev_of. subst same_stddev.
    destruct (Nat.eqb_spec (cols raw_xyz) 3) as [E|E]; [reflexivity|].
    apply (coeff_Some raw_xyz _ 3 r _ Hr). apply nth_error_nth'. auto. }
  rewrite Hsd, bind_ret_l, bind_emit, call_cases.
  unfold insert_event, row_of. rewrite (nth_error_nth_default _ _ _ [] Hr).
  destruct (fe_insertIndividualReading _ _ _ _ _ _ _ _); reflexivity.
Qed.

Lemma insert_point_undefined k dm :
  (forall i r, nth_error (pts_indices p) k = Some i ->
               nth_error (mat_rows raw_xyz) (Z.to_nat i) = Some r ->
               ~ readable raw_xyz r) ->
  insert_point FE cfg raw_xyz same_stddev p k dm = ([], Undefined).
Proof.
  intros Hno. unfold insert_point, vec_at.
  destruct (nth_error (pts_indices p) k) as [i|] eqn:Hi; [|reflexivity].
  rewrite bind_ret_l. unfold coeff, vec_at.
  destruct (nth_error (mat_rows raw_xyz) (Z.to_nat i)) as [r|] eqn:Hr;
    [|reflexivity].
  specialize (Hno i r eq_refl Hr). unfold readable in Hno.
  destruct r as [|a [|b [|c r]]]; try reflexivity.
  simpl. subst same_stddev.
  destruct (Nat.eqb_spec (cols raw_xyz) 3) as [E|E].
  - exfalso. apply Hno. simpl. split; [lia | congruence].
  - destruct r as [|d r]; [reflexivity|].
    exfalso. apply Hno. simpl. split; lia.
Qed.

Lemma readable_dec r : readable raw_xyz r \/ ~ readable raw_xyz r.
Proof.
  unfold readable.
  destruct (le_lt_dec 3 (length r)); [|right; lia].
  destruct (Nat.eq_dec (cols raw_xyz) 3); [left; split; [lia | congruence]|].
  destruct (le_lt_dec 4 (length r)); [left; split; auto | right; intros [_ H]].
  specialize (H n). lia.
Qed.

Lemma insert_rule_event i r :
  nth_error (mat_rows raw_xyz) (Z.to_nat i) = Some r -> readable raw_xyz r ->
  insert_rule cfg raw_xyz (insert_event cfg raw_xyz i).
Proof.
  intros Hr [H3 H4]. unfold insert_event, row_of.
  rewrite (nth_error_nth_default _ _ _ [] Hr). cbv zeta. unfold insert_rule.
  split; [reflexivity|]. exists r.
  split; [eapply nth_error_In, Hr|].
  split; [apply nth_error_nth'; lia|].
  split; [apply nth_error_nth'; lia|].
  split; [apply nth_error_nth'; lia|].
  unfold stddev_of. destruct (Nat.eqb_spec (cols raw_xyz) 3) as [E|E].
  - split; [reflexivity | congruence].
  - split; [congruence|]. intros _. apply nth_error_nth'. auto.
Qed.

(** A turn of the loop of stage 5: either it inserts a row of the table, or a
    read is out of range. *)
Lemma insert_point_cases k dm :
  (exists i r,
      nth_error (pts_indices p) k = Some i /\
      nth_error (mat_rows raw_xyz) (Z.to_nat i) = Some r /\ readable raw_xyz r /\
      insert_point FE cfg raw_xyz same_stddev p k dm
      = ([insert_event cfg raw_xyz i],
         match fe_insertIndividualReading FE dm (pz r) (px r) (py r) false true
                 (stddev_of cfg raw_xyz r) with
         | Some m => Ok m
         | None => Exception
         end)) \/
  insert_point FE cfg raw_xyz same_stddev p k dm = ([], Undefined).
Proof.
  destruct (nth_error (pts_indices p) k) as [i|] eqn:Hi.
  2:{ right. apply insert_point_undefined. congruence. }
  destruct (nth_error (mat_rows raw_xyz) (Z.to_nat i)) as [r|] eqn:Hr.
  2:{ right. apply insert_point_undefined. congruence. }
  destruct (readable_dec r) as [Hrd|Hrd].
  - left. exists i, r. split; [reflexivity|]. split; [exact Hr|].
    split; [exact Hrd|]. now apply insert_point_run.
  - right. apply insert_point_undefined. intros i' r' E1 E2. congruence.
Qed.

Lemma insert_point_trace k dm :
  Forall (insert_rule cfg raw_xyz)
         (fst (insert_point FE cfg raw_xyz same_stddev p k dm)).
Proof.
  destruct (insert_point_cases k dm) as [(i & r & _ & Hr & Hrd & ->)| ->];
    simpl; [|constructor].
  constructor; [|constructor]. eapply insert_rule_event; eauto.
Qed.

Lemma insert_point_ok_inv k dm t dm' :
  insert_point FE cfg raw_xyz same_stddev p k dm = (t, Ok dm') ->
  t = [insert_event cfg raw_xyz (insertion_index p k)].
Proof.
  destruct (insert_point_cases k dm) as [(i & r & Hi & _ & _ & ->)| ->];
    intros H; inversion H.
  unfold insertion_index. now rewrite (nth_error_nth_default _ _ _ 0 Hi).
Qed.

Lemma insert_points_trace dm :
  Forall (insert_rule cfg raw_xyz)
         (fst (insert_points FE cfg raw_xyz same_stddev p dm)).
Proof.
  unfold insert_points, for_loop. apply for_each_trace_Forall.
  intros. apply insert_point_trace.
Qed.

Lemma insert_points_ok_inv dm t dm' :
  insert_points FE cfg raw_xyz same_stddev p dm = (t, Ok dm') ->
  t = map (insert_event cfg raw_xyz) (insertion_set p).
Proof.
  unfold insert_points, for_loop, insertion_set. intros H.
  rewrite map_map.
  eapply (for_each_trace_exact
            (fun k => insert_event cfg raw_xyz (insertion_index p k))); [|exact H].
  intros. eapply insert_point_ok_inv; eauto.
Qed.

(** *** Stage 6 *)

Lemma update_gmrf_run dm :
  update_gmrf FE dm
  = ([EvUpdateMapEstimation],
     match fe_updateMapEstimation FE dm with
     | Some m => Ok m
     | None => Exception
     end).
Proof.
  unfold update_gmrf. rewrite bind_emit, call_cases.
  destruct (fe_updateMapEstimation FE dm); reflexivity.
Qed.

End Stages.

(** Splits a sequence that ended well into its two parts. *)
Ltac inv_bind H :=
  let t1 := fresh "t" in
  let a := fresh "a" in
  let t2 := fresh "t" in
  let H1 := fresh "H" in
  apply bind_ok_inv in H; destruct H as (t1 & a & t2 & H1 & H & ->).

Lemma coeff_ok_value raw i j t x :
  coeff raw (Z.to_nat i) j = (t, Ok x) ->
  t = [] /\ x = nth j (row_of raw i) lit_0_0.
Proof.
  intros H. apply coeff_ok_inv in H. destruct H as (r & Hr & Hx & ->).
  split; [reflexivity|]. unfold row_of.
  rewrite (nth_error_nth_default _ _ _ [] Hr).
  symmetry. now apply nth_error_nth_default.
Qed.

Lemma vec_set_ok_inv {A} (v : list A) k x t v' :
  vec_set v k x = (t, Ok v') ->
  t = [] /\ v' = set_nth v k x /\ (k < length v)%nat.
Proof.
  unfold vec_set. destruct (Nat.ltb_spec k (length v)); intros E; inversion E.
  auto.
Qed.

Lemma ret_ok_inv {A} (a b : A) t : ret a = (t, Ok b) -> t = [] /\ a = b.
Proof. intros H. inversion H. auto. Qed.

Lemma firstn_set_nth {A} (v : list A) k x :
  (k < length v)%nat -> firstn (S k) (set_nth v k x) = firstn k v ++ [x].
Proof.
  revert k. induction v as [|a v IH]; intros [|k] H; simpl in *; try lia; auto.
  f_equal. apply IH. lia.
Qed.

Lemma firstn_set_nth_before {A} (v : list A) k j x :
  (j <= k)%nat -> firstn j (set_nth v k x) = firstn j v.
Proof.
  revert k j. induction v as [|a v IH]; intros [|k] [|j] H; simpl; try lia; auto.
  f_equal. apply IH. lia.
Qed.

Section Validation.

Variable FE : FieldEstimator.
Variable nth_element : list double -> nat -> list double.
Variable uninitialized : nat -> double.
Variable env : Env.

Variable raw_xyz : CMatrix.
Variable p : Partition.

(** *** Stage 7 *)

Lemma predictMeasurement_trace dm x y interp :
  Forall is_validation (fst (predictMeasurement FE dm x y interp)).
Proof.
  unfold predictMeasurement. rewrite bind_emit. simpl.
  constructor; [left; exact I|].
  destruct (fe_predictMeasurement FE dm x y interp); constructor.
Qed.

Lemma predictMeasurement_ok_inv dm x y interp t z s dm' :
  predictMeasurement FE dm x y interp = (t, Ok (z, s, dm')) ->
  t = [EvPredict x y interp (Some (z, s))].
Proof.
  unfold predictMeasurement. rewrite bind_emit.
  destruct (fe_predictMeasurement FE dm x y interp) as [[[z' s'] m]|]; simpl;
    intros H; inversion H; subst. reflexivity.
Qed.

Lemma eval_checkpoint_trace k st :
  Forall is_validation (fst (eval_checkpoint FE raw_xyz p k st)).
Proof.
  unfold eval_checkpoint. destruct st as [[dm vNN] vBi].
  apply bind_trace_Forall; [apply vec_at_trace|intros i].
  apply bind_trace_Forall; [apply coeff_trace|intros x].
  apply bind_trace_Forall; [apply coeff_trace|intros y].
  apply bind_trace_Forall; [apply predictMeasurement_trace|intros [[z1 s1] dm1]].
  apply bind_trace_Forall; [apply coeff_trace|intros z].
  apply bind_trace_Forall; [apply vec_set_trace|intros v1].
  apply bind_trace_Forall; [apply coeff_trace|intros x'].
  apply bind_trace_Forall; [apply coeff_trace|intros y'].
  apply bind_trace_Forall; [apply predictMeasurement_trace|intros [[z2 s2] dm2]].
  apply bind_trace_Forall; [apply coeff_trace|intros z'].
  apply bind_trace_Forall; [apply vec_set_trace|intros v2].
  apply ret_trace.
Qed.

Lemma eval_checkpoint_ok_inv k dm vNN vBi t dm' vNN' vBi' :
  eval_checkpoint FE raw_xyz p k (dm, vNN, vBi) = (t, Ok (dm', vNN', vBi')) ->
  exists o : Prediction,
    t = predict_events raw_xyz (checkpoint_index p k) o /\
    vNN' = set_nth vNN k (residual_NN raw_xyz (checkpoint_index p k) o) /\
    vBi' = set_nth vBi k (residual_Bi raw_xyz (checkpoint_index p k) o) /\
    (k < length vNN)%nat /\ (k < length vBi)%nat.
Proof.
  unfold eval_checkpoint. intros H.
  inv_bind H. apply vec_at_ok_inv in H0. destruct H0 as [Hi ->].
  assert (Ei : a = checkpoint_index p k).
  { unfold checkpoint_index. symmetry. now apply nth_error_nth_default. }
  subst a.
  inv_bind H. apply coeff_ok_value in H0. destruct H0 as [-> ->].
  inv_bind H. apply coeff_ok_value in H0. destruct H0 as [-> ->].
  inv_bind H. destruct a as [[z1 s1] dm1].
  apply predictMeasurement_ok_inv in H0. subst.
  inv_bind H. apply coeff_ok_value in H0. destruct H0 as [-> ->].
  inv_bind H. apply vec_set_ok_inv in H0. destruct H0 as (-> & -> & L1).
  inv_bind H. apply coeff_ok_value in H0. destruct H0 as [-> ->].
  inv_bind H. apply coeff_ok_value in H0. destruct H0 as [-> ->].
  inv_bind H. destruct a as [[z2 s2] dm2].
  apply predictMeasurement_ok_inv in H0. subst.
  inv_bind H. apply coeff_ok_value in H0. destruct H0 as [-> ->].
  inv_bind H. apply vec_set_ok_inv in H0. destruct H0 as (-> & -> & L2).
  apply ret_ok_inv in H. destruct H as [-> H]. inversion H; subst.
  exists ((z1, s1), (z2, s2)). repeat split; auto.
Qed.

(** The loop of stage 7 from turn [a] on: the predictions made, and the
    residuals written from position [a]. *)
Lemma eval_loop_ok_inv m : forall a dm vNN vBi t dm' vNN' vBi',
  for_each (seq a m) (eval_checkpoint FE raw_xyz p) (dm, vNN, vBi)
  = (t, Ok (dm', vNN', vBi')) ->
  (a + m = length vNN)%nat -> (a + m = length vBi)%nat ->
  exists outs : list Prediction,
    length outs = m /\
    t = flat_map (fun ko => predict_events raw_xyz (checkpoint_index p (fst ko)) (snd ko))
                 (combine (seq a m) outs) /\
    vNN' = firstn a vNN ++
           map (fun ko => residual_NN raw_xyz (checkpoint_index p (fst ko)) (snd ko))
               (combine (seq a m) outs) /\
    vBi' = firstn a vBi ++
           map (fun ko => residual_Bi raw_xyz (checkpoint_index p (fst ko)) (snd ko))
               (combine (seq a m) outs).
Proof.
  induction m as [|m IH]; intros a dm vNN vBi t dm' vNN' vBi' H L1 L2.
  - simpl in H. inversion H; subst. exists []. simpl.
    rewrite !app_nil_r, !firstn_all2 by lia. auto.
  - simpl in H. inv_bind H. destruct a0 as [[dm1 v1] v2].
    apply eval_checkpoint_ok_inv in H0.
    destruct H0 as (o & -> & -> & -> & K1 & K2).
    apply IH in H; [|rewrite set_nth_length; lia..].
    destruct H as (outs & Lo & -> & -> & ->).
    exists (o :: outs). split; [simpl; lia|].
    cbn [seq combine flat_map map fst snd].
    split; [reflexivity|].
    rewrite !firstn_set_nth by assumption.
    rewrite <- !app_assoc. auto.
Qed.

Lemma combine_map_l {A B C} (f : A -> B) (l : list A) (l' : list C) :
  combine (map f l) l' = map (fun x => (f (fst x), snd x)) (combine l l').
Proof.
  revert l'. induction l as [|a l IH]; intros [|c l']; simpl; auto.
  now rewrite IH.
Qed.

Lemma flat_map_map {A B C} (f : B -> list C) (g : A -> B) l :
  flat_map f (map g l) = flat_map (fun x => f (g x)) l.
Proof. induction l as [|a l IH]; simpl; [reflexivity | now rewrite IH]. Qed.

Lemma eval_loop_checkpoints dm t dm' vNN' vBi' :
  let n := Z.to_nat (N_chk_pts p) in
  for_loop n (eval_checkpoint FE raw_xyz p)
           (dm, Eigen_new uninitialized n, Eigen_new uninitialized n)
  = (t, Ok (dm', vNN', vBi')) ->
  exists outs : list Prediction,
    length outs = length (checkpoint_set p) /\
    t = predictions_of raw_xyz p outs /\
    vNN' = residuals_NN_of raw_xyz p outs /\ vBi' = residuals_Bi_of raw_xyz p outs.
Proof.
  intros n H. unfold for_loop in H.
  apply eval_loop_ok_inv in H;
    [|unfold Eigen_new; rewrite length_map, length_seq; lia..].
  destruct H as (outs & Lo & -> & -> & ->).
  exists outs. unfold predictions_of, residuals_NN_of, residuals_Bi_of,
    checkpoint_set. fold n.
  rewrite length_map, length_seq, combine_map_l.
  split; [exact Lo|]. simpl firstn. simpl app.
  rewrite flat_map_map, !map_map. auto.
Qed.

Lemma saveToTextFile_run v file header :
  saveToTextFile env v file header
  = if env_writable env file
    then ([EvSaveVector file v (if (String.length header =? 0)%nat
                                then None else Some header)], Ok tt)
    else throw.
Proof. reflexivity. Qed.

Lemma saveToTextFile_trace v file header :
  Forall is_validation (fst (saveToTextFile env v file header)).
Proof.
  rewrite saveToTextFile_run. destruct (env_writable env file); simpl.
  - constructor; [right; exact I | constructor].
  - constructor.
Qed.

Lemma saveToTextFile_ok_inv v file header t u :
  saveToTextFile env v file header = (t, Ok u) ->
  t = [EvSaveVector file v (if (String.length header =? 0)%nat
                            then None else Some header)].
Proof.
  rewrite saveToTextFile_run. destruct (env_writable env file);
    intros H; inversion H. reflexivity.
Qed.

Lemma do_residuals_stats_silent r stats :
  fst (do_residuals_stats nth_element uninitialized r stats) = [].
Proof.
  apply Forall_nil_iff. unfold do_residuals_stats.
  destruct (length r =? 0)%nat; [apply ret_trace|].
  apply bind_trace_Forall; [destruct r; constructor|intros mx].
  apply bind_trace_Forall; [apply vec_set_trace|intros s1].
  apply bind_trace_Forall; [destruct r; constructor|intros mn].
  apply bind_trace_Forall; [apply vec_set_trace|intros s2].
  unfold meanAndStd.
  apply bind_trace_Forall; [apply vec_set_trace|intros s3].
  apply bind_trace_Forall; [apply vec_set_trace|intros s4].
  apply bind_trace_Forall; [apply vec_set_trace|intros s5].
  apply bind_trace_Forall.
  { unfold for_loop. apply for_each_trace_Forall. intros k s.
    apply bind_trace_Forall; [apply vec_at_trace|intros]. apply vec_set_trace. }
  intros v.
  apply bind_trace_Forall; [apply vec_at_trace|intros med].
  apply bind_trace_Forall; [apply vec_set_trace|intros s6].
  apply ret_trace.
Qed.

Lemma eval_checkpoints_trace sPrefix dm :
  Forall is_validation (fst (eval_checkpoints FE nth_element uninitialized env
                                              raw_xyz p sPrefix dm)).
Proof.
  unfold eval_checkpoints.
  apply bind_trace_Forall.
  { unfold for_loop. apply for_each_trace_Forall. intros.
    apply eval_checkpoint_trace. }
  intros [[dm1 vNN] vBi].
  apply bind_trace_Forall; [apply saveToTextFile_trace|intros _].
  apply bind_trace_Forall; [apply saveToTextFile_trace|intros _].
  apply bind_trace_Forall.
  { rewrite do_residuals_stats_silent. constructor. }
  intros [s1 h1].
  apply bind_trace_Forall.
  { rewrite do_residuals_stats_silent. constructor. }
  intros [s2 h2].
  apply bind_trace_Forall; [apply saveToTextFile_trace|intros _].
  apply bind_trace_Forall; [apply saveToTextFile_trace|intros _].
  apply ret_trace.
Qed.

Lemma eval_checkpoints_ok_inv sPrefix dm t dm' :
  eval_checkpoints FE nth_element uninitialized env raw_xyz p sPrefix dm
  = (t, Ok dm') ->
  exists (outs : list Prediction) (files : list Event),
    length outs = length (checkpoint_set p) /\
    t = predictions_of raw_xyz p outs ++
        EvSaveVector (sPrefix ++ "_chkpt_residuals_NN.txt")
                     (residuals_NN_of raw_xyz p outs) None ::
        EvSaveVector (sPrefix ++ "_chkpt_residuals_Bi.txt")
                     (residuals_Bi_of raw_xyz p outs) None :: files /\
    length files = 2%nat /\ Forall (residual_files sPrefix) files.
Proof.
  unfold eval_checkpoints. intros H.
  inv_bind H. destruct a as [[dm1 vNN] vBi].
  apply eval_loop_checkpoints in H0. destruct H0 as (outs & Lo & -> & -> & ->).
  inv_bind H. apply saveToTextFile_ok_inv in H0. subst.
  inv_bind H. apply saveToTextFile_ok_inv in H0. subst.
  inv_bind H. destruct a1 as [s1 h1].
  pose proof (do_residuals_stats_silent (residuals_NN_of raw_xyz p outs) []) as E1.
  rewrite H0 in E1. simpl in E1. subst.
  inv_bind H. destruct a1 as [s2 h2].
  pose proof (do_residuals_stats_silent (residuals_Bi_of raw_xyz p outs) []) as E2.
  rewrite H1 in E2. simpl in E2. subst.
  inv_bind H. apply saveToTextFile_ok_inv in H2. subst.
  inv_bind H. apply saveToTextFile_ok_inv in H2. subst.
  apply ret_ok_inv in H. destruct H as [-> _].
  eexists outs, [_; _]. split; [exact Lo|]. split; [reflexivity|].
  split; [reflexivity|].
  constructor; [|constructor; [|constructor]]; simpl; auto.
Qed.

End Validation.

Lemma bind_trace {A B} (m : M A) (f : A -> M B) :
  fst (bind m f)
  = fst m ++ match snd m with Ok a => fst (f a) | _ => [] end.
Proof.
  destruct m as [t [a| |]]; simpl.
  - destruct (f a). reflexivity.
  - now rewrite app_nil_r.
  - now rewrite app_nil_r.
Qed.

Lemma bind_result {A B} (m : M A) (f : A -> M B) :
  snd (bind m f)
  = match snd m with
    | Ok a => snd (f a)
    | Exception => Exception
    | Undefined => Undefined
    end.
Proof.
  destruct m as [t [a| |]]; simpl; [|reflexivity..].
  destruct (f a). reflexivity.
Qed.

Section Output.

Variable FE : FieldEstimator.
Variable env : Env.
Variable raw_xyz : CMatrix.
Variable p : Partition.
Variable sPrefix : string.

(** *** Stage 9 *)

Lemma CFileOutputStream_run file :
  CFileOutputStream env file
  = if env_writable env file then ([EvFileOpen file], Ok tt) else throw.
Proof. reflexivity. Qed.

Lemma CFileOutputStream_trace file :
  Forall is_output (fst (CFileOutputStream env file)).
Proof.
  rewrite CFileOutputStream_run. destruct (env_writable env file); simpl;
    repeat constructor.
Qed.

Lemma CFileOutputStream_ok_inv file t u :
  CFileOutputStream env file = (t, Ok u) -> t = [EvFileOpen file].
Proof.
  rewrite CFileOutputStream_run. destruct (env_writable env file);
    intros H; inversion H. reflexivity.
Qed.

Lemma print_point_trace file i :
  Forall is_output (fst (print_point raw_xyz file i)).
Proof.
  unfold print_point.
  repeat (apply bind_trace_Forall; [apply coeff_trace|intros]).
  repeat constructor.
Qed.

Lemma print_point_ok_inv file i t u :
  print_point raw_xyz file (Z.to_nat i) = (t, Ok u) ->
  t = [print_event file raw_xyz i].
Proof.
  unfold print_point. intros H.
  inv_bind H. apply coeff_ok_value in H0. destruct H0 as [-> ->].
  inv_bind H. apply coeff_ok_value in H0. destruct H0 as [-> ->].
  inv_bind H. apply coeff_ok_value in H0. destruct H0 as [-> ->].
  inversion H. reflexivity.
Qed.

Lemma print_point_run file i r :
  nth_error (mat_rows raw_xyz) (Z.to_nat i) = Some r -> (3 <= length r)%nat ->
  print_point raw_xyz file (Z.to_nat i) = ([print_event file raw_xyz i], Ok tt).
Proof.
  intros Hr H3. unfold print_point.
  rewrite (coeff_Some raw_xyz _ 0 r (px r) Hr) by (apply nth_error_nth'; lia).
  rewrite bind_ret_l.
  rewrite (coeff_Some raw_xyz _ 1 r (py r) Hr) by (apply nth_error_nth'; lia).
  rewrite bind_ret_l.
  rewrite (coeff_Some raw_xyz _ 2 r (pz r) Hr) by (apply nth_error_nth'; lia).
  rewrite bind_ret_l.
  unfold print_event, row_of. rewrite (nth_error_nth_default _ _ _ [] Hr).
  reflexivity.
Qed.

Lemma save_points_trace dm :
  Forall is_output (fst (save_points FE env raw_xyz p sPrefix dm)).
Proof.
  unfold save_points.
  apply bind_trace_Forall; [apply CFileOutputStream_trace|intros _].
  apply bind_trace_Forall.
  { unfold for_loop. apply for_each_trace_Forall. intros k s.
    apply bind_trace_Forall; [apply vec_at_trace|intros]. apply print_point_trace. }
  intros _.
  apply bind_trace_Forall; [apply CFileOutputStream_trace|intros _].
  apply bind_trace_Forall.
  { unfold for_loop. apply for_each_trace_Forall. intros k s.
    apply bind_trace_Forall; [apply vec_at_trace|intros]. apply print_point_trace. }
  intros _.
  rewrite !bind_emit. simpl.
  constructor; [exact I|].
  destruct (fe_saveMetricMapRepresentationToFile FE dm _); simpl;
    [|constructor].
  constructor; [exact I|].
  destruct (fe_saveAsMatlab3DGraph FE dm _); constructor.
Qed.

Lemma print_loop_ok_inv file (idx : nat -> nat) (index : nat -> Z) n t u :
  (forall k i, nth_error (pts_indices p) (idx k) = Some i -> index k = i) ->
  for_loop n (fun k (_ : unit) =>
                i <- vec_at (pts_indices p) (idx k) ;;
                print_point raw_xyz file (Z.to_nat i)) tt = (t, Ok u) ->
  t = map (print_event file raw_xyz) (map index (seq 0 n)).
Proof.
  intros Hidx H. unfold for_loop in H. rewrite map_map.
  eapply (for_each_trace_exact (fun k => print_event file raw_xyz (index k)));
    [|exact H].
  intros k s t0 s' Hk. inv_bind Hk.
  apply vec_at_ok_inv in H0. destruct H0 as [Hi ->].
  apply print_point_ok_inv in Hk. subst. simpl.
  now rewrite (Hidx k a Hi).
Qed.

Lemma save_points_ok_inv dm t u :
  save_points FE env raw_xyz p sPrefix dm = (t, Ok u) -> t = output_events raw_xyz p sPrefix.
Proof.
  unfold save_points. intros H.
  inv_bind H. apply CFileOutputStream_ok_inv in H0. subst.
  inv_bind H.
  apply (print_loop_ok_inv _ (fun k => k) (insertion_index p)) in H0.
  2:{ intros k i Hi. unfold insertion_index. now apply nth_error_nth_default. }
  subst.
  inv_bind H. apply CFileOutputStream_ok_inv in H0. subst.
  inv_bind H.
  apply (print_loop_ok_inv _
           (fun k => Z.to_nat ((Z.of_nat k + N_insert_pts p) mod SIZE_MODULUS))
           (checkpoint_index p)) in H0.
  2:{ intros k i Hi. unfold checkpoint_index. now apply nth_error_nth_default. }
  subst.
  rewrite !bind_emit in H.
  destruct (fe_saveMetricMapRepresentationToFile FE dm _); [|discriminate].
  destruct (fe_saveAsMatlab3DGraph FE dm _); [|discriminate].
  inversion H. unfold output_events, insertion_set, checkpoint_set,
    fil_pts_map, fil_pts_chk.
  reflexivity.
Qed.

End Output.

Lemma show_window_run env cfg :
  show_window env cfg = (window_events env cfg, Ok tt).
Proof.
  unfold show_window, window_events.
  destruct (env_has_wxwidgets env && negb (arg_no_gui cfg)); reflexivity.
Qed.

Lemma window_events_output env cfg : Forall is_output (window_events env cfg).
Proof.
  unfold window_events.
  destruct (env_has_wxwidgets env && negb (arg_no_gui cfg)); repeat constructor.
Qed.

(** ** The whole run *)

Section Run.

Variable FE : FieldEstimator.
Variable round : double -> Z.
Variable nth_element : list double -> nat -> list double.
Variable uninitialized : nat -> double.
Variable env : Env.

Lemma main_trace :
  fst (main FE round nth_element uninitialized env)
  = fst (dem_gmrf_main FE round nth_element uninitialized env).
Proof.
  unfold main.
  destruct (dem_gmrf_main FE round nth_element uninitialized env)
    as [t [z| |]]; reflexivity.
Qed.

Lemma main_result :
  snd (main FE round nth_element uninitialized env)
  = match snd (dem_gmrf_main FE round nth_element uninitialized env) with
    | Exception => Ok 1
    | r => r
    end.
Proof.
  unfold main.
  destruct (dem_gmrf_main FE round nth_element uninitialized env)
    as [t [z| |]]; reflexivity.
Qed.

Lemma main_ok_0 :
  snd (main FE round nth_element uninitialized env) = Ok 0 ->
  snd (dem_gmrf_main FE round nth_element uninitialized env) = Ok 0.
Proof.
  rewrite main_result.
  destruct (snd (dem_gmrf_main FE round nth_element uninitialized env));
    intros H; try discriminate; exact H.
Qed.

(** Every run of stages 4 to 9: the set-up, then insertions, then nothing or
    the estimation followed by the validation and the outputs. *)
Lemma build_dem_shape cfg raw_xyz p bb :
  exists t_ins t_rest,
    fst (build_dem FE nth_element uninitialized env cfg raw_xyz
                   (cols raw_xyz =? 3)%nat p bb)
    = setup_events cfg bb ++ t_ins ++ t_rest /\
    Forall (insert_rule cfg raw_xyz) t_ins /\
    (t_rest = [] \/
     exists t_val t_out,
       t_rest = EvUpdateMapEstimation :: t_val ++ t_out /\
       Forall is_validation t_val /\ Forall is_output t_out /\
       (N_chk_pts p = 0 -> t_val = [])).
Proof.
  unfold build_dem.
  rewrite bind_trace, init_dem_map_run. cbn [fst snd].
  destruct (fe_setSize FE _ _ _ _ _ _) as [dm1|].
  2:{ exists [], []. rewrite !app_nil_r. auto. }
  rewrite bind_trace.
  pose proof (insert_points_trace FE cfg raw_xyz p dm1) as Hins.
  destruct (insert_points FE cfg raw_xyz (cols raw_xyz =? 3)%nat p dm1)
    as [t5 r5]. cbn [fst snd] in *.
  exists t5.
  destruct r5 as [dm2| |].
  2,3: exists []; rewrite !app_nil_r; auto.
  rewrite bind_trace, update_gmrf_run. cbn [fst snd].
  destruct (fe_updateMapEstimation FE dm2) as [dm3|].
  2:{ eexists. split; [reflexivity|]. split; [exact Hins|]. right.
      exists [], []. repeat split; auto. }
  rewrite bind_trace.
  eexists. split; [reflexivity|]. split; [exact Hins|]. right.
  simpl app.
  exists (fst (if N_chk_pts p =? 0 then ret dm3
               else eval_checkpoints FE nth_element uninitialized env raw_xyz p
                                     (arg_out_prefix cfg) dm3)).
  eexists. split; [reflexivity|]. split; [|split].
  - destruct (N_chk_pts p =? 0); [constructor|apply eval_checkpoints_trace].
  - destruct (snd _); [|constructor..].
    apply bind_trace_Forall; [apply save_points_trace|intros _].
    apply bind_trace_Forall; [|intros; apply ret_trace].
    rewrite show_window_run. apply window_events_output.
  - intros ->. reflexivity.
Qed.

(** A run of stages 4 to 9 that ends well. *)
Lemma build_dem_ok_inv cfg raw_xyz p bb t z :
  build_dem FE nth_element uninitialized env cfg raw_xyz
            (cols raw_xyz =? 3)%nat p bb = (t, Ok z) ->
  z = 0 /\
  exists t_val,
    t = setup_events cfg bb ++
        map (insert_event cfg raw_xyz) (insertion_set p) ++
        EvUpdateMapEstimation :: t_val ++
        output_events raw_xyz p (arg_out_prefix cfg) ++
        window_events env cfg /\
    (N_chk_pts p = 0 -> t_val = []) /\
    (N_chk_pts p <> 0 ->
     exists outs files,
       length outs = length (checkpoint_set p) /\
       t_val = validation_events raw_xyz p (arg_out_prefix cfg) outs files /\
       length files = 2%nat /\
       Forall (residual_files (arg_out_prefix cfg)) files).
Proof.
  unfold build_dem. intros H.
  inv_bind H. rewrite init_dem_map_run in H0.
  inversion H0 as [[Ht Hr]]. clear H0 Hr. subst.
  inv_bind H. apply insert_points_ok_inv in H0. subst.
  inv_bind H. rewrite update_gmrf_run in H0.
  inversion H0 as [[Ht Hr]]. clear H0 Hr. subst.
  inv_bind H. rename H0 into H7.
  inv_bind H. apply save_points_ok_inv in H0. subst.
  inv_bind H. rewrite show_window_run in H0. inversion H0. subst.
  apply ret_ok_inv in H. destruct H as [-> <-].
  split; [reflexivity|].
  exists t. split; [|split].
  - rewrite app_nil_r. reflexivity.
  - intros E. rewrite E in H7. simpl in H7. now inversion H7.
  - intros E. apply Z.eqb_neq in E. rewrite E in H7.
    apply eval_checkpoints_ok_inv in H7.
    destruct H7 as (outs & files & Lo & -> & Lf & Hf).
    exists outs, files. auto.
Qed.

(** The ways [dem_gmrf_main] goes: it stops before stage 4 without a call to
    the estimator, or it is stages 4 to 9 on the loaded table. *)
Lemma dem_gmrf_main_cases :
  match env_parse env with
  | None => dem_gmrf_main FE round nth_element uninitialized env = ([], Ok 1)
  | Some cfg =>
    dem_gmrf_main FE round nth_element uninitialized env = ([], Exception) \/
    (exists raw_xyz,
        env_load env (arg_in_file cfg) = Some raw_xyz /\
        (3 <= cols raw_xyz)%nat /\
        snd (determine_bounding_box raw_xyz) = Undefined /\
        dem_gmrf_main FE round nth_element uninitialized env = ([], Undefined)) \/
    (exists raw_xyz bb,
        env_file_exists env (arg_in_file cfg) = true /\
        env_load env (arg_in_file cfg) = Some raw_xyz /\
        (3 <= cols raw_xyz)%nat /\
        determine_bounding_box raw_xyz = ([], Ok bb) /\
        dge (arg_checkpoints_ratio cfg) lit_0_0 &&
        dle (arg_checkpoints_ratio cfg) lit_1_0 = true /\
        dem_gmrf_main FE round nth_element uninitialized env
        = build_dem FE nth_element uninitialized env cfg raw_xyz
                    (cols raw_xyz =? 3)%nat (partition_of round env cfg raw_xyz) bb)
  end.
Proof.
  unfold dem_gmrf_main. destruct (env_parse env) as [cfg|]; [|reflexivity].
  unfold ASSERT_.
  destruct (env_file_exists env (arg_in_file cfg)) eqn:Hf; [|left; reflexivity].
  rewrite bind_ret_l, call_cases.
  destruct (env_load env (arg_in_file cfg)) as [raw|] eqn:Hl;
    [|left; reflexivity].
  rewrite bind_ret_l.
  destruct (3 <=? cols raw)%nat eqn:Hc; [|left; reflexivity].
  rewrite bind_ret_l. apply Nat.leb_le in Hc.
  pose proof (determine_bounding_box_silent raw) as Hs.
  destruct (determine_bounding_box raw) as [tb [bb| |]] eqn:Hb;
    cbn [fst] in Hs; subst tb.
  - change (@nil Event, Ok bb) with (ret bb). rewrite bind_ret_l.
    destruct (dge (arg_checkpoints_ratio cfg) lit_0_0 &&
              dle (arg_checkpoints_ratio cfg) lit_1_0) eqn:Hr;
      [|left; reflexivity].
    rewrite bind_ret_l. right. right. exists raw, bb.
    split; [reflexivity|]. split; [reflexivity|]. split; [exact Hc|].
    split; [exact Hb|]. split; reflexivity.
  - left. reflexivity.
  - right. left. exists raw. split; [reflexivity|]. split; [exact Hc|].
    rewrite Hb. split; reflexivity.
Qed.

End Run.

(** ** Kinds of events *)

Lemma insert_rule_deferred cfg raw e : insert_rule cfg raw e -> deferred e.
Proof. destruct e; simpl; tauto. Qed.

Lemma insert_rule_insert cfg raw e : insert_rule cfg raw e -> is_insert e.
Proof. destruct e; simpl; tauto. Qed.

Lemma insert_events_insert cfg raw l :
  Forall is_insert (map (insert_event cfg raw) l).
Proof. apply Forall_map, Forall_forall. intros; exact I. Qed.

Lemma insert_events_deferred cfg raw l :
  Forall deferred (map (insert_event cfg raw) l).
Proof. apply Forall_map, Forall_forall. intros; reflexivity. Qed.

Lemma setup_not_insert e : is_setup e -> ~ is_insert e.
Proof. destruct e; simpl; tauto. Qed.

Lemma validation_not_insert e : is_validation e -> ~ is_insert e.
Proof. destruct e; unfold is_validation; simpl; tauto. Qed.

Lemma output_not_insert e : is_output e -> ~ is_insert e.
Proof. destruct e; simpl; tauto. Qed.

Lemma setup_not_validation e : is_setup e -> ~ is_validation e.
Proof. destruct e; unfold is_validation; simpl; tauto. Qed.

Lemma insert_not_validation e : is_insert e -> ~ is_validation e.
Proof. destruct e; unfold is_validation; simpl; tauto. Qed.

Lemma output_not_validation e : is_output e -> ~ is_validation e.
Proof. destruct e; unfold is_validation; simpl; tauto. Qed.

Lemma setup_not_heavy e : is_setup e -> ~ is_heavy e.
Proof. destruct e; unfold is_heavy; simpl; tauto. Qed.

Lemma residual_files_save_vector prefix e :
  residual_files prefix e -> is_save_vector e.
Proof. destruct e; simpl; tauto. Qed.

Lemma output_events_output raw p prefix :
  Forall is_output (output_events raw p prefix).
Proof.
  unfold output_events.
  constructor; [exact I|]. apply Forall_app. split.
  { apply Forall_map, Forall_forall. intros; exact I. }
  constructor; [exact I|]. apply Forall_app. split.
  { apply Forall_map, Forall_forall. intros; exact I. }
  repeat constructor.
Qed.

Lemma predictions_of_predict raw p outs :
  Forall is_predict (predictions_of raw p outs).
Proof.
  unfold predictions_of. apply Forall_flat_map, Forall_forall.
  intros io _. repeat constructor.
Qed.

(** Where the insertions end: a trace that is insertions followed by nothing
    or by an event that is not one splits in one way only. *)
Lemma insertions_unique (l1 r1 l2 r2 : list Event) :
  Forall is_insert l1 -> Forall is_insert l2 ->
  (forall e tl, r1 = e :: tl -> ~ is_insert e) ->
  (forall e tl, r2 = e :: tl -> ~ is_insert e) ->
  l1 ++ r1 = l2 ++ r2 -> l1 = l2 /\ r1 = r2.
Proof.
  intros H1. revert l2. induction H1 as [|e l1 He H1 IH]; intros l2 H2 N1 N2 E.
  - destruct H2 as [|e2 l2 He2 H2]; [auto|]. simpl in E.
    exfalso. exact (N1 _ _ E He2).
  - destruct H2 as [|e2 l2 He2 H2]; simpl in E.
    + exfalso. symmetry in E. exact (N2 _ _ E He).
    + injection E as -> E. destruct (IH l2 H2 N1 N2 E) as [-> ->]. auto.
Qed.

(** ** Runs that end well, and runs in general *)

Section Pipeline.

Variable FE : FieldEstimator.
Variable round : double -> Z.
Variable nth_element : list double -> nat -> list double.
Variable uninitialized : nat -> double.
Variable env : Env.

(** A run that returns 0 loaded a table and went through stages 4 to 9. *)
Lemma main_ok_inv cfg raw_xyz :
  env_parse env = Some cfg ->
  env_load env (arg_in_file cfg) = Some raw_xyz ->
  snd (main FE round nth_element uninitialized env) = Ok 0 ->
  exists bb,
    build_dem FE nth_element uninitialized env cfg raw_xyz
              (cols raw_xyz =? 3)%nat (partition_of round env cfg raw_xyz) bb
    = (fst (main FE round nth_element uninitialized env), Ok 0).
Proof.
  intros Hp Hl H0. apply main_ok_0 in H0. rewrite main_trace.
  pose proof (dem_gmrf_main_cases FE round nth_element uninitialized env) as C.
  rewrite Hp in C.
  destruct C as [E|[(raw' & _ & _ & _ & E)|(raw' & bb & _ & Hl' & _ & _ & _ & E)]].
  - rewrite E in H0. discriminate.
  - rewrite E in H0. discriminate.
  - rewrite Hl in Hl'. injection Hl' as <-. exists bb.
    rewrite E in *.
    destruct (build_dem _ _ _ _ _ _ _ _ _) as [t r]. simpl in *. now subst.
Qed.

(** A run that returns 0 parsed its options and loaded a table. *)
Lemma main_ok_loaded :
  snd (main FE round nth_element uninitialized env) = Ok 0 ->
  exists cfg raw_xyz,
    env_parse env = Some cfg /\
    env_load env (arg_in_file cfg) = Some raw_xyz.
Proof.
  intros H0. apply main_ok_0 in H0.
  pose proof (dem_gmrf_main_cases FE round nth_element uninitialized env) as C.
  destruct (env_parse env) as [cfg|].
  - destruct C as [E|[(raw' & _ & _ & _ & E)|(raw' & bb & _ & Hl' & _)]].
    + rewrite E in H0. discriminate.
    + rewrite E in H0. discriminate.
    + exists cfg, raw'. auto.
  - rewrite C in H0. discriminate.
Qed.

(** Any run: no call at all and no return of 0, or the calls of stages 4 to 9
    on the loaded table. *)
Lemma main_trace_cases :
  (fst (main FE round nth_element uninitialized env) = [] /\
   snd (main FE round nth_element uninitialized env) <> Ok 0) \/
  exists cfg raw_xyz bb,
    env_parse env = Some cfg /\
    env_load env (arg_in_file cfg) = Some raw_xyz /\
    dem_gmrf_main FE round nth_element uninitialized env
    = build_dem FE nth_element uninitialized env cfg raw_xyz
                (cols raw_xyz =? 3)%nat (partition_of round env cfg raw_xyz) bb.
Proof.
  rewrite main_trace, main_result.
  pose proof (dem_gmrf_main_cases FE round nth_element uninitialized env) as C.
  destruct (env_parse env) as [cfg|].
  - destruct C as [E|[(raw' & _ & _ & _ & E)|(raw' & bb & _ & Hl' & _ & _ & _ & E)]].
    + left. rewrite E. split; [reflexivity|discriminate].
    + left. rewrite E. split; [reflexivity|discriminate].
    + right. exists cfg, raw', bb. auto.
  - left. rewrite C. split; [reflexivity|discriminate].
Qed.

(** A run through stages 4 to 9 that returns 0. *)
Lemma build_dem_main_ok cfg raw_xyz p bb :
  dem_gmrf_main FE round nth_element uninitialized env
  = build_dem FE nth_element uninitialized env cfg raw_xyz
              (cols raw_xyz =? 3)%nat p bb ->
  snd (main FE round nth_element uninitialized env) = Ok 0 ->
  build_dem FE nth_element uninitialized env cfg raw_xyz
            (cols raw_xyz =? 3)%nat p bb
  = (fst (main FE round nth_element uninitialized env), Ok 0).
Proof.
  intros E H0. apply main_ok_0 in H0. rewrite main_trace, E in *.
  destruct (build_dem _ _ _ _ _ _ _ _ _) as [t r]. simpl in *. now subst.
Qed.

End Pipeline.

(** ** Runs on a well-formed table *)

Lemma determine_bounding_box_ok raw :
  wf_matrix raw -> (3 <= cols raw)%nat ->
  determine_bounding_box raw
  = ret (bbox_expand (fold_left bbox_add_row (mat_rows raw) bbox_init)).
Proof.
  intros Hwf Hc. unfold determine_bounding_box.
  now rewrite (bbox_scan_fold raw Hwf Hc), bind_ret_l.
Qed.

Lemma checking_estimator_rejects : rejects_resolution checking_estimator.
Proof.
  intros m x0 x1 y0 y1 res H. simpl. unfold dgt.
  change (SFltb lit_0_0 res) with (dlt lit_0_0 res).
  now rewrite (dle_not_dlt _ _ H).
Qed.

Lemma flat_estimator_accepts : accepts_all flat_estimator.
Proof. repeat split; intros; discriminate. Qed.

(** A ratio that is zero (of either sign) gives no checkpoint. *)
Lemma zero_ratio_valid ratio :
  deq ratio lit_0_0 = true ->
  valid ratio = true /\ dge ratio lit_0_0 && dle ratio lit_1_0 = true /\
  forall x, valid x = true -> is_nan x = false ->
            (forall s, x <> S754_infinity s) ->
            exists s, dmul ratio x = S754_zero s.
Proof.
  intros H. destruct ratio as [s|s| |s m e]; try discriminate.
  - split; [reflexivity|]. split; [destruct s; reflexivity|].
    intros x _ Hn Hi. destruct x as [s'|s'| |s' m e]; try discriminate.
    + eexists; reflexivity.
    + destruct (Hi s' eq_refl).
    + eexists; reflexivity.
  - destruct s; discriminate.
  - exfalso. revert H. unfold deq, SFeqb, SFcompare, lit_0_0.
    destruct s; discriminate.
Qed.

Lemma of_int_count_finite N :
  0 <= N <= INT_MAX ->
  valid (of_int N) = true /\ is_nan (of_int N) = false /\
  forall s, of_int N <> S754_infinity s.
Proof.
  intros HN. destruct N as [|n|n]; [| |lia].
  - rewrite of_int_zero. repeat split; discriminate.
  - destruct (of_int_exact n) as (m & e & -> & Hb & _).
    { unfold INT_MAX in HN. change (2 ^ 53) with 9007199254740992. lia. }
    repeat split; [exact Hb|discriminate].
Qed.

Section ZeroRatio.

Variable round : double -> Z.
Variable env : Env.
Hypothesis round_ok : round_contract round.

Variable N : nat.
Variable ratio : double.
Hypothesis HN : Z.of_nat N <= INT_MAX.
Hypothesis Hzero : deq ratio lit_0_0 = true.

Lemma zero_ratio_no_checkpoints :
  N_chk_pts (pick_random_checkpoints round env N ratio) = 0.
Proof.
  destruct (zero_ratio_valid ratio Hzero) as (Hv & Hr & Hmul).
  rewrite (N_chk_pts_eq round env round_ok N ratio HN Hv Hr).
  destruct (of_int_count_finite (Z.of_nat N) ltac:(lia)) as (V & Nn & Ni).
  destruct (Hmul _ V Nn Ni) as (s & ->).
  assert (H : 0 <= round (S754_zero s) <= 0).
  { apply round_ok; try reflexivity; try (unfold INT_MAX; lia);
      destruct s; reflexivity. }
  lia.
Qed.

Lemma zero_ratio_all_inserted :
  N_insert_pts (pick_random_checkpoints round env N ratio) = Z.of_nat N.
Proof.
  destruct (zero_ratio_valid ratio Hzero) as (Hv & Hr & _).
  rewrite (N_insert_pts_eq round env round_ok N ratio HN Hv Hr).
  rewrite zero_ratio_no_checkpoints. lia.
Qed.

End ZeroRatio.

(** ** A run without checkpoints that nothing refuses *)

Section Progress.

Variable FE : FieldEstimator.
Variable nth_element : list double -> nat -> list double.
Variable uninitialized : nat -> double.
Variable env : Env.
Variable cfg : Config.
Variable raw_xyz : CMatrix.
Variable p : Partition.

Hypothesis Haccepts : accepts_all FE.
Hypothesis Hwritable : forall file, env_writable env file = true.
Hypothesis Hwf : wf_matrix raw_xyz.
Hypothesis Hcols : (3 <= cols raw_xyz)%nat.
Hypothesis Hperm :
  Permutation (pts_indices p) (map Z.of_nat (seq 0 (rows raw_xyz))).
Hypothesis Hins : N_insert_pts p = Z.of_nat (rows raw_xyz).
Hypothesis Hchk : N_chk_pts p = 0.

Lemma index_row k :
  (k < rows raw_xyz)%nat ->
  exists i r, nth_error (pts_indices p) k = Some i /\
              nth_error (mat_rows raw_xyz) (Z.to_nat i) = Some r /\
              readable raw_xyz r.
Proof.
  intros Hk.
  assert (L : length (pts_indices p) = rows raw_xyz).
  { rewrite (Permutation_length Hperm). now rewrite length_map, length_seq. }
  destruct (nth_error (pts_indices p) k) as [i|] eqn:Hi.
  2:{ apply nth_error_None in Hi. lia. }
  assert (Hin : In i (map Z.of_nat (seq 0 (rows raw_xyz)))).
  { eapply Permutation_in; [exact Hperm|]. eapply nth_error_In, Hi. }
  apply in_map_iff in Hin. destruct Hin as (j & <- & Hj).
  apply in_seq in Hj.
  destruct (nth_error (mat_rows raw_xyz) j) as [r|] eqn:Hr.
  2:{ apply nth_error_None in Hr. unfold rows in Hj. lia. }
  exists (Z.of_nat j), r. rewrite Nat2Z.id. repeat split; auto.
  - unfold wf_matrix in Hwf. rewrite Forall_forall in Hwf.
    destruct (Hwf r (nth_error_In _ _ Hr)) as [Lr _].
    unfold cols in Hcols. lia.
  - unfold wf_matrix in Hwf. rewrite Forall_forall in Hwf.
    destruct (Hwf r (nth_error_In _ _ Hr)) as [Lr _].
    unfold cols in *. lia.
Qed.

Lemma insert_points_ok dm :
  exists t dm',
    insert_points FE cfg raw_xyz (cols raw_xyz =? 3)%nat p dm = (t, Ok dm').
Proof.
  unfold insert_points, for_loop. apply for_each_ok. intros k s Hk.
  apply in_seq in Hk. rewrite Hins, Nat2Z.id in Hk.
  destruct (index_row k ltac:(lia)) as (i & r & Hi & Hr & Hread).
  rewrite (insert_point_run FE cfg raw_xyz p k s i r Hi Hr Hread).
  destruct Haccepts as (_ & Hi' & _).
  destruct (fe_insertIndividualReading FE s _ _ _ _ _ _) as [m|] eqn:E.
  - eauto.
  - destruct (Hi' _ _ _ _ _ _ _ E).
Qed.

Lemma print_loop_ok file :
  exists t,
    for_loop (Z.to_nat (N_insert_pts p))
      (fun k (_ : unit) =>
         i <- vec_at (pts_indices p) k ;;
         print_point raw_xyz file (Z.to_nat i)) tt = (t, Ok tt).
Proof.
  assert (H : exists t (u : unit),
             for_loop (Z.to_nat (N_insert_pts p))
               (fun k (_ : unit) =>
                  i <- vec_at (pts_indices p) k ;;
                  print_point raw_xyz file (Z.to_nat i)) tt = (t, Ok u)).
  { unfold for_loop. apply for_each_ok. intros k s Hk.
    apply in_seq in Hk. rewrite Hins, Nat2Z.id in Hk.
    destruct (index_row k ltac:(lia)) as (i & r & Hi & Hr & [H3 _]).
    rewrite (vec_at_Some _ _ _ Hi), bind_ret_l.
    rewrite (print_point_run raw_xyz file i r Hr H3). eauto. }
  destruct H as (t & [] & H). eauto.
Qed.

Lemma save_points_ok sPrefix dm :
  snd (save_points FE env raw_xyz p sPrefix dm) = Ok tt.
Proof.
  unfold save_points.
  rewrite bind_result, CFileOutputStream_run, Hwritable. cbn [snd].
  destruct (print_loop_ok (sPrefix ++ "_pts_map.txt")%string) as (t1 & E1).
  rewrite bind_result, E1. cbn [snd].
  rewrite bind_result, CFileOutputStream_run, Hwritable. cbn [snd].
  rewrite Hchk. change (Z.to_nat 0) with 0%nat.
  rewrite bind_result. cbn [for_loop seq for_each ret snd].
  destruct Haccepts as (_ & _ & _ & Hm & Hg).
  rewrite !bind_emit. cbn [snd].
  destruct (fe_saveMetricMapRepresentationToFile FE dm _) as [[]|] eqn:Em;
    [|destruct (Hm _ _ Em)].
  rewrite call_cases, bind_ret_l. cbn [snd].
  destruct (fe_saveAsMatlab3DGraph FE dm _) as [[]|] eqn:Eg;
    [|destruct (Hg _ _ Eg)].
  reflexivity.
Qed.

Lemma build_dem_no_checkpoints_ok bb :
  snd (build_dem FE nth_element uninitialized env cfg raw_xyz
                 (cols raw_xyz =? 3)%nat p bb) = Ok 0.
Proof.
  unfold build_dem.
  rewrite bind_result, init_dem_map_run. cbn [snd].
  destruct Haccepts as (Hs & _ & Hu & _).
  destruct (fe_setSize FE _ _ _ _ _ _) as [dm1|] eqn:E1; [|destruct (Hs _ _ _ _ _ _ E1)].
  destruct (insert_points_ok dm1) as (t5 & dm2 & E5).
  rewrite bind_result, E5. cbn [snd].
  rewrite bind_result, update_gmrf_run. cbn [snd].
  destruct (fe_updateMapEstimation FE dm2) as [dm3|] eqn:E6;
    [|destruct (Hu _ E6)].
  rewrite bind_result, Hchk. cbn [Z.eqb ret snd].
  rewrite bind_result, save_points_ok.
  rewrite bind_result, show_window_run. reflexivity.
Qed.

End Progress.

(** ** The order of the calls to the estimator *)

Section Order.

Variable FE : FieldEstimator.
Variable round : double -> Z.
Variable nth_element : list double -> nat -> list double.
Variable uninitialized : nat -> double.
Variable env : Env.

(** C7: the calls of any run of [main] are the set-up of the map, then
    insertions that all pass [updateNow = false], then either nothing (the
    run ended before stage 6) or one [updateMapEstimation] followed only by
    predictions, saved vectors and outputs: the estimation is never called
    twice, never before an insertion and never after a prediction.  A run
    that returns 0 calls it (so exactly once), after one insertion for each
    index of the insertion set, in order. *)
Theorem solve_once_after_insertions :
  exists t_setup t_ins t_rest,
    fst (main FE round nth_element uninitialized env)
    = t_setup ++ t_ins ++ t_rest /\
    Forall is_setup t_setup /\
    Forall deferred t_ins /\
    (t_rest = [] \/
     exists t_after,
       t_rest = EvUpdateMapEstimation :: t_after /\
       Forall (fun e => is_validation e \/ is_output e) t_after) /\
    (snd (main FE round nth_element uninitialized env) = Ok 0 ->
     t_rest <> [] /\
     exists cfg raw_xyz,
       env_parse env = Some cfg /\
       env_load env (arg_in_file cfg) = Some raw_xyz /\
       t_ins = map (insert_event cfg raw_xyz)
                   (insertion_set (partition_of round env cfg raw_xyz))).
Proof.
  destruct (main_trace_cases FE round nth_element uninitialized env)
    as [[E N0]|(cfg & raw & bb & Hp & Hl & E)].
  { exists [], [], []. rewrite E. repeat split; auto; contradiction. }
  set (p := partition_of round env cfg raw) in *.
  destruct (build_dem_shape FE nth_element uninitialized env cfg raw p bb)
    as (t_ins & t_rest & Ht & Hins & Hrest).
  exists (setup_events cfg bb), t_ins, t_rest.
  split; [rewrite main_trace, E; exact Ht|].
  split; [apply setup_events_setup|].
  split; [eapply Forall_impl; [apply insert_rule_deferred|exact Hins]|].
  split.
  { destruct Hrest as [->|(tv & to & -> & Hv & Ho & _)]; [now left|right].
    exists (tv ++ to). split; [reflexivity|]. apply Forall_app. split.
    - eapply Forall_impl; [|exact Hv]. auto.
    - eapply Forall_impl; [|exact Ho]. auto. }
  intros H0.
  pose proof (build_dem_main_ok FE round nth_element uninitialized env
                                cfg raw p bb E H0) as Hb.
  apply build_dem_ok_inv in Hb. destruct Hb as (_ & tv & Hb & _).
  rewrite main_trace, E, Ht in Hb.
  apply app_inv_head in Hb.
  apply insertions_unique in Hb.
  - destruct Hb as [-> ->]. split; [discriminate|]. exists cfg, raw. auto.
  - eapply Forall_impl; [apply insert_rule_insert|exact Hins].
  - apply insert_events_insert.
  - intros e tl Et.
    destruct Hrest as [->|(tv' & to & -> & _)]; [discriminate|].
    injection Et as <- _. simpl. tauto.
  - intros e tl Et. injection Et as <- _. simpl. tauto.
Qed.

(** A loop of stage 5 that ends well has read, for each index of the
    insertion set, a row of the table that has the columns it needs. *)
Lemma insert_points_ok_rows cfg raw_xyz p dm t dm' :
  insert_points FE cfg raw_xyz (cols raw_xyz =? 3)%nat p dm = (t, Ok dm') ->
  Forall (fun i => exists r,
              nth_error (mat_rows raw_xyz) (Z.to_nat i) = Some r /\
              readable raw_xyz r)
         (insertion_set p).
Proof.
  unfold insert_points, for_loop, insertion_set. intros H.
  apply Forall_forall. intros i Hi. apply in_map_iff in Hi.
  destruct Hi as (k & <- & Hk).
  destruct (for_each_ok_body _ _ _ _ _ H k Hk) as (s1 & t1 & s2 & Hb).
  destruct (insert_point_cases FE cfg raw_xyz p k s1)
    as [(i & r & Hi & Hr & Hrd & _)|E].
  - exists r. unfold insertion_index.
    rewrite (nth_error_nth_default _ _ _ 0 Hi). auto.
  - rewrite E in Hb. discriminate.
Qed.

(** Stages 4 to 9 that end well went through the loop of stage 5. *)
Lemma build_dem_ok_insert_points cfg raw_xyz p bb t z :
  build_dem FE nth_element uninitialized env cfg raw_xyz
            (cols raw_xyz =? 3)%nat p bb = (t, Ok z) ->
  exists dm t5 dm',
    insert_points FE cfg raw_xyz (cols raw_xyz =? 3)%nat p dm = (t5, Ok dm').
Proof.
  unfold build_dem. intros H. inv_bind H. inv_bind H. eauto.
Qed.

(** The insertion stage 5 makes for an index whose row can be read. *)
Lemma insert_event_row cfg raw_xyz i r :
  nth_error (mat_rows raw_xyz) (Z.to_nat i) = Some r ->
  readable raw_xyz r ->
  exists x y z stddev,
    nth_error r 0 = Some x /\ nth_error r 1 = Some y /\
    nth_error r 2 = Some z /\
    (if (cols raw_xyz =? 3)%nat
     then stddev = arg_std_observations cfg
     else nth_error r 3 = Some stddev) /\
    insert_event cfg raw_xyz i = EvInsert z x y false true stddev.
Proof.
  intros Hr [H3 H4].
  exists (px r), (py r), (pz r), (stddev_of cfg raw_xyz r).
  split; [apply nth_error_nth'; lia|].
  split; [apply nth_error_nth'; lia|].
  split; [apply nth_error_nth'; lia|].
  split.
  - unfold stddev_of. destruct (Nat.eqb_spec (cols raw_xyz) 3) as [E|E];
      [reflexivity|]. apply nth_error_nth'. auto.
  - unfold insert_event, row_of.
    now rewrite (nth_error_nth_default _ _ _ [] Hr).
Qed.

(** The calls of a run that returns 0: around the insertions of the rows of
    the insertion set, in order, there is no other insertion. *)
Lemma main_ok_insertions cfg raw_xyz :
  env_parse env = Some cfg ->
  env_load env (arg_in_file cfg) = Some raw_xyz ->
  snd (main FE round nth_element uninitialized env) = Ok 0 ->
  exists t_setup t_rest,
    fst (main FE round nth_element uninitialized env)
    = t_setup ++
      map (insert_event cfg raw_xyz)
          (insertion_set (partition_of round env cfg raw_xyz)) ++ t_rest /\
    Forall (fun e => ~ is_insert e) t_setup /\
    Forall (fun e => ~ is_insert e) t_rest /\
    Forall (fun i => exists r,
                nth_error (mat_rows raw_xyz) (Z.to_nat i) = Some r /\
                readable raw_xyz r)
           (insertion_set (partition_of round env cfg raw_xyz)).
Proof.
  intros Hp Hl H0.
  destruct (main_ok_inv FE round nth_element uninitialized env cfg raw_xyz
                        Hp Hl H0) as (bb & Hb).
  set (p := partition_of round env cfg raw_xyz) in *.
  destruct (build_dem_ok_insert_points _ _ _ _ _ _ Hb) as (dm & t5 & dm' & H5).
  apply insert_points_ok_rows in H5.
  destruct (build_dem_shape FE nth_element uninitialized env cfg raw_xyz p bb)
    as (t_ins & t_rest & Ht & Hins & Hrest).
  rewrite Hb in Ht. cbn [fst] in Ht.
  apply build_dem_ok_inv in Hb. destruct Hb as (_ & tv & Hb & _).
  assert (Hrest' : Forall (fun e => ~ is_insert e) t_rest).
  { destruct Hrest as [->|(tv' & to & -> & Hv & Ho & _)]; [constructor|].
    constructor; [simpl; tauto|]. apply Forall_app. split.
    - eapply Forall_impl; [apply validation_not_insert|exact Hv].
    - eapply Forall_impl; [apply output_not_insert|exact Ho]. }
  assert (E : t_ins
              = map (insert_event cfg raw_xyz) (insertion_set p) /\
              t_rest
              = EvUpdateMapEstimation :: tv ++
                output_events raw_xyz p (arg_out_prefix cfg) ++
                window_events env cfg).
  { rewrite Ht in Hb. apply app_inv_head in Hb.
    apply insertions_unique in Hb; [exact Hb| | | |].
    - eapply Forall_impl; [apply insert_rule_insert|exact Hins].
    - apply insert_events_insert.
    - intros e tl Et. rewrite Et in Hrest'. now inversion Hrest'.
    - intros e tl Et. injection Et as <- _. simpl. tauto. }
  destruct E as [E _]. rewrite E in Ht.
  exists (setup_events cfg bb), t_rest.
  split; [exact Ht|]. split; [|split; [exact Hrest'|exact H5]].
  eapply Forall_impl; [apply setup_not_insert|apply setup_events_setup].
Qed.

(** C8: in any run on a loaded table, every insertion passes the
    coordinates of a row of the table and, as standard deviation, the
    default one ([arg_std_observations], 0.20 unless the option is given) when
    the table has exactly three columns, and the fourth column of that row
    otherwise.  A run that returns 0 makes these insertions: one for each
    index of the insertion set, in order and no other, each with the
    coordinates of the row at that index and the standard deviation above,
    read from that same row. *)
Theorem observation_stddev cfg raw_xyz :
  env_parse env = Some cfg ->
  env_load env (arg_in_file cfg) = Some raw_xyz ->
  Forall (fun e => is_insert e -> insert_rule cfg raw_xyz e)
         (fst (main FE round nth_element uninitialized env)) /\
  (snd (main FE round nth_element uninitialized env) = Ok 0 ->
   exists t_setup t_rest,
     fst (main FE round nth_element uninitialized env)
     = t_setup ++
       map (insert_event cfg raw_xyz)
           (insertion_set (partition_of round env cfg raw_xyz)) ++ t_rest /\
     Forall (fun e => ~ is_insert e) t_setup /\
     Forall (fun e => ~ is_insert e) t_rest /\
     Forall (fun i =>
               exists r x y z stddev,
                 nth_error (mat_rows raw_xyz) (Z.to_nat i) = Some r /\
                 nth_error r 0 = Some x /\ nth_error r 1 = Some y /\
                 nth_error r 2 = Some z /\
                 (if (cols raw_xyz =? 3)%nat
                  then stddev = arg_std_observations cfg
                  else nth_error r 3 = Some stddev) /\
                 insert_event cfg raw_xyz i
                 = EvInsert z x y false true stddev)
            (insertion_set (partition_of round env cfg raw_xyz))) /\
  forall input, arg_std_observations (default_config input) = lit_0_20.
Proof.
  intros Hp Hl. split; [|split; [|reflexivity]].
  - destruct (main_trace_cases FE round nth_element uninitialized env)
      as [[E N0]|(cfg' & raw' & bb & Hp' & Hl' & E)].
    { rewrite E. constructor. }
    rewrite Hp in Hp'. injection Hp' as <-.
    rewrite Hl in Hl'. injection Hl' as <-.
    set (p := partition_of round env cfg raw_xyz) in *.
    destruct (build_dem_shape FE nth_element uninitialized env cfg raw_xyz p bb)
      as (t_ins & t_rest & Ht & Hins & Hrest).
    rewrite main_trace, E, Ht.
    apply Forall_app. split; [|apply Forall_app; split].
    + eapply Forall_impl; [|apply setup_events_setup].
      intros e He Hi. destruct (setup_not_insert e He Hi).
    + eapply Forall_impl; [|exact Hins]. auto.
    + destruct Hrest as [->|(tv & to & -> & Hv & Ho & _)]; [constructor|].
      constructor; [simpl; tauto|]. apply Forall_app. split.
      * eapply Forall_impl; [|exact Hv].
        intros e He Hi. destruct (validation_not_insert e He Hi).
      * eapply Forall_impl; [|exact Ho].
        intros e He Hi. destruct (output_not_insert e He Hi).
  - intros H0.
    destruct (main_ok_insertions cfg raw_xyz Hp Hl H0)
      as (t_setup & t_rest & Ht & Hs & Hr & Hrows).
    exists t_setup, t_rest. split; [exact Ht|].
    split; [exact Hs|]. split; [exact Hr|].
    eapply Forall_impl; [|exact Hrows].
    intros i (r & Hrow & Hrd).
    destruct (insert_event_row cfg raw_xyz i r Hrow Hrd)
      as (x & y & z & s & Hx & Hy & Hz & Hsd & He).
    exists r, x, y, z, s. auto 10.
Qed.

End Order.

(** The insertions of the run on the table of four columns carry the fourth
    column of their rows; those of the run on the table of three columns
    carry 0.20. *)
Lemma observation_stddev_witness :
  (exists t_setup t_rest,
      fst (main flat_estimator cvtsd2si nth_element_by_sort stale_ones
                (sample_env (default_config "xyzs.txt") sample_xyzs))
      = t_setup ++
        [EvInsert (of_int 3) (of_int 4) (of_int 3) false true lit_0_01;
         EvInsert (of_int 5) (of_int 0) (of_int 3) false true lit_1_0;
         EvInsert (of_int 2) (of_int 4) (of_int 0) false true lit_0_20;
         EvInsert (of_int 1) (of_int 0) (of_int 0) false true lit_0_01] ++
        t_rest /\
      Forall (fun e => ~ is_insert e) t_setup /\
      Forall (fun e => ~ is_insert e) t_rest) /\
  (exists t_setup t_rest,
      fst (main flat_estimator cvtsd2si nth_element_by_sort stale_ones
                (sample_env (default_config "xyz.txt") sample_xyz))
      = t_setup ++
        [EvInsert (of_int 3) (of_int 4) (of_int 3) false true lit_0_20;
         EvInsert (of_int 5) (of_int 0) (of_int 3) false true lit_0_20;
         EvInsert (of_int 2) (of_int 4) (of_int 0) false true lit_0_20;
         EvInsert (of_int 1) (of_int 0) (of_int 0) false true lit_0_20] ++
        t_rest /\
      Forall (fun e => ~ is_insert e) t_setup /\
      Forall (fun e => ~ is_insert e) t_rest).
Proof.
  split.
  - destruct (observation_stddev flat_estimator cvtsd2si nth_element_by_sort
                stale_ones
                (sample_env (default_config "xyzs.txt") sample_xyzs)
                (default_config "xyzs.txt") sample_xyzs eq_refl eq_refl)
      as (_ & H & _).
    destruct (H ltac:(vm_compute; reflexivity))
      as (t_setup & t_rest & Ht & Hs & Hr & _).
    exists t_setup, t_rest. split; [exact Ht|]. split; assumption.
  - destruct (observation_stddev flat_estimator cvtsd2si nth_element_by_sort
                stale_ones
                (sample_env (default_config "xyz.txt") sample_xyz)
                (default_config "xyz.txt") sample_xyz eq_refl eq_refl)
      as (_ & H & _).
    destruct (H ltac:(vm_compute; reflexivity))
      as (t_setup & t_rest & Ht & Hs & Hr & _).
    exists t_setup, t_rest. split; [exact Ht|]. split; assumption.
Defined.

(** ** The validation and the outputs of a run that ends well *)

Lemma nth_error_combine {A B} (l : list A) (l' : list B) k a b :
  nth_error l k = Some a -> nth_error l' k = Some b ->
  nth_error (combine l l') k = Some (a, b).
Proof.
  revert l l'. induction k as [|k IH]; intros [|x l] [|y l'] Ha Hb;
    try discriminate; simpl in *.
  - now inversion Ha; inversion Hb.
  - now apply IH.
Qed.

Lemma nth_error_pairs {A B} (f g : A -> B) (l : list A) k a :
  nth_error l k = Some a ->
  nth_error (flat_map (fun x => [f x; g x]) l) (2 * k) = Some (f a) /\
  nth_error (flat_map (fun x => [f x; g x]) l) (2 * k + 1) = Some (g a).
Proof.
  revert l. induction k as [|k IH]; intros [|x l] Ha; try discriminate.
  - inversion Ha. auto.
  - replace (2 * S k)%nat with (S (S (2 * k))) by lia.
    replace (S (S (2 * k)) + 1)%nat with (S (S (2 * k + 1))) by lia.
    simpl in Ha. apply (IH l Ha).
Qed.

Lemma setup_not_predict e : is_setup e -> ~ is_predict e.
Proof. destruct e; simpl; tauto. Qed.

Lemma insert_not_predict e : is_insert e -> ~ is_predict e.
Proof. destruct e; simpl; tauto. Qed.

Lemma output_not_predict e : is_output e -> ~ is_predict e.
Proof. destruct e; simpl; tauto. Qed.

Lemma residual_files_not_predict prefix e :
  residual_files prefix e -> ~ is_predict e.
Proof. destruct e; simpl; tauto. Qed.

Lemma setup_not_save_vector e : is_setup e -> ~ is_save_vector e.
Proof. destruct e; simpl; tauto. Qed.

Lemma insert_not_save_vector e : is_insert e -> ~ is_save_vector e.
Proof. destruct e; simpl; tauto. Qed.

Lemma output_not_save_vector e : is_output e -> ~ is_save_vector e.
Proof. destruct e; simpl; tauto. Qed.

Lemma checkpoint_set_length p :
  length (checkpoint_set p) = Z.to_nat (N_chk_pts p).
Proof. unfold checkpoint_set. now rewrite length_map, length_seq. Qed.

Lemma checkpoint_set_empty p : N_chk_pts p = 0 -> checkpoint_set p = [].
Proof. unfold checkpoint_set. intros ->. reflexivity. Qed.

Section Validated.

Variable FE : FieldEstimator.
Variable round : double -> Z.
Variable nth_element : list double -> nat -> list double.
Variable uninitialized : nat -> double.
Variable env : Env.

Variable cfg : Config.
Variable raw_xyz : CMatrix.
Hypothesis Hparse : env_parse env = Some cfg.
Hypothesis Hload : env_load env (arg_in_file cfg) = Some raw_xyz.
Hypothesis Hok : snd (main FE round nth_element uninitialized env) = Ok 0.

(** The trace of a run that returns 0. *)
Lemma main_ok_trace :
  let p := partition_of round env cfg raw_xyz in
  exists bb t_val,
    fst (main FE round nth_element uninitialized env)
    = setup_events cfg bb ++
      map (insert_event cfg raw_xyz) (insertion_set p) ++
      EvUpdateMapEstimation :: t_val ++
      output_events raw_xyz p (arg_out_prefix cfg) ++
      window_events env cfg /\
    (N_chk_pts p = 0 -> t_val = []) /\
    (N_chk_pts p <> 0 ->
     exists outs files,
       length outs = length (checkpoint_set p) /\
       t_val = validation_events raw_xyz p (arg_out_prefix cfg) outs files /\
       length files = 2%nat /\
       Forall (residual_files (arg_out_prefix cfg)) files).
Proof.
  intros p.
  destruct (main_ok_inv FE round nth_element uninitialized env cfg raw_xyz
                        Hparse Hload Hok) as (bb & Hb).
  apply build_dem_ok_inv in Hb. destruct Hb as (_ & tv & Ht & H0 & H1).
  exists bb, tv. auto.
Qed.

(** C6: in a run that returns 0, the predictions asked of the estimator are
    two for each checkpoint, in the order of the checkpoint set: at the
    checkpoint's (x, y), first with the nearest-cell policy, then with the
    bilinear one.  The two residual vectors have one entry for each checkpoint,
    the checkpoint's z minus the height predicted with the policy, and, when
    there are checkpoints, they are what is saved right after the
    predictions. *)
Theorem checkpoint_residuals :
  let p := partition_of round env cfg raw_xyz in
  let sPrefix := arg_out_prefix cfg in
  exists (outs : list Prediction) (pre post : list Event),
    length outs = length (checkpoint_set p) /\
    fst (main FE round nth_element uninitialized env)
    = pre ++ predictions_of raw_xyz p outs ++ post /\
    Forall (fun e => ~ is_predict e) pre /\
    Forall (fun e => ~ is_predict e) post /\
    (N_chk_pts p <> 0 ->
     exists files,
       post = EvSaveVector (sPrefix ++ "_chkpt_residuals_NN.txt")
                           (residuals_NN_of raw_xyz p outs) None ::
              EvSaveVector (sPrefix ++ "_chkpt_residuals_Bi.txt")
                           (residuals_Bi_of raw_xyz p outs) None :: files) /\
    (forall k i o,
        nth_error (checkpoint_set p) k = Some i ->
        nth_error outs k = Some o ->
        let r := row_of raw_xyz i in
        nth_error (predictions_of raw_xyz p outs) (2 * k)
        = Some (EvPredict (px r) (py r) gimNearest (Some (fst o))) /\
        nth_error (predictions_of raw_xyz p outs) (2 * k + 1)
        = Some (EvPredict (px r) (py r) gimBilinear (Some (snd o))) /\
        nth_error (residuals_NN_of raw_xyz p outs) k
        = Some (dsub (pz r) (fst (fst o))) /\
        nth_error (residuals_Bi_of raw_xyz p outs) k
        = Some (dsub (pz r) (fst (snd o)))).
Proof.
  intros p sPrefix.
  destruct main_ok_trace as (bb & tv & Ht & H0 & H1). fold p in Ht, H0, H1.
  assert (Hpre : Forall (fun e => ~ is_predict e)
                   (setup_events cfg bb ++
                    map (insert_event cfg raw_xyz) (insertion_set p) ++
                    [EvUpdateMapEstimation])).
  { apply Forall_app. split; [|apply Forall_app; split].
    - eapply Forall_impl; [apply setup_not_predict|apply setup_events_setup].
    - eapply Forall_impl; [apply insert_not_predict|apply insert_events_insert].
    - repeat constructor. simpl. tauto. }
  assert (Hout : Forall (fun e => ~ is_predict e)
                   (output_events raw_xyz p sPrefix ++ window_events env cfg)).
  { apply Forall_app. split.
    - eapply Forall_impl; [apply output_not_predict|apply output_events_output].
    - eapply Forall_impl; [apply output_not_predict|apply window_events_output]. }
  assert (Hnth : forall outs k i o,
             nth_error (checkpoint_set p) k = Some i ->
             nth_error outs k = Some o ->
             let r := row_of raw_xyz i in
             nth_error (predictions_of raw_xyz p outs) (2 * k)
             = Some (EvPredict (px r) (py r) gimNearest (Some (fst o))) /\
             nth_error (predictions_of raw_xyz p outs) (2 * k + 1)
             = Some (EvPredict (px r) (py r) gimBilinear (Some (snd o))) /\
             nth_error (residuals_NN_of raw_xyz p outs) k
             = Some (dsub (pz r) (fst (fst o))) /\
             nth_error (residuals_Bi_of raw_xyz p outs) k
             = Some (dsub (pz r) (fst (snd o)))).
  { intros outs k i o Hi Ho r.
    pose proof (nth_error_combine _ _ _ _ _ Hi Ho) as Hc.
    unfold predictions_of, residuals_NN_of, residuals_Bi_of, predict_events.
    destruct (nth_error_pairs
                (fun io : Z * Prediction =>
                   EvPredict (px (row_of raw_xyz (fst io)))
                             (py (row_of raw_xyz (fst io))) gimNearest
                             (Some (fst (snd io))))
                (fun io : Z * Prediction =>
                   EvPredict (px (row_of raw_xyz (fst io)))
                             (py (row_of raw_xyz (fst io))) gimBilinear
                             (Some (snd (snd io))))
                _ _ _ Hc) as [E1 E2].
    split; [exact E1|]. split; [exact E2|].
    split; rewrite nth_error_map, Hc; reflexivity. }
  destruct (Z.eq_dec (N_chk_pts p) 0) as [Z0|Z0].
  - exists [], (setup_events cfg bb ++
               map (insert_event cfg raw_xyz) (insertion_set p) ++
               [EvUpdateMapEstimation]),
           (output_events raw_xyz p sPrefix ++ window_events env cfg).
    split; [now rewrite checkpoint_set_empty|].
    split.
    { rewrite Ht, (H0 Z0). unfold predictions_of.
      rewrite combine_nil. simpl. now rewrite <- !app_assoc. }
    split; [exact Hpre|]. split; [exact Hout|].
    split; [contradiction|apply Hnth].
  - destruct (H1 Z0) as (outs & files & Lo & -> & Lf & Hf).
    exists outs, (setup_events cfg bb ++
                  map (insert_event cfg raw_xyz) (insertion_set p) ++
                  [EvUpdateMapEstimation]).
    exists (EvSaveVector (sPrefix ++ "_chkpt_residuals_NN.txt")
                         (residuals_NN_of raw_xyz p outs) None ::
            EvSaveVector (sPrefix ++ "_chkpt_residuals_Bi.txt")
                         (residuals_Bi_of raw_xyz p outs) None ::
            files ++ output_events raw_xyz p sPrefix ++ window_events env cfg).
    split; [exact Lo|].
    split.
    { rewrite Ht. unfold validation_events. rewrite <- !app_assoc.
      reflexivity. }
    split; [exact Hpre|]. split.
    { constructor; [simpl; tauto|]. constructor; [simpl; tauto|].
      apply Forall_app. split; [|exact Hout].
      eapply Forall_impl; [apply residual_files_not_predict|exact Hf]. }
    split; [|apply Hnth]. intros _. eexists. reflexivity.
Qed.

(** C10: stage 9 runs in every run that returns 0, with or without
    checkpoints: it opens [_pts_map.txt] and prints the insertion set, opens
    [_pts_chk.txt] and prints the checkpoint set, and saves the map and its
    3D graph.  With no checkpoint, [_pts_chk.txt] is opened and nothing is
    printed in it, and no vector is saved; with checkpoints, four vectors are
    saved before stage 9, all of them residual files. *)
Theorem outputs_without_checkpoints :
  let p := partition_of round env cfg raw_xyz in
  let sPrefix := arg_out_prefix cfg in
  exists bb t_val,
    fst (main FE round nth_element uninitialized env)
    = setup_events cfg bb ++
      map (insert_event cfg raw_xyz) (insertion_set p) ++
      EvUpdateMapEstimation :: t_val ++
      output_events raw_xyz p sPrefix ++ window_events env cfg /\
    (N_chk_pts p = 0 ->
     t_val = [] /\
     output_events raw_xyz p sPrefix
     = EvFileOpen (sPrefix ++ "_pts_map.txt") ::
       map (print_event (sPrefix ++ "_pts_map.txt") raw_xyz) (insertion_set p) ++
       [EvFileOpen (sPrefix ++ "_pts_chk.txt");
        EvSaveMetricMap (sPrefix ++ "_grmf");
        EvSaveMatlab (sPrefix ++ "_grmf_draw.m")] /\
     Forall (fun e => ~ is_save_vector e)
            (fst (main FE round nth_element uninitialized env))) /\
    (N_chk_pts p <> 0 ->
     exists outs files,
       t_val = validation_events raw_xyz p sPrefix outs files /\
       length files = 2%nat /\
       Forall (residual_files sPrefix) files).
Proof.
  intros p sPrefix.
  destruct main_ok_trace as (bb & tv & Ht & H0 & H1). fold p in Ht, H0, H1.
  exists bb, tv. split; [exact Ht|]. split.
  - intros Z0. split; [exact (H0 Z0)|]. split.
    + unfold output_events, fil_pts_map, fil_pts_chk.
      now rewrite (checkpoint_set_empty p Z0).
    + rewrite Ht, (H0 Z0). apply Forall_app. split; [|apply Forall_app; split].
      * eapply Forall_impl;
          [apply setup_not_save_vector|apply setup_events_setup].
      * eapply Forall_impl;
          [apply insert_not_save_vector|apply insert_events_insert].
      * constructor; [simpl; tauto|]. rewrite app_nil_l.
        apply Forall_app. split.
        -- eapply Forall_impl;
             [apply output_not_save_vector|apply output_events_output].
        -- eapply Forall_impl;
             [apply output_not_save_vector|apply window_events_output].
  - intros Z0. destruct (H1 Z0) as (outs & files & _ & E & Lf & Hf).
    exists outs, files. auto.
Qed.

End Validated.

Lemma checkpoint_residuals_witness :
  let cfg := with_ratio (default_config "xyz.txt") lit_0_5 in
  let env := sample_env cfg sample_xyz in
  let p := partition_of cvtsd2si env cfg sample_xyz in
  exists (outs : list Prediction) (pre post : list Event),
    length outs = 2%nat /\
    fst (main flat_estimator cvtsd2si nth_element_by_sort stale_ones env)
    = pre ++ predictions_of sample_xyz p outs ++ post /\
    nth_error (residuals_NN_of sample_xyz p outs) 0
    = option_map (fun o : Prediction => dsub (of_int 2) (fst (fst o)))
                 (nth_error outs 0).
Proof.
  intros cfg env p.
  destruct (checkpoint_residuals flat_estimator cvtsd2si nth_element_by_sort
              stale_ones env cfg sample_xyz eq_refl eq_refl
              ltac:(vm_compute; reflexivity))
    as (outs & pre & post & Lo & Ht & _ & _ & _ & Hnth).
  exists outs, pre, post. split; [exact Lo|]. split; [exact Ht|].
  destruct outs as [|o outs]; [discriminate Lo|].
  destruct (Hnth 0%nat 1 o eq_refl eq_refl) as (_ & _ & E & _).
  exact E.
Defined.

Lemma outputs_without_checkpoints_witness :
  let cfg := with_ratio (default_config "xyz.txt") lit_0_0 in
  let env := sample_env cfg sample_xyz in
  exists bb,
    fst (main flat_estimator cvtsd2si nth_element_by_sort stale_ones env)
    = setup_events cfg bb ++
      map (insert_event cfg sample_xyz) [3; 2; 1; 0] ++
      EvUpdateMapEstimation ::
      EvFileOpen "demgmrf_out_pts_map.txt" ::
      map (print_event "demgmrf_out_pts_map.txt" sample_xyz) [3; 2; 1; 0] ++
      [EvFileOpen "demgmrf_out_pts_chk.txt";
       EvSaveMetricMap "demgmrf_out_grmf";
       EvSaveMatlab "demgmrf_out_grmf_draw.m"].
Proof.
  intros cfg env.
  destruct (outputs_without_checkpoints flat_estimator cvtsd2si
              nth_element_by_sort stale_ones env cfg sample_xyz eq_refl eq_refl
              ltac:(vm_compute; reflexivity))
    as (bb & tv & Ht & H0 & _).
  destruct (H0 eq_refl) as (-> & Eo & _).
  exists bb. rewrite Ht, Eo. reflexivity.
Defined.

(** ** Configurations that end the run, and the run without checkpoints *)

Section Configuration.

Variable FE : FieldEstimator.
Variable round : double -> Z.
Variable nth_element : list double -> nat -> list double.
Variable uninitialized : nat -> double.
Variable env : Env.

Lemma build_dem_rejected cfg raw_xyz same p bb :
  fe_setSize FE
    (fe_setOptions FE (fe_create FE)
       (ddiv lit_1_0 (square (arg_std_prior cfg)))
       (ddiv lit_1_0 (square (arg_std_observations cfg)))
       (arg_skip_variance cfg))
    (minx bb) (maxx bb) (miny bb) (maxy bb) (arg_dem_resolution cfg) = None ->
  build_dem FE nth_element uninitialized env cfg raw_xyz same p bb
  = (setup_events cfg bb, Exception).
Proof.
  intros H. unfold build_dem. rewrite init_dem_map_run, H. reflexivity.
Qed.

(** The run on a table that is there, readable and well formed, with a ratio
    in [0,1]. *)
Lemma dem_gmrf_main_loaded cfg raw_xyz :
  env_parse env = Some cfg ->
  env_file_exists env (arg_in_file cfg) = true ->
  env_load env (arg_in_file cfg) = Some raw_xyz ->
  wf_matrix raw_xyz -> (3 <= cols raw_xyz)%nat ->
  dge (arg_checkpoints_ratio cfg) lit_0_0 &&
  dle (arg_checkpoints_ratio cfg) lit_1_0 = true ->
  exists bb,
    dem_gmrf_main FE round nth_element uninitialized env
    = build_dem FE nth_element uninitialized env cfg raw_xyz
                (cols raw_xyz =? 3)%nat (partition_of round env cfg raw_xyz) bb.
Proof.
  intros Hp Hf Hl Hwf Hc Hr. eexists.
  unfold dem_gmrf_main. rewrite Hp. unfold ASSERT_.
  rewrite Hf, bind_ret_l, Hl, call_cases, bind_ret_l.
  apply Nat.leb_le in Hc. rewrite Hc, bind_ret_l. apply Nat.leb_le in Hc.
  rewrite (determine_bounding_box_ok raw_xyz Hwf Hc), bind_ret_l.
  rewrite Hr, bind_ret_l. reflexivity.
Qed.

(** C9: with options that parse and a table that, when it loads, is well
    formed, a checkpoint ratio outside [0,1] (or NaN) makes [main] return 1
    without any call to the estimator, and so does, for an estimator that
    refuses a resolution that is not positive, a resolution below or equal to
    zero, the only calls being those that set the map up: no observation is
    inserted, nothing is estimated and nothing predicted. *)
Theorem invalid_configuration_aborts cfg :
  env_parse env = Some cfg ->
  (forall raw_xyz,
      env_load env (arg_in_file cfg) = Some raw_xyz -> wf_matrix raw_xyz) ->
  rejects_resolution FE ->
  dge (arg_checkpoints_ratio cfg) lit_0_0 &&
  dle (arg_checkpoints_ratio cfg) lit_1_0 = false \/
  dle (arg_dem_resolution cfg) lit_0_0 = true ->
  snd (main FE round nth_element uninitialized env) = Ok 1 /\
  Forall (fun e => ~ is_heavy e)
         (fst (main FE round nth_element uninitialized env)) /\
  (dge (arg_checkpoints_ratio cfg) lit_0_0 &&
   dle (arg_checkpoints_ratio cfg) lit_1_0 = false ->
   fst (main FE round nth_element uninitialized env) = []).
Proof.
  intros Hp Hwf Hrej Hbad. rewrite main_result, main_trace.
  pose proof (dem_gmrf_main_cases FE round nth_element uninitialized env) as C.
  rewrite Hp in C.
  destruct C as [E|[(raw & Hl & Hc & Hu & E)
                   |(raw & bb & Hf & Hl & Hc & Hb & Hr & E)]].
  - rewrite E. repeat split; constructor.
  - rewrite (determine_bounding_box_ok raw (Hwf raw Hl) Hc) in Hu.
    discriminate.
  - destruct Hbad as [Hbad|Hbad]; [rewrite Hr in Hbad; discriminate|].
    rewrite E, (build_dem_rejected cfg raw _ _ bb (Hrej _ _ _ _ _ _ Hbad)).
    split; [reflexivity|]. split.
    + eapply Forall_impl; [apply setup_not_heavy|apply setup_events_setup].
    + intros H. rewrite Hr in H. discriminate.
Qed.

(** C5: with a checkpoint ratio that is zero, no run of [main] asks the
    estimator for a prediction or saves a vector (the four residual files are
    the only vectors the program saves); and the run returns 0 when the table
    is there and well formed and neither the estimator nor the file system
    refuses a call. *)
Theorem no_checkpoints_no_validation cfg :
  env_parse env = Some cfg ->
  deq (arg_checkpoints_ratio cfg) lit_0_0 = true ->
  round_contract round ->
  (forall raw_xyz,
      env_load env (arg_in_file cfg) = Some raw_xyz -> fits_int raw_xyz) ->
  Forall (fun e => ~ is_validation e)
         (fst (main FE round nth_element uninitialized env)) /\
  (forall raw_xyz,
      env_file_exists env (arg_in_file cfg) = true ->
      env_load env (arg_in_file cfg) = Some raw_xyz ->
      wf_matrix raw_xyz -> (3 <= cols raw_xyz)%nat ->
      accepts_all FE ->
      (forall file, env_writable env file = true) ->
      snd (main FE round nth_element uninitialized env) = Ok 0).
Proof.
  intros Hp Hz Hround Hfits. split.
  - destruct (main_trace_cases FE round nth_element uninitialized env)
      as [[E _]|(cfg' & raw & bb & Hp' & Hl & E)].
    { rewrite E. constructor. }
    rewrite Hp in Hp'. injection Hp' as <-.
    set (p := partition_of round env cfg raw) in *.
    assert (Hchk : N_chk_pts p = 0).
    { apply zero_ratio_no_checkpoints; auto. apply (Hfits raw Hl). }
    destruct (build_dem_shape FE nth_element uninitialized env cfg raw p bb)
      as (t_ins & t_rest & Ht & Hins & Hrest).
    rewrite main_trace, E, Ht.
    apply Forall_app. split; [|apply Forall_app; split].
    + eapply Forall_impl; [apply setup_not_validation|apply setup_events_setup].
    + eapply Forall_impl; [|exact Hins].
      intros e He. apply insert_not_validation.
      apply (insert_rule_insert _ _ _ He).
    + destruct Hrest as [->|(tv & to & -> & _ & Ho & H0)]; [constructor|].
      rewrite (H0 Hchk), app_nil_l.
      constructor; [unfold is_validation; simpl; tauto|].
      eapply Forall_impl; [apply output_not_validation|exact Ho].
  - intros raw Hf Hl Hwf Hc Hacc Hwr.
    destruct (zero_ratio_valid _ Hz) as (_ & Hr & _).
    destruct (dem_gmrf_main_loaded cfg raw Hp Hf Hl Hwf Hc Hr) as (bb & E).
    pose proof (Hfits raw Hl) as HN. unfold fits_int in HN.
    rewrite main_result, E.
    rewrite (build_dem_no_checkpoints_ok FE nth_element uninitialized env cfg
               raw (partition_of round env cfg raw) Hacc Hwr Hwf Hc).
    + reflexivity.
    + apply pts_indices_Permutation. exact HN.
    + apply zero_ratio_all_inserted; auto.
    + apply zero_ratio_no_checkpoints; auto.
Qed.

End Configuration.

Lemma invalid_configuration_aborts_witness :
  let cfg := with_resolution (default_config "xyz.txt") lit_0_0 in
  let env := sample_env cfg sample_xyz in
  snd (main checking_estimator cvtsd2si nth_element_by_sort stale_ones env)
  = Ok 1 /\
  Forall (fun e => ~ is_heavy e)
         (fst (main checking_estimator cvtsd2si nth_element_by_sort stale_ones
                    env)).
Proof.
  intros cfg env.
  destruct (invalid_configuration_aborts checking_estimator cvtsd2si
              nth_element_by_sort stale_ones env cfg eq_refl
              (fun raw H => eq_ind sample_xyz wf_matrix sample_xyz_wf raw
                              (f_equal (fun o => match o with
                                                 | Some m => m
                                                 | None => sample_xyz
                                                 end) H))
              checking_estimator_rejects (or_intror eq_refl))
    as (H1 & H2 & _).
  split; [exact H1|exact H2].
Defined.

Lemma no_checkpoints_no_validation_witness :
  let cfg := with_ratio (default_config "xyz.txt") lit_0_0 in
  let env := sample_env cfg sample_xyz in
  Forall (fun e => ~ is_validation e)
         (fst (main flat_estimator cvtsd2si nth_element_by_sort stale_ones env))
  /\
  snd (main flat_estimator cvtsd2si nth_element_by_sort stale_ones env) = Ok 0.
Proof.
  intros cfg env.
  assert (Hfits : forall raw,
             env_load env (arg_in_file cfg) = Some raw -> fits_int raw).
  { intros raw H. injection H as <-. unfold fits_int, INT_MAX. simpl. lia. }
  destruct (no_checkpoints_no_validation flat_estimator cvtsd2si
              nth_element_by_sort stale_ones env cfg eq_refl eq_refl
              cvtsd2si_contract Hfits) as [H1 H2].
  split; [exact H1|].
  apply (H2 sample_xyz eq_refl eq_refl sample_xyz_wf).
  - simpl. lia.
  - exact flat_estimator_accepts.
  - reflexivity.
Defined.

(** ** Runs on a table of four points *)

(** Half of the points are checkpoints: the run returns 0 after two
    insertions, one estimation, four predictions and four saved vectors. *)
Example sample_run_returns_0 :
  let cfg := with_ratio (default_config "xyz.txt") lit_0_5 in
  let t := fst (main flat_estimator cvtsd2si nth_element_by_sort stale_ones
                     (sample_env cfg sample_xyz)) in
  snd (main flat_estimator cvtsd2si nth_element_by_sort stale_ones
            (sample_env cfg sample_xyz)) = Ok 0 /\
  map (fun e => match e with
                | EvInsert _ _ _ _ _ _ => 1
                | EvUpdateMapEstimation => 2
                | EvPredict _ _ _ _ => 3
                | EvSaveVector _ _ _ => 4
                | _ => 0
                end) t
  = [0; 0; 1; 1; 2; 3; 3; 3; 3; 4; 4; 4; 4; 0; 0; 0; 0; 0; 0; 0; 0].
Proof. vm_compute. split; reflexivity. Qed.

(** A ratio of 10 ends the run with status 1 before any call. *)
Example ratio_above_one_aborts :
  main flat_estimator cvtsd2si nth_element_by_sort stale_ones
       (sample_env (with_ratio (default_config "xyz.txt") lit_10_0) sample_xyz)
  = ([], Ok 1).
Proof. vm_compute. reflexivity. Qed.

(** The estimator that accepts any resolution lets the run go on with a
    resolution of zero: the program itself does not look at the resolution. *)
Example zero_resolution_unchecked :
  snd (main flat_estimator cvtsd2si nth_element_by_sort stale_ones
            (sample_env (with_resolution (default_config "xyz.txt") lit_0_0)
                        sample_xyz)) = Ok 0.
Proof. vm_compute. reflexivity. Qed.

(** ** Computations without undefined behaviour *)

Section Safe.

Variable accepting : Prop.

Lemma safe_ret {A} (post : A -> Prop) a : post a -> safe accepting post (ret a).
Proof. intros H. exact H. Qed.

Lemma safe_throw {A} (post : A -> Prop) :
  ~ accepting -> safe accepting post (@throw A).
Proof. intros H. exact H. Qed.

Lemma safe_bind {A B} (I : A -> Prop) (J : B -> Prop) (m : M A) (f : A -> M B) :
  safe accepting I m ->
  (forall a, I a -> safe accepting J (f a)) ->
  safe accepting J (bind m f).
Proof.
  unfold safe. rewrite bind_result.
  destruct (snd m) as [a| |]; intros Hm Hf; auto. apply (Hf a Hm).
Qed.

Lemma safe_weaken {A} (I J : A -> Prop) (m : M A) :
  safe accepting I m -> (forall a, I a -> J a) -> safe accepting J m.
Proof. unfold safe. destruct (snd m); auto. Qed.

Lemma safe_emit (post : unit -> Prop) e :
  post tt -> safe accepting post (emit e).
Proof. intros H. exact H. Qed.

Lemma safe_call {A} (post : A -> Prop) (r : option A) :
  (accepting -> r <> None) ->
  (forall a, r = Some a -> post a) ->
  safe accepting post (call r).
Proof.
  intros Hacc Hpost. destruct r as [a|]; simpl.
  - apply safe_ret. now apply Hpost.
  - apply safe_throw. intros H. now apply (Hacc H).
Qed.

Lemma safe_ASSERT (post : unit -> Prop) (c : bool) :
  (accepting -> c = true) -> (c = true -> post tt) ->
  safe accepting post (ASSERT_ c).
Proof.
  intros Hacc Hpost. destruct c; simpl.
  - apply safe_ret. now apply Hpost.
  - apply safe_throw. intros H. discriminate (Hacc H).
Qed.

Lemma safe_vec_at {A} (post : A -> Prop) (v : list A) k :
  (k < length v)%nat ->
  (forall a, nth_error v k = Some a -> post a) ->
  safe accepting post (vec_at v k).
Proof.
  intros Hk Hpost. unfold vec_at.
  destruct (nth_error v k) as [a|] eqn:E.
  - apply safe_ret. now apply Hpost.
  - apply nth_error_None in E. lia.
Qed.

Lemma safe_vec_set {A} (post : list A -> Prop) (v : list A) k x :
  (k < length v)%nat -> post (set_nth v k x) ->
  safe accepting post (vec_set v k x).
Proof. intros Hk Hpost. rewrite (vec_set_ok v k x Hk). exact Hpost. Qed.

Lemma safe_coeff (post : double -> Prop) m i j r :
  nth_error (mat_rows m) i = Some r -> (j < length r)%nat ->
  post (nth j r lit_0_0) ->
  safe accepting post (coeff m i j).
Proof.
  intros Hr Hj Hpost.
  rewrite (coeff_Some m i j r _ Hr (nth_error_nth' r j lit_0_0 Hj)).
  exact Hpost.
Qed.

(** A loop whose body keeps an invariant of the loop state. *)
Lemma safe_for_each {S} (I : S -> Prop) ks (body : nat -> S -> M S) :
  (forall k s, In k ks -> I s -> safe accepting I (body k s)) ->
  forall s, I s -> safe accepting I (for_each ks body s).
Proof.
  induction ks as [|k ks IH]; intros Hbody s Hs; simpl.
  - now apply safe_ret.
  - apply (safe_bind I); [apply Hbody; [now left|exact Hs]|].
    intros s' Hs'. apply IH; [|exact Hs'].
    intros k' s0 Hk'. apply Hbody. now right.
Qed.

Lemma safe_for_loop {S} (I : S -> Prop) n (body : nat -> S -> M S) :
  (forall k s, (k < n)%nat -> I s -> safe accepting I (body k s)) ->
  forall s, I s -> safe accepting I (for_loop n body s).
Proof.
  intros Hbody. unfold for_loop. apply safe_for_each.
  intros k s Hk. apply in_seq in Hk. apply Hbody. lia.
Qed.

End Safe.

(** ** [do_residuals_stats] on any vector *)

Lemma do_residuals_stats_any nth_element uninitialized r stats :
  keeps_length nth_element ->
  exists s, do_residuals_stats nth_element uninitialized r stats
            = ([], Ok (s, file_hdr_text)) /\ length s = 6%nat.
Proof.
  intros Hnth. destruct r as [|x tl].
  - exists (Eigen_resize uninitialized stats 6). split; [reflexivity|].
    apply Eigen_resize_length.
  - set (r := x :: tl).
    assert (Hlt : (length r / 2
                   < length (nth_element r (length r / 2)))%nat).
    { rewrite Hnth. apply Nat.div_lt; simpl; lia. }
    destruct (nth_error (nth_element r (length r / 2)%nat) (length r / 2)%nat)
      as [med|] eqn:E; [|apply nth_error_None in E; lia].
    eexists. split.
    + apply (do_residuals_stats_run nth_element uninitialized r stats x tl med
               eq_refl E).
    + reflexivity.
Qed.

(** ** The stages on a well-formed table *)

Section StageSafety.

Variable accepting : Prop.
Variable FE : FieldEstimator.
Variable nth_element : list double -> nat -> list double.
Variable uninitialized : nat -> double.
Variable env : Env.
Variable cfg : Config.
Variable raw_xyz : CMatrix.
Variable p : Partition.

Hypothesis Haccepting :
  accepting ->
  accepts_all FE /\ accepts_predictions FE /\
  (forall file, env_writable env file = true).
Hypothesis Hnth : keeps_length nth_element.
Hypothesis Hwf : wf_matrix raw_xyz.
Hypothesis Hcols : (3 <= cols raw_xyz)%nat.
Hypothesis Hperm :
  Permutation (pts_indices p) (map Z.of_nat (seq 0 (rows raw_xyz))).
Hypothesis Hins : 0 <= N_insert_pts p.
Hypothesis Hchk : 0 <= N_chk_pts p.
Hypothesis Hsum : N_insert_pts p + N_chk_pts p = Z.of_nat (rows raw_xyz).
Hypothesis Hfits : Z.of_nat (rows raw_xyz) <= INT_MAX.

Lemma checkpoint_position k :
  (k < Z.to_nat (N_chk_pts p))%nat ->
  Z.to_nat ((Z.of_nat k + N_insert_pts p) mod SIZE_MODULUS)
  = (k + Z.to_nat (N_insert_pts p))%nat /\
  (k + Z.to_nat (N_insert_pts p) < rows raw_xyz)%nat.
Proof.
  intros Hk. unfold INT_MAX in Hfits. unfold SIZE_MODULUS.
  rewrite Z.mod_small by lia. lia.
Qed.

Lemma insert_points_safe dm :
  safe accepting (fun _ => True)
       (insert_points FE cfg raw_xyz (cols raw_xyz =? 3)%nat p dm).
Proof.
  unfold insert_points. apply safe_for_loop; [|exact I].
  intros k s Hk _.
  destruct (index_row raw_xyz p Hwf Hcols Hperm k ltac:(lia))
    as (i & r & Hi & Hr & Hread).
  rewrite (insert_point_run FE cfg raw_xyz p k s i r Hi Hr Hread).
  unfold safe. cbn [snd].
  destruct (fe_insertIndividualReading FE s _ _ _ _ _ _) eqn:E; [exact I|].
  intros Ha. destruct (Haccepting Ha) as ((_ & H & _) & _).
  exact (H _ _ _ _ _ _ _ E).
Qed.

Lemma predictMeasurement_safe dm x y interp :
  safe accepting (fun _ => True) (predictMeasurement FE dm x y interp).
Proof.
  unfold predictMeasurement. rewrite bind_emit. unfold safe. cbn [snd].
  destruct (fe_predictMeasurement FE dm x y interp) eqn:E; [exact I|].
  simpl. intros Ha. destruct (Haccepting Ha) as (_ & H & _).
  exact (H _ _ _ _ E).
Qed.

Lemma eval_checkpoint_safe k dm vNN vBi :
  (k < Z.to_nat (N_chk_pts p))%nat ->
  length vNN = Z.to_nat (N_chk_pts p) ->
  length vBi = Z.to_nat (N_chk_pts p) ->
  safe accepting
       (fun st => length (snd (fst st)) = Z.to_nat (N_chk_pts p) /\
                  length (snd st) = Z.to_nat (N_chk_pts p))
       (eval_checkpoint FE raw_xyz p k (dm, vNN, vBi)).
Proof.
  intros Hk LN LB. unfold eval_checkpoint.
  destruct (checkpoint_position k Hk) as [-> Hj].
  destruct (index_row raw_xyz p Hwf Hcols Hperm _ Hj)
    as (i & r & Hi & Hr & [H3 _]).
  rewrite (vec_at_Some _ _ _ Hi), bind_ret_l.
  rewrite (coeff_Some raw_xyz _ 0 r (px r) Hr) by (apply nth_error_nth'; lia).
  rewrite bind_ret_l.
  rewrite (coeff_Some raw_xyz _ 1 r (py r) Hr) by (apply nth_error_nth'; lia).
  rewrite bind_ret_l.
  apply (safe_bind accepting (fun _ => True));
    [apply predictMeasurement_safe|].
  intros [[zN sN] dm1] _.
  rewrite (coeff_Some raw_xyz _ 2 r (pz r) Hr) by (apply nth_error_nth'; lia).
  rewrite bind_ret_l.
  rewrite (vec_set_ok vNN k _ ltac:(lia)), !bind_ret_l.
  apply (safe_bind accepting (fun _ => True));
    [apply predictMeasurement_safe|].
  intros [[zB sB] dm2] _.
  rewrite bind_ret_l, (vec_set_ok vBi k _ ltac:(lia)), bind_ret_l.
  apply safe_ret. cbn [fst snd]. now rewrite !set_nth_length.
Qed.

Lemma saveToTextFile_safe v file header :
  safe accepting (fun _ => True) (saveToTextFile env v file header).
Proof.
  rewrite saveToTextFile_run. destruct (env_writable env file) eqn:E.
  - exact I.
  - intros Ha. destruct (Haccepting Ha) as (_ & _ & H).
    rewrite H in E. discriminate.
Qed.

Lemma CFileOutputStream_safe file :
  safe accepting (fun _ => True) (CFileOutputStream env file).
Proof.
  rewrite CFileOutputStream_run. destruct (env_writable env file) eqn:E.
  - exact I.
  - intros Ha. destruct (Haccepting Ha) as (_ & _ & H).
    rewrite H in E. discriminate.
Qed.

Lemma do_residuals_stats_safe r stats :
  safe accepting (fun _ => True)
       (do_residuals_stats nth_element uninitialized r stats).
Proof.
  destruct (do_residuals_stats_any nth_element uninitialized r stats Hnth)
    as (s & -> & _).
  exact I.
Qed.

Lemma eval_checkpoints_safe sPrefix dm :
  safe accepting (fun _ => True)
       (eval_checkpoints FE nth_element uninitialized env raw_xyz p sPrefix dm).
Proof.
  unfold eval_checkpoints.
  apply (safe_bind accepting
           (fun st : fe_map FE * list double * list double =>
              length (snd (fst st)) = Z.to_nat (N_chk_pts p) /\
              length (snd st) = Z.to_nat (N_chk_pts p))).
  { apply safe_for_loop.
    - intros k [[dm1 vNN] vBi] Hk [LN LB]. now apply eval_checkpoint_safe.
    - cbn [fst snd]. unfold Eigen_new. now rewrite length_map, length_seq. }
  intros [[dm1 vNN] vBi] _.
  apply (safe_bind accepting (fun _ => True)); [apply saveToTextFile_safe|].
  intros _ _.
  apply (safe_bind accepting (fun _ => True)); [apply saveToTextFile_safe|].
  intros _ _.
  apply (safe_bind accepting (fun _ => True)); [apply do_residuals_stats_safe|].
  intros [s1 h1] _.
  apply (safe_bind accepting (fun _ => True)); [apply do_residuals_stats_safe|].
  intros [s2 h2] _.
  apply (safe_bind accepting (fun _ => True)); [apply saveToTextFile_safe|].
  intros _ _.
  apply (safe_bind accepting (fun _ => True)); [apply saveToTextFile_safe|].
  intros _ _. now apply safe_ret.
Qed.

Lemma print_point_safe file k :
  (k < rows raw_xyz)%nat ->
  safe accepting (fun _ => True)
       (i <- vec_at (pts_indices p) k ;;
        print_point raw_xyz file (Z.to_nat i)).
Proof.
  intros Hk.
  destruct (index_row raw_xyz p Hwf Hcols Hperm k Hk)
    as (i & r & Hi & Hr & [H3 _]).
  rewrite (vec_at_Some _ _ _ Hi), bind_ret_l.
  rewrite (print_point_run raw_xyz file i r Hr H3). exact I.
Qed.

Lemma save_points_safe sPrefix dm :
  safe accepting (fun _ => True) (save_points FE env raw_xyz p sPrefix dm).
Proof.
  unfold save_points.
  apply (safe_bind accepting (fun _ => True)); [apply CFileOutputStream_safe|].
  intros _ _.
  apply (safe_bind accepting (fun _ => True)).
  { apply safe_for_loop; [|exact I]. intros k s Hk _.
    apply print_point_safe. lia. }
  intros _ _.
  apply (safe_bind accepting (fun _ => True)); [apply CFileOutputStream_safe|].
  intros _ _.
  apply (safe_bind accepting (fun _ => True)).
  { apply safe_for_loop; [|exact I]. intros k s Hk _.
    destruct (checkpoint_position k Hk) as [-> Hj].
    now apply print_point_safe. }
  intros _ _.
  apply (safe_bind accepting (fun _ => True)); [now apply safe_emit|].
  intros _ _.
  apply (safe_bind accepting (fun _ => True)).
  { apply safe_call; [|auto]. intros Ha.
    destruct (Haccepting Ha) as ((_ & _ & _ & H & _) & _). apply H. }
  intros _ _.
  apply (safe_bind accepting (fun _ => True)); [now apply safe_emit|].
  intros _ _.
  apply safe_call; [|auto]. intros Ha.
  destruct (Haccepting Ha) as ((_ & _ & _ & _ & H) & _). apply H.
Qed.

Lemma build_dem_safe bb :
  safe accepting (fun z => z = 0)
       (build_dem FE nth_element uninitialized env cfg raw_xyz
                  (cols raw_xyz =? 3)%nat p bb).
Proof.
  unfold build_dem.
  apply (safe_bind accepting (fun _ => True)).
  { rewrite init_dem_map_run. unfold safe. cbn [snd].
    destruct (fe_setSize FE _ _ _ _ _ _) eqn:E; [exact I|].
    intros Ha. destruct (Haccepting Ha) as ((H & _) & _).
    exact (H _ _ _ _ _ _ E). }
  intros dm1 _.
  apply (safe_bind accepting (fun _ => True)); [apply insert_points_safe|].
  intros dm2 _.
  apply (safe_bind accepting (fun _ => True)).
  { rewrite update_gmrf_run. unfold safe. cbn [snd].
    destruct (fe_updateMapEstimation FE dm2) eqn:E; [exact I|].
    intros Ha. destruct (Haccepting Ha) as ((_ & _ & H & _) & _).
    exact (H _ E). }
  intros dm3 _.
  apply (safe_bind accepting (fun _ => True)).
  { destruct (N_chk_pts p =? 0); [now apply safe_ret|].
    apply eval_checkpoints_safe. }
  intros dm4 _.
  apply (safe_bind accepting (fun _ => True)); [apply save_points_safe|].
  intros _ _.
  apply (safe_bind accepting (fun _ => True)).
  { rewrite show_window_run. exact I. }
  intros _ _. now apply safe_ret.
Qed.

End StageSafety.

(** ** The whole run on a well-formed table *)

Lemma partition_facts round env N ratio :
  round_contract round -> Z.of_nat N <= INT_MAX ->
  valid ratio = true ->
  dge ratio lit_0_0 && dle ratio lit_1_0 = true ->
  let p := pick_random_checkpoints round env N ratio in
  Permutation (pts_indices p) (map Z.of_nat (seq 0 N)) /\
  0 <= N_insert_pts p /\ 0 <= N_chk_pts p /\
  N_insert_pts p + N_chk_pts p = Z.of_nat N.
Proof.
  intros Hround HN Hv Hr p.
  pose proof (round_in_range round Hround N ratio HN Hv Hr) as R.
  pose proof (N_chk_pts_eq round env Hround N ratio HN Hv Hr) as E1.
  pose proof (N_insert_pts_eq round env Hround N ratio HN Hv Hr) as E2.
  fold p in E1, E2. split; [apply pts_indices_Permutation; exact HN|]. lia.
Qed.

Lemma nth_element_by_sort_keeps_length : keeps_length nth_element_by_sort.
Proof.
  intros v n. unfold nth_element_by_sort. symmetry.
  apply Permutation_length, sort_asc_Permutation.
Qed.

Section RunSafety.

Variable accepting : Prop.
Variable FE : FieldEstimator.
Variable round : double -> Z.
Variable nth_element : list double -> nat -> list double.
Variable uninitialized : nat -> double.
Variable env : Env.

Hypothesis Hround : round_contract round.
Hypothesis Hnth : keeps_length nth_element.
Hypothesis Hloaded :
  forall cfg raw_xyz,
    env_parse env = Some cfg ->
    env_load env (arg_in_file cfg) = Some raw_xyz ->
    wf_matrix raw_xyz /\ fits_int raw_xyz.
Hypothesis Hvalid :
  forall cfg, env_parse env = Some cfg ->
              valid (arg_checkpoints_ratio cfg) = true.
Hypothesis Haccepting :
  accepting ->
  (exists cfg raw_xyz,
      env_parse env = Some cfg /\
      env_file_exists env (arg_in_file cfg) = true /\
      env_load env (arg_in_file cfg) = Some raw_xyz /\
      (3 <= cols raw_xyz)%nat /\
      dge (arg_checkpoints_ratio cfg) lit_0_0 &&
      dle (arg_checkpoints_ratio cfg) lit_1_0 = true) /\
  accepts_all FE /\ accepts_predictions FE /\
  (forall file, env_writable env file = true).

Lemma build_dem_partition_safe cfg raw_xyz bb :
  env_parse env = Some cfg ->
  env_load env (arg_in_file cfg) = Some raw_xyz ->
  (3 <= cols raw_xyz)%nat ->
  dge (arg_checkpoints_ratio cfg) lit_0_0 &&
  dle (arg_checkpoints_ratio cfg) lit_1_0 = true ->
  safe accepting (fun z => z = 0)
       (build_dem FE nth_element uninitialized env cfg raw_xyz
                  (cols raw_xyz =? 3)%nat
                  (partition_of round env cfg raw_xyz) bb).
Proof.
  intros Hp Hl Hc Hr. destruct (Hloaded cfg raw_xyz Hp Hl) as [Hwf Hfits].
  destruct (partition_facts round env (rows raw_xyz) _ Hround Hfits
              (Hvalid cfg Hp) Hr) as (P1 & P2 & P3 & P4).
  apply build_dem_safe; auto. intros Ha. apply (Haccepting Ha).
Qed.

Lemma dem_gmrf_main_safe :
  safe accepting (fun z => z = 0 \/ (z = 1 /\ ~ accepting))
       (dem_gmrf_main FE round nth_element uninitialized env).
Proof.
  pose proof (dem_gmrf_main_cases FE round nth_element uninitialized env) as C.
  assert (D : (exists cfg, env_parse env = Some cfg) \/ env_parse env = None)
    by (destruct (env_parse env); eauto).
  destruct D as [[cfg Hp]|Hp]; rewrite Hp in C.
  - destruct C as [E|[(raw & Hl & Hc & Hu & E)
                     |(raw & bb & Hf & Hl & Hc & Hb & Hr & E)]].
    + rewrite E. intros Ha.
      destruct (Haccepting Ha) as ((cfg' & raw & Hp' & Hf & Hl & Hc & Hr) & _).
      rewrite Hp in Hp'. injection Hp' as <-.
      destruct (Hloaded cfg raw Hp Hl) as [Hwf _].
      destruct (dem_gmrf_main_loaded FE round nth_element uninitialized env
                  cfg raw Hp Hf Hl Hwf Hc Hr) as (bb & E').
      pose proof (build_dem_partition_safe cfg raw bb Hp Hl Hc Hr) as S.
      rewrite <- E', E in S. exact (S Ha).
    + destruct (Hloaded cfg raw Hp Hl) as [Hwf _].
      rewrite (determine_bounding_box_ok raw Hwf Hc) in Hu. discriminate.
    + rewrite E.
      apply (safe_weaken accepting (fun z => z = 0));
        [now apply build_dem_partition_safe|auto].
  - rewrite C. unfold safe. cbn [snd]. right. split; [reflexivity|].
    intros Ha. destruct (Haccepting Ha) as ((cfg & raw & Hp' & _) & _).
    rewrite Hp in Hp'. discriminate.
Qed.

End RunSafety.

(** ** The exit status *)

(** X1: on a table that, when it loads, is rectangular with a row count that
    fits [int], every index the program uses is in range, whatever the options,
    the random numbers and the answers of the estimator and of the file
    system: [main] has no undefined behaviour, lets no exception escape, and
    returns 0 or 1.  ([round] and [nth_element] are any functions that meet
    the contract of [mrpt::utils::round] on [0,N] and keep the length of the
    range.) *)
Theorem main_returns_0_or_1 FE round nth_element uninitialized env :
  round_contract round ->
  keeps_length nth_element ->
  (forall cfg raw_xyz,
      env_parse env = Some cfg ->
      env_load env (arg_in_file cfg) = Some raw_xyz ->
      wf_matrix raw_xyz /\ fits_int raw_xyz) ->
  (forall cfg, env_parse env = Some cfg ->
               valid (arg_checkpoints_ratio cfg) = true) ->
  snd (main FE round nth_element uninitialized env) = Ok 0 \/
  snd (main FE round nth_element uninitialized env) = Ok 1.
Proof.
  intros Hround Hnth Hloaded Hvalid.
  pose proof (dem_gmrf_main_safe False FE round nth_element uninitialized env
                Hround Hnth Hloaded Hvalid ltac:(contradiction)) as S.
  rewrite main_result. unfold safe in S.
  destruct (snd (dem_gmrf_main FE round nth_element uninitialized env))
    as [z| |]; [|now right|contradiction].
  destruct S as [->|[-> _]]; auto.
Qed.

(** X2: the run returns 0, for any checkpoint ratio in [0,1], when the input
    file is there and loads as a rectangular table of at least three columns
    and a row count that fits [int], the estimator refuses no call (set-up,
    insertion, estimation, prediction, saving) and every output file can be
    written. *)
Theorem main_completes FE round nth_element uninitialized env cfg raw_xyz :
  round_contract round ->
  keeps_length nth_element ->
  env_parse env = Some cfg ->
  env_file_exists env (arg_in_file cfg) = true ->
  env_load env (arg_in_file cfg) = Some raw_xyz ->
  wf_matrix raw_xyz -> fits_int raw_xyz -> (3 <= cols raw_xyz)%nat ->
  valid (arg_checkpoints_ratio cfg) = true ->
  dge (arg_checkpoints_ratio cfg) lit_0_0 &&
  dle (arg_checkpoints_ratio cfg) lit_1_0 = true ->
  accepts_all FE -> accepts_predictions FE ->
  (forall file, env_writable env file = true) ->
  snd (main FE round nth_element uninitialized env) = Ok 0.
Proof.
  intros Hround Hnth Hp Hf Hl Hwf Hfits Hc Hv Hr Ha1 Ha2 Hw.
  assert (S : safe True (fun z => z = 0 \/ (z = 1 /\ ~ True))
                   (dem_gmrf_main FE round nth_element uninitialized env)).
  { apply dem_gmrf_main_safe; auto.
    - intros cfg' raw' Hp' Hl'. rewrite Hp in Hp'. injection Hp' as <-.
      rewrite Hl in Hl'. injection Hl' as <-. auto.
    - intros cfg' Hp'. rewrite Hp in Hp'. injection Hp' as <-. exact Hv.
    - intros _. split; [|auto]. exists cfg, raw_xyz. auto. }
  rewrite main_result. unfold safe in S.
  destruct (snd (dem_gmrf_main FE round nth_element uninitialized env))
    as [z| |]; [|destruct (S I)|contradiction].
  destruct S as [->|[_ H]]; [reflexivity|destruct (H I)].
Qed.

(** X3: with an [nth_element] that leaves the length of its range as it is,
    [do_residuals_stats] stays within the bounds of its vectors and throws
    nothing, on any vector of residuals and any output vector: it makes no
    call and returns the header line and a vector of exactly six entries.  On
    a vector that is not empty all six entries are assigned: the result does
    not depend on what the output vector, or the storage [resize] allocates,
    held before. *)
Theorem do_residuals_stats_overwrites nth_element :
  keeps_length nth_element ->
  (forall uninitialized r stats,
      exists s,
        do_residuals_stats nth_element uninitialized r stats
        = ([], Ok (s, file_hdr_text)) /\
        length s = 6%nat) /\
  (forall r, r <> [] ->
     forall uninitialized uninitialized' stats stats',
       do_residuals_stats nth_element uninitialized r stats
       = do_residuals_stats nth_element uninitialized' r stats').
Proof.
  intros Hnth. split.
  - intros. now apply do_residuals_stats_any.
  - intros r Hr u u' stats stats'. destruct r as [|x tl]; [contradiction|].
    set (r := x :: tl).
    assert (Hlt : (length r / 2
                   < length (nth_element r (length r / 2)))%nat).
    { rewrite Hnth. apply Nat.div_lt; simpl; lia. }
    destruct (nth_error (nth_element r (length r / 2)%nat) (length r / 2)%nat)
      as [med|] eqn:E; [|apply nth_error_None in E; lia].
    rewrite (do_residuals_stats_run nth_element u r stats x tl med eq_refl E).
    rewrite (do_residuals_stats_run nth_element u' r stats' x tl med eq_refl E).
    reflexivity.
Qed.

Lemma sample_loaded cfg raw_xyz :
  wf_matrix raw_xyz -> fits_int raw_xyz ->
  forall cfg' raw',
    env_parse (sample_env cfg raw_xyz) = Some cfg' ->
    env_load (sample_env cfg raw_xyz) (arg_in_file cfg') = Some raw' ->
    wf_matrix raw' /\ fits_int raw'.
Proof. intros Hwf Hfits cfg' raw' _ H. injection H as <-. auto. Qed.

Lemma sample_xyz_fits : fits_int sample_xyz.
Proof. unfold fits_int, INT_MAX. simpl. lia. Qed.

Lemma main_returns_0_or_1_witness :
  let env := sample_env (with_ratio (default_config "xyz.txt") lit_0_5)
                        sample_xyz in
  snd (main flat_estimator cvtsd2si nth_element_by_sort stale_ones env) = Ok 0
  \/
  snd (main flat_estimator cvtsd2si nth_element_by_sort stale_ones env) = Ok 1.
Proof.
  intros env.
  apply (main_returns_0_or_1 flat_estimator cvtsd2si nth_element_by_sort
           stale_ones env cvtsd2si_contract nth_element_by_sort_keeps_length).
  - apply sample_loaded; [exact sample_xyz_wf|exact sample_xyz_fits].
  - intros cfg H. injection H as <-. reflexivity.
Defined.

Lemma level_estimator_accepts :
  accepts_all level_estimator /\ accepts_predictions level_estimator.
Proof. repeat split; intros; discriminate. Qed.

Lemma main_completes_witness :
  snd (main level_estimator cvtsd2si nth_element_by_sort stale_ones
            (sample_env (with_ratio (default_config "xyz.txt") lit_0_5)
                        sample_xyz)) = Ok 0.
Proof.
  apply (main_completes level_estimator cvtsd2si nth_element_by_sort stale_ones
           (sample_env (with_ratio (default_config "xyz.txt") lit_0_5)
                       sample_xyz)
           (with_ratio (default_config "xyz.txt") lit_0_5) sample_xyz
           cvtsd2si_contract nth_element_by_sort_keeps_length
           eq_refl eq_refl eq_refl sample_xyz_wf sample_xyz_fits).
  - simpl. lia.
  - reflexivity.
  - reflexivity.
  - apply level_estimator_accepts.
  - apply level_estimator_accepts.
  - reflexivity.
Defined.

Lemma do_residuals_stats_overwrites_witness :
  (exists s,
      do_residuals_stats nth_element_by_sort stale_ones
                         [S754_nan; of_int 2] []
      = ([], Ok (s, file_hdr_text)) /\ length s = 6%nat) /\
  do_residuals_stats nth_element_by_sort stale_ones [S754_nan; of_int 2] []
  = do_residuals_stats nth_element_by_sort (fun _ => lit_0_0)
                       [S754_nan; of_int 2] (map of_int [4; 1; 3; 2; 5; 6]).
Proof.
  destruct (do_residuals_stats_overwrites nth_element_by_sort
              nth_element_by_sort_keeps_length) as [H1 H2].
  split; [apply H1|]. apply H2. discriminate.
Defined.

(** ** Inputs that cannot be used *)

Section Inputs.

Variable FE : FieldEstimator.
Variable round : double -> Z.
Variable nth_element : list double -> nat -> list double.
Variable uninitialized : nat -> double.
Variable env : Env.

(** X4: when the options do not parse, the input file does not exist, it
    cannot be loaded, or the table has fewer than three columns, [main]
    returns 1 and has called neither the estimator nor the file system for
    writing: nothing is created. *)
Theorem unusable_input_aborts :
  env_parse env = None \/
  (exists cfg,
      env_parse env = Some cfg /\
      (env_file_exists env (arg_in_file cfg) = false \/
       env_load env (arg_in_file cfg) = None \/
       exists raw_xyz,
         env_load env (arg_in_file cfg) = Some raw_xyz /\
         (cols raw_xyz < 3)%nat)) ->
  main FE round nth_element uninitialized env = ([], Ok 1).
Proof.
  intros [Hp|(cfg & Hp & H)]; unfold main, dem_gmrf_main; rewrite Hp;
    [reflexivity|].
  unfold ASSERT_.
  destruct (env_file_exists env (arg_in_file cfg)) eqn:Hf; [|reflexivity].
  destruct H as [H|[Hl|(raw & Hl & Hc)]]; [discriminate| |];
    rewrite bind_ret_l, Hl; [reflexivity|].
  rewrite call_cases, bind_ret_l.
  apply Nat.leb_gt in Hc. rewrite Hc. reflexivity.
Qed.

End Inputs.

Lemma unusable_input_aborts_witness :
  main flat_estimator cvtsd2si nth_element_by_sort stale_ones
       (sample_env (default_config "xy.txt")
                   {| mat_cols := 2; mat_rows := [[of_int 0; of_int 1]] |})
  = ([], Ok 1).
Proof.
  apply unusable_input_aborts. right.
  exists (default_config "xy.txt"). split; [reflexivity|].
  right. right. eexists. split; [reflexivity|]. simpl. lia.
Defined.

(** ** What the output files hold *)

Lemma flat_map_none {A B} (f : A -> list B) (P : A -> Prop) l :
  (forall a, P a -> f a = []) -> Forall P l -> flat_map f l = [].
Proof.
  intros Hf H. induction H as [|a l Ha H IH]; [reflexivity|].
  simpl. now rewrite (Hf a Ha), IH.
Qed.

Lemma append_eqb (s a b : string) :
  String.eqb (s ++ a) (s ++ b) = String.eqb a b.
Proof.
  induction s as [|c s IH]; [reflexivity|].
  simpl. now rewrite Ascii.eqb_refl.
Qed.

Lemma fil_pts_distinct sPrefix :
  String.eqb (fil_pts_map sPrefix) (fil_pts_chk sPrefix) = false /\
  String.eqb (fil_pts_chk sPrefix) (fil_pts_map sPrefix) = false.
Proof. unfold fil_pts_map, fil_pts_chk. now rewrite !append_eqb. Qed.

Lemma inserted_points_none t :
  Forall (fun e => ~ is_insert e) t -> inserted_points t = [].
Proof.
  apply flat_map_none. intros [] H; try reflexivity. destruct H. exact I.
Qed.

Lemma inserted_points_inserts cfg raw l :
  inserted_points (map (insert_event cfg raw) l)
  = map (fun i => xyz_of_row (row_of raw i)) l.
Proof. induction l as [|i l IH]; [reflexivity|]. simpl. now rewrite IH. Qed.

Lemma printed_points_not_output file t :
  Forall (fun e => ~ is_output e) t -> printed_points file t = [].
Proof.
  apply flat_map_none. intros [] H; try reflexivity. destruct H. exact I.
Qed.

Lemma printed_points_prints file file' raw l :
  printed_points file (map (print_event file' raw) l)
  = if String.eqb file' file
    then map (fun i => xyz_of_row (row_of raw i)) l else [].
Proof.
  induction l as [|i l IH].
  - simpl. now destruct (String.eqb file' file).
  - change (printed_points file (map (print_event file' raw) (i :: l)))
      with ((if String.eqb file' file
             then [xyz_of_row (row_of raw i)] else []) ++
            printed_points file (map (print_event file' raw) l)).
    rewrite IH. destruct (String.eqb file' file); reflexivity.
Qed.

Lemma printed_points_app file t1 t2 :
  printed_points file (t1 ++ t2)
  = printed_points file t1 ++ printed_points file t2.
Proof. apply flat_map_app. Qed.

Lemma printed_points_output raw p sPrefix :
  printed_points (fil_pts_map sPrefix) (output_events raw p sPrefix)
  = map (fun i => xyz_of_row (row_of raw i)) (insertion_set p) /\
  printed_points (fil_pts_chk sPrefix) (output_events raw p sPrefix)
  = map (fun i => xyz_of_row (row_of raw i)) (checkpoint_set p).
Proof.
  destruct (fil_pts_distinct sPrefix) as [D1 D2].
  unfold output_events.
  change (EvFileOpen (fil_pts_map sPrefix) :: ?a ++
          EvFileOpen (fil_pts_chk sPrefix) :: ?b ++ ?c)
    with ([EvFileOpen (fil_pts_map sPrefix)] ++ a ++
          [EvFileOpen (fil_pts_chk sPrefix)] ++ b ++ c).
  rewrite !printed_points_app, !printed_points_prints, !String.eqb_refl,
    D1, D2.
  cbn [printed_points flat_map app]. rewrite !app_nil_r. split; reflexivity.
Qed.

Lemma predicted_places_none interp t :
  Forall (fun e => ~ is_predict e) t -> predicted_places interp t = [].
Proof.
  apply flat_map_none. intros [] H; try reflexivity. destruct H. exact I.
Qed.

Lemma predicted_places_predictions interp raw l : forall outs,
  length outs = length l ->
  predicted_places interp
    (flat_map (fun io : Z * Prediction =>
                 predict_events raw (fst io) (snd io)) (combine l outs))
  = map (fun i => xy_of_point (xyz_of_row (row_of raw i))) l.
Proof.
  induction l as [|i l IH]; intros [|o outs] L; try discriminate;
    [reflexivity|].
  injection L as L. specialize (IH outs L).
  unfold predicted_places in *. cbn [combine flat_map]. rewrite flat_map_app, IH.
  destruct interp; reflexivity.
Qed.

Lemma inserted_points_app t1 t2 :
  inserted_points (t1 ++ t2) = inserted_points t1 ++ inserted_points t2.
Proof. apply flat_map_app. Qed.

Lemma predicted_places_app interp t1 t2 :
  predicted_places interp (t1 ++ t2)
  = predicted_places interp t1 ++ predicted_places interp t2.
Proof. apply flat_map_app. Qed.

Lemma window_events_not_printed file env cfg :
  printed_points file (window_events env cfg) = [].
Proof.
  unfold window_events.
  destruct (env_has_wxwidgets env && negb (arg_no_gui cfg)); reflexivity.
Qed.

Lemma validation_events_validation raw p sPrefix outs files :
  Forall (residual_files sPrefix) files ->
  Forall is_validation (validation_events raw p sPrefix outs files).
Proof.
  intros Hf. unfold validation_events. apply Forall_app. split.
  - eapply Forall_impl; [|apply predictions_of_predict]. intros e He. now left.
  - constructor; [right; exact I|]. constructor; [right; exact I|].
    eapply Forall_impl; [|exact Hf]. intros e He. right.
    eapply residual_files_save_vector, He.
Qed.

Lemma validation_not_output e : is_validation e -> ~ is_output e.
Proof. destruct e; unfold is_validation; simpl; tauto. Qed.

Lemma setup_not_output e : is_setup e -> ~ is_output e.
Proof. destruct e; simpl; tauto. Qed.

Lemma insert_not_output e : is_insert e -> ~ is_output e.
Proof. destruct e; simpl; tauto. Qed.

Lemma save_vector_not_predict e : is_save_vector e -> ~ is_predict e.
Proof. destruct e; simpl; tauto. Qed.

Section Files.

Variable FE : FieldEstimator.
Variable round : double -> Z.
Variable nth_element : list double -> nat -> list double.
Variable uninitialized : nat -> double.
Variable env : Env.

Variable cfg : Config.
Variable raw_xyz : CMatrix.
Hypothesis Hparse : env_parse env = Some cfg.
Hypothesis Hload : env_load env (arg_in_file cfg) = Some raw_xyz.
Hypothesis Hok : snd (main FE round nth_element uninitialized env) = Ok 0.

(** What a run that returns 0 gave to the estimator, printed and asked. *)
Lemma main_ok_points :
  let p := partition_of round env cfg raw_xyz in
  let t := fst (main FE round nth_element uninitialized env) in
  let rows_of := map (fun i => xyz_of_row (row_of raw_xyz i)) in
  inserted_points t = rows_of (insertion_set p) /\
  printed_points (fil_pts_map (arg_out_prefix cfg)) t
  = rows_of (insertion_set p) /\
  printed_points (fil_pts_chk (arg_out_prefix cfg)) t
  = rows_of (checkpoint_set p) /\
  forall interp,
    predicted_places interp t = map xy_of_point (rows_of (checkpoint_set p)).
Proof.
  intros p t rows_of.
  destruct (main_ok_trace FE round nth_element uninitialized env cfg raw_xyz
                          Hparse Hload Hok) as (bb & tv & Ht & H0 & H1).
  fold p in Ht, H0, H1. fold t in Ht.
  assert (Hval : Forall is_validation tv /\
                 forall interp,
                   predicted_places interp tv
                   = map xy_of_point (rows_of (checkpoint_set p))).
  { destruct (Z.eq_dec (N_chk_pts p) 0) as [Z0|Z0].
    - rewrite (H0 Z0), (checkpoint_set_empty p Z0). split; [constructor|].
      reflexivity.
    - destruct (H1 Z0) as (outs & files & Lo & -> & _ & Hf).
      split; [now apply validation_events_validation|].
      intros interp. unfold validation_events.
      rewrite predicted_places_app. unfold predictions_of.
      rewrite (predicted_places_predictions interp raw_xyz _ outs Lo).
      unfold rows_of. rewrite map_map.
      rewrite (predicted_places_none interp).
      + now rewrite app_nil_r.
      + constructor; [simpl; tauto|]. constructor; [simpl; tauto|].
        eapply Forall_impl; [|exact Hf].
        intros e He. apply save_vector_not_predict.
        eapply residual_files_save_vector, He. }
  destruct Hval as [Hv Hpred].
  pose proof (setup_events_setup cfg bb) as Hs.
  pose proof (insert_events_insert cfg raw_xyz (insertion_set p)) as Hi.
  pose proof (output_events_output raw_xyz p (arg_out_prefix cfg)) as Ho.
  pose proof (window_events_output env cfg) as Hw.
  destruct (printed_points_output raw_xyz p (arg_out_prefix cfg)) as [Pm Pc].
  rewrite Ht.
  change (EvUpdateMapEstimation :: tv ++ ?l)
    with ([EvUpdateMapEstimation] ++ tv ++ l).
  split; [|split; [|split; [|intros interp]]].
  - rewrite !inserted_points_app.
    rewrite (inserted_points_none (setup_events cfg bb)),
      inserted_points_inserts, (inserted_points_none tv),
      (inserted_points_none (output_events _ _ _)),
      (inserted_points_none (window_events _ _)).
    + cbn [inserted_points flat_map app]. now rewrite app_nil_r.
    + eapply Forall_impl; [apply output_not_insert|exact Hw].
    + eapply Forall_impl; [apply output_not_insert|exact Ho].
    + eapply Forall_impl; [apply validation_not_insert|exact Hv].
    + eapply Forall_impl; [apply setup_not_insert|exact Hs].
  - rewrite !printed_points_app, Pm, window_events_not_printed.
    rewrite (printed_points_not_output _ (setup_events cfg bb)),
      (printed_points_not_output _ (map _ _)),
      (printed_points_not_output _ tv).
    + cbn [printed_points flat_map app]. now rewrite app_nil_r.
    + eapply Forall_impl; [apply validation_not_output|exact Hv].
    + eapply Forall_impl; [apply insert_not_output|exact Hi].
    + eapply Forall_impl; [apply setup_not_output|exact Hs].
  - rewrite !printed_points_app, Pc, window_events_not_printed.
    rewrite (printed_points_not_output _ (setup_events cfg bb)),
      (printed_points_not_output _ (map _ _)),
      (printed_points_not_output _ tv).
    + cbn [printed_points flat_map app]. now rewrite app_nil_r.
    + eapply Forall_impl; [apply validation_not_output|exact Hv].
    + eapply Forall_impl; [apply insert_not_output|exact Hi].
    + eapply Forall_impl; [apply setup_not_output|exact Hs].
  - rewrite !predicted_places_app, (Hpred interp).
    change (predicted_places interp [EvUpdateMapEstimation])
      with (@nil (double * double)).
    rewrite (predicted_places_none _ (setup_events cfg bb)),
      (predicted_places_none _ (map (insert_event _ _) _)),
      (predicted_places_none _ (output_events _ _ _)),
      (predicted_places_none _ (window_events _ _)).
    + cbn [app]. now rewrite app_nil_r.
    + eapply Forall_impl; [apply output_not_predict|exact Hw].
    + eapply Forall_impl; [apply output_not_predict|exact Ho].
    + eapply Forall_impl; [apply insert_not_predict|exact Hi].
    + eapply Forall_impl; [apply setup_not_predict|exact Hs].
Qed.

(** The ratio of a run that returns 0 passed the check of stage 3. *)
Lemma main_ok_ratio :
  dge (arg_checkpoints_ratio cfg) lit_0_0 &&
  dle (arg_checkpoints_ratio cfg) lit_1_0 = true.
Proof.
  pose proof (main_ok_0 FE round nth_element uninitialized env Hok) as H0.
  pose proof (dem_gmrf_main_cases FE round nth_element uninitialized env) as C.
  rewrite Hparse in C.
  destruct C as [E|[(raw & _ & _ & _ & E)|(raw & bb & _ & _ & _ & _ & Hr & _)]].
  - rewrite E in H0. discriminate.
  - rewrite E in H0. discriminate.
  - exact Hr.
Qed.

(** X6: in a run that returns 0, [_pts_map.txt] lists the points that were
    given to the estimator, in the order they were inserted, and
    [_pts_chk.txt] lists the places where predictions were asked, in the
    order asked, each place having been asked once with each method. *)
Theorem point_files_list_the_calls :
  let t := fst (main FE round nth_element uninitialized env) in
  let sPrefix := arg_out_prefix cfg in
  printed_points (sPrefix ++ "_pts_map.txt") t = inserted_points t /\
  map xy_of_point (printed_points (sPrefix ++ "_pts_chk.txt") t)
  = predicted_places gimNearest t /\
  map xy_of_point (printed_points (sPrefix ++ "_pts_chk.txt") t)
  = predicted_places gimBilinear t.
Proof.
  intros t sPrefix.
  destruct main_ok_points as (H1 & H2 & H3 & H4).
  fold t in H1, H2, H3, H4. fold sPrefix in H2, H3.
  unfold fil_pts_map in H2. unfold fil_pts_chk in H3.
  rewrite H1, H2, H3, !H4. auto.
Qed.

(** X7: in a run that returns 0 on a table whose row count fits [int], the
    lines of [_pts_map.txt] and of [_pts_chk.txt] together are the rows of the
    table, each row once: every point is either inserted or kept as a
    checkpoint, none is dropped and none is used twice, whatever its height. *)
Theorem point_files_cover_table :
  round_contract round -> fits_int raw_xyz ->
  valid (arg_checkpoints_ratio cfg) = true ->
  let t := fst (main FE round nth_element uninitialized env) in
  let sPrefix := arg_out_prefix cfg in
  Permutation (printed_points (sPrefix ++ "_pts_map.txt") t ++
               printed_points (sPrefix ++ "_pts_chk.txt") t)
              (map xyz_of_row (mat_rows raw_xyz)) /\
  Permutation (inserted_points t ++
               printed_points (sPrefix ++ "_pts_chk.txt") t)
              (map xyz_of_row (mat_rows raw_xyz)).
Proof.
  intros Hround Hfits Hv t sPrefix.
  destruct main_ok_points as (H1 & H2 & H3 & _).
  fold t in H1, H2, H3. fold sPrefix in H2, H3.
  unfold fil_pts_map in H2. unfold fil_pts_chk in H3.
  rewrite H1, H2, H3, <- map_app.
  assert (P : Permutation
                (map (fun i => xyz_of_row (row_of raw_xyz i))
                     (insertion_set (partition_of round env cfg raw_xyz) ++
                      checkpoint_set (partition_of round env cfg raw_xyz)))
                (map xyz_of_row (mat_rows raw_xyz))).
  { unfold partition_of.
    rewrite (partition_covers round env Hround (rows raw_xyz) _ Hfits Hv
               main_ok_ratio).
    eapply perm_trans.
    - apply Permutation_map, pts_indices_Permutation. exact Hfits.
    - rewrite map_map. unfold row_of.
      rewrite (map_ext _ (fun j => xyz_of_row (nth j (mat_rows raw_xyz) [])))
        by (intros j; now rewrite Nat2Z.id).
      rewrite <- (map_map (fun j => nth j (mat_rows raw_xyz) []) xyz_of_row).
      rewrite (map_nth_seq 0%nat (mat_rows raw_xyz) [] (rows raw_xyz))
        by (unfold rows; lia).
      unfold rows. now rewrite firstn_all. }
  split; exact P.
Qed.

End Files.

Lemma point_files_list_the_calls_witness :
  let cfg := with_ratio (default_config "xyz.txt") lit_0_5 in
  let t := fst (main flat_estimator cvtsd2si nth_element_by_sort stale_ones
                     (sample_env cfg sample_xyz)) in
  printed_points "demgmrf_out_pts_map.txt" t = inserted_points t /\
  map xy_of_point (printed_points "demgmrf_out_pts_chk.txt" t)
  = predicted_places gimNearest t /\
  map xy_of_point (printed_points "demgmrf_out_pts_chk.txt" t)
  = predicted_places gimBilinear t.
Proof.
  intros cfg t.
  exact (point_files_list_the_calls flat_estimator cvtsd2si
           nth_element_by_sort stale_ones (sample_env cfg sample_xyz) cfg
           sample_xyz eq_refl eq_refl ltac:(vm_compute; reflexivity)).
Defined.

Lemma point_files_cover_table_witness :
  let cfg := with_ratio (default_config "xyz.txt") lit_0_5 in
  let t := fst (main flat_estimator cvtsd2si nth_element_by_sort stale_ones
                     (sample_env cfg sample_xyz)) in
  Permutation (printed_points "demgmrf_out_pts_map.txt" t ++
               printed_points "demgmrf_out_pts_chk.txt" t)
              (map xyz_of_row (mat_rows sample_xyz)).
Proof.
  intros cfg t.
  exact (proj1 (point_files_cover_table flat_estimator cvtsd2si
                  nth_element_by_sort stale_ones (sample_env cfg sample_xyz)
                  cfg sample_xyz eq_refl eq_refl
                  ltac:(vm_compute; reflexivity)
                  cvtsd2si_contract sample_xyz_fits eq_refl)).
Defined.

(** ** The files of statistics *)

Lemma do_residuals_stats_header nth_element uninitialized r stats t s h :
  do_residuals_stats nth_element uninitialized r stats = (t, Ok (s, h)) ->
  t = [] /\ h = file_hdr_text.
Proof.
  intros H. split.
  { pose proof (do_residuals_stats_silent nth_element uninitialized r stats)
      as S. now rewrite H in S. }
  unfold do_residuals_stats, meanAndStd in H.
  destruct (length r =? 0)%nat; [now inversion H|].
  repeat (apply bind_ok_inv in H; destruct H as (? & ? & ? & _ & H & _)).
  apply ret_ok_inv in H. destruct H as [_ H]. now inversion H.
Qed.

Section StatsFiles.

Variable FE : FieldEstimator.
Variable round : double -> Z.
Variable nth_element : list double -> nat -> list double.
Variable uninitialized : nat -> double.
Variable env : Env.

(** The four files of stage 7, for the statistics [sNN] and [sBi]. *)
Lemma eval_checkpoints_ok_files raw_xyz p sPrefix dm t dm' :
  eval_checkpoints FE nth_element uninitialized env raw_xyz p sPrefix dm
  = (t, Ok dm') ->
  exists (outs : list Prediction) (sNN sBi : list double),
    length outs = length (checkpoint_set p) /\
    t = predictions_of raw_xyz p outs ++
        [EvSaveVector (sPrefix ++ "_chkpt_residuals_NN.txt")
                      (residuals_NN_of raw_xyz p outs) None;
         EvSaveVector (sPrefix ++ "_chkpt_residuals_Bi.txt")
                      (residuals_Bi_of raw_xyz p outs) None;
         EvSaveVector (sPrefix ++ "_chkpt_residuals_NN_stats.txt")
                      sNN (Some file_hdr_text);
         EvSaveVector (sPrefix ++ "_chkpt_residuals_Bi_stats.txt")
                      sBi (Some file_hdr_text)] /\
    do_residuals_stats nth_element uninitialized
                       (residuals_NN_of raw_xyz p outs) []
    = ([], Ok (sNN, file_hdr_text)) /\
    do_residuals_stats nth_element uninitialized
                       (residuals_Bi_of raw_xyz p outs) []
    = ([], Ok (sBi, file_hdr_text)).
Proof.
  unfold eval_checkpoints. intros H.
  inv_bind H. destruct a as [[dm1 vNN] vBi].
  apply eval_loop_checkpoints in H0. destruct H0 as (outs & Lo & -> & -> & ->).
  inv_bind H. apply saveToTextFile_ok_inv in H0. subst.
  inv_bind H. apply saveToTextFile_ok_inv in H0. subst.
  inv_bind H. destruct a1 as [s1 h1].
  destruct (do_residuals_stats_header _ _ _ _ _ _ _ H0) as [-> ->].
  inv_bind H. destruct a1 as [s2 h2].
  destruct (do_residuals_stats_header _ _ _ _ _ _ _ H1) as [-> ->].
  inv_bind H. apply saveToTextFile_ok_inv in H2. subst.
  inv_bind H. apply saveToTextFile_ok_inv in H2. subst.
  apply ret_ok_inv in H. destruct H as [-> _].
  exists outs, s1, s2. split; [exact Lo|]. split; [|split; assumption].
  reflexivity.
Qed.

Lemma build_dem_ok_files cfg raw_xyz p bb t z :
  build_dem FE nth_element uninitialized env cfg raw_xyz
            (cols raw_xyz =? 3)%nat p bb = (t, Ok z) ->
  N_chk_pts p <> 0 ->
  exists (outs : list Prediction) (sNN sBi : list double),
    t = (setup_events cfg bb ++
         map (insert_event cfg raw_xyz) (insertion_set p) ++
         [EvUpdateMapEstimation]) ++
        predictions_of raw_xyz p outs ++
        [EvSaveVector (arg_out_prefix cfg ++ "_chkpt_residuals_NN.txt")
                      (residuals_NN_of raw_xyz p outs) None;
         EvSaveVector (arg_out_prefix cfg ++ "_chkpt_residuals_Bi.txt")
                      (residuals_Bi_of raw_xyz p outs) None;
         EvSaveVector (arg_out_prefix cfg ++ "_chkpt_residuals_NN_stats.txt")
                      sNN (Some file_hdr_text);
         EvSaveVector (arg_out_prefix cfg ++ "_chkpt_residuals_Bi_stats.txt")
                      sBi (Some file_hdr_text)] ++
        output_events raw_xyz p (arg_out_prefix cfg) ++
        window_events env cfg /\
    length outs = length (checkpoint_set p) /\
    do_residuals_stats nth_element uninitialized
                       (residuals_NN_of raw_xyz p outs) []
    = ([], Ok (sNN, file_hdr_text)) /\
    do_residuals_stats nth_element uninitialized
                       (residuals_Bi_of raw_xyz p outs) []
    = ([], Ok (sBi, file_hdr_text)).
Proof.
  unfold build_dem. intros H Hchk.
  inv_bind H. rewrite init_dem_map_run in H0.
  inversion H0 as [[Ht Hr]]. clear H0 Hr. subst.
  inv_bind H. apply insert_points_ok_inv in H0. subst.
  inv_bind H. rewrite update_gmrf_run in H0.
  inversion H0 as [[Ht Hr]]. clear H0 Hr. subst.
  inv_bind H. apply Z.eqb_neq in Hchk. rewrite Hchk in H0.
  apply eval_checkpoints_ok_files in H0.
  destruct H0 as (outs & sNN & sBi & Lo & -> & E1 & E2).
  inv_bind H. apply save_points_ok_inv in H0. subst.
  inv_bind H. rewrite show_window_run in H0. inversion H0. subst.
  apply ret_ok_inv in H. destruct H as [-> _].
  exists outs, sNN, sBi. split; [|auto].
  rewrite app_nil_r, <- !app_assoc. reflexivity.
Qed.

(** X8: in a run that returns 0 with checkpoints, the four vectors saved are,
    in this order and right after the predictions: the residuals of the
    nearest-cell predictions and those of the bilinear ones, without a
    header, then what [do_residuals_stats] returns for each of these two
    vectors, under the header line. *)
Theorem statistics_files_hold_stats cfg raw_xyz :
  env_parse env = Some cfg ->
  env_load env (arg_in_file cfg) = Some raw_xyz ->
  snd (main FE round nth_element uninitialized env) = Ok 0 ->
  let p := partition_of round env cfg raw_xyz in
  let sPrefix := arg_out_prefix cfg in
  N_chk_pts p <> 0 ->
  exists (outs : list Prediction) (sNN sBi : list double)
         (pre post : list Event),
    fst (main FE round nth_element uninitialized env)
    = pre ++ predictions_of raw_xyz p outs ++
      [EvSaveVector (sPrefix ++ "_chkpt_residuals_NN.txt")
                    (residuals_NN_of raw_xyz p outs) None;
       EvSaveVector (sPrefix ++ "_chkpt_residuals_Bi.txt")
                    (residuals_Bi_of raw_xyz p outs) None;
       EvSaveVector (sPrefix ++ "_chkpt_residuals_NN_stats.txt")
                    sNN (Some file_hdr_text);
       EvSaveVector (sPrefix ++ "_chkpt_residuals_Bi_stats.txt")
                    sBi (Some file_hdr_text)] ++ post /\
    length outs = length (checkpoint_set p) /\
    Forall (fun e => ~ is_save_vector e) pre /\
    Forall (fun e => ~ is_save_vector e) post /\
    do_residuals_stats nth_element uninitialized
                       (residuals_NN_of raw_xyz p outs) []
    = ([], Ok (sNN, file_hdr_text)) /\
    do_residuals_stats nth_element uninitialized
                       (residuals_Bi_of raw_xyz p outs) []
    = ([], Ok (sBi, file_hdr_text)).
Proof.
  intros Hp Hl Hok p sPrefix Hchk.
  destruct (main_ok_inv FE round nth_element uninitialized env cfg raw_xyz
                        Hp Hl Hok) as (bb & Hb).
  fold p in Hb.
  destruct (build_dem_ok_files cfg raw_xyz p bb _ _ Hb Hchk)
    as (outs & sNN & sBi & Ht & Lo & E1 & E2).
  exists outs, sNN, sBi.
  exists (setup_events cfg bb ++
          map (insert_event cfg raw_xyz) (insertion_set p) ++
          [EvUpdateMapEstimation]).
  exists (output_events raw_xyz p sPrefix ++ window_events env cfg).
  split; [exact Ht|]. split; [exact Lo|].
  split; [|split; [|split; assumption]].
  - apply Forall_app. split; [|apply Forall_app; split].
    + eapply Forall_impl;
        [apply setup_not_save_vector|apply setup_events_setup].
    + eapply Forall_impl;
        [apply insert_not_save_vector|apply insert_events_insert].
    + repeat constructor. simpl. tauto.
  - apply Forall_app. split.
    + eapply Forall_impl;
        [apply output_not_save_vector|apply output_events_output].
    + eapply Forall_impl;
        [apply output_not_save_vector|apply window_events_output].
Qed.

End StatsFiles.

Lemma statistics_files_hold_stats_witness :
  let cfg := with_ratio (default_config "xyz.txt") lit_0_5 in
  let env := sample_env cfg sample_xyz in
  let p := partition_of cvtsd2si env cfg sample_xyz in
  exists (outs : list Prediction) (sNN sBi : list double),
    In (EvSaveVector "demgmrf_out_chkpt_residuals_NN_stats.txt" sNN
                     (Some file_hdr_text))
       (fst (main flat_estimator cvtsd2si nth_element_by_sort stale_ones
                  env)) /\
    do_residuals_stats nth_element_by_sort stale_ones
                       (residuals_NN_of sample_xyz p outs) []
    = ([], Ok (sNN, file_hdr_text)).
Proof.
  intros cfg env p.
  destruct (statistics_files_hold_stats flat_estimator cvtsd2si
              nth_element_by_sort stale_ones env cfg sample_xyz
              eq_refl eq_refl ltac:(vm_compute; reflexivity)
              ltac:(vm_compute; discriminate))
    as (outs & sNN & sBi & pre & post & Ht & _ & _ & _ & E1 & _).
  exists outs, sNN, sBi. split; [|exact E1].
  rewrite Ht. apply in_or_app. right. apply in_or_app. right.
  right. right. left. reflexivity.
Defined.

(** ** A prediction that throws *)

(** An event that satisfies [P] and is followed by others is not the last
    one. *)
Lemma last_event {A} (P : A -> Prop) pre e post t e' :
  P e -> Forall (fun x => ~ P x) t ->
  pre ++ e :: post = t ++ [e'] -> post = [] /\ pre = t /\ e = e'.
Proof.
  intros He Ht E. destruct post as [|x post] using rev_ind.
  - apply app_inj_tail in E. destruct E; auto.
  - clear IHpost. exfalso.
    change (pre ++ e :: post ++ [x]) with (pre ++ (e :: post) ++ [x]) in E.
    rewrite app_assoc in E. apply app_inj_tail in E. destruct E as [<- _].
    rewrite Forall_forall in Ht. apply (Ht e); [|exact He].
    apply in_or_app. right. now left.
Qed.

Lemma calm_not_failed e : calm e -> ~ failed_prediction e.
Proof. now intros [_ H]. Qed.

Lemma ends_at_quiet {A} (quiet : Event -> Prop) (m : M A) :
  Forall quiet (fst m) -> ends_at quiet m.
Proof. now left. Qed.

Lemma ends_at_silent {A} (quiet : Event -> Prop) (m : M A) :
  fst m = [] -> ends_at quiet m.
Proof. intros E. left. rewrite E. constructor. Qed.

(** After a computation that only calls the estimator. *)
Lemma ends_at_bind {A B} (quiet : Event -> Prop) (m : M A) (f : A -> M B) :
  (forall e, calm e -> quiet e) ->
  ends_at calm m -> (forall a, ends_at quiet (f a)) ->
  ends_at quiet (bind m f).
Proof.
  intros Hq Hm Hf. destruct m as [t [a| |]].
  - destruct Hm as [Hm|[Hm _]]; [|discriminate]. cbn [fst] in Hm.
    specialize (Hf a). unfold ends_at in *. simpl.
    destruct (f a) as [t' r]. cbn [fst snd] in *.
    destruct Hf as [Hf|(-> & pre & e & -> & He & Hpre)].
    + left. apply Forall_app. split; [|exact Hf].
      eapply Forall_impl; [exact Hq|exact Hm].
    + right. split; [reflexivity|]. exists (t ++ pre), e.
      split; [now rewrite app_assoc|]. split; [exact He|].
      apply Forall_app. now split.
  - change (bind (t, Exception) f) with (t, @Exception B).
    destruct Hm as [Hm|[_ Hm]]; [left|right; split; [reflexivity|exact Hm]].
    eapply Forall_impl; [exact Hq|exact Hm].
  - change (bind (t, Undefined) f) with (t, @Undefined B).
    destruct Hm as [Hm|[Hm _]]; [left|discriminate].
    eapply Forall_impl; [exact Hq|exact Hm].
Qed.

(** Before a computation all of whose events are quiet. *)
Lemma ends_at_then {A B} (quiet : Event -> Prop) (m : M A) (f : A -> M B) :
  ends_at quiet m -> (forall a, Forall quiet (fst (f a))) ->
  ends_at quiet (bind m f).
Proof.
  intros Hm Hf. destruct m as [t [a| |]].
  2: { change (bind (t, Exception) f) with (t, @Exception B).
       destruct Hm as [Hm|[_ Hm]]; [left; exact Hm|right].
       split; [reflexivity|exact Hm]. }
  2: { change (bind (t, Undefined) f) with (t, @Undefined B).
       destruct Hm as [Hm|[Hm _]]; [left; exact Hm|discriminate]. }
  destruct Hm as [Hm|[Hm _]]; [|discriminate]. cbn [fst] in Hm.
  left. rewrite bind_trace. cbn [fst snd]. apply Forall_app. now split.
Qed.

Lemma ends_at_for_each {S} ks (body : nat -> S -> M S) :
  (forall k s, ends_at calm (body k s)) ->
  forall s, ends_at calm (for_each ks body s).
Proof.
  intros Hbody. induction ks as [|k ks IH]; intros s; simpl.
  - apply ends_at_silent. reflexivity.
  - apply ends_at_bind; auto.
Qed.

Section FailedPrediction.

Variable FE : FieldEstimator.
Variable round : double -> Z.
Variable nth_element : list double -> nat -> list double.
Variable uninitialized : nat -> double.
Variable env : Env.

Lemma predictMeasurement_ends dm x y interp :
  ends_at calm (predictMeasurement FE dm x y interp).
Proof.
  unfold predictMeasurement. rewrite bind_emit.
  destruct (fe_predictMeasurement FE dm x y interp) as [[[z s] dm']|].
  - left. repeat constructor; simpl; tauto.
  - right. split; [reflexivity|]. exists [], (EvPredict x y interp None).
    repeat split. constructor.
Qed.

Lemma eval_checkpoint_ends raw_xyz p k st :
  ends_at calm (eval_checkpoint FE raw_xyz p k st).
Proof.
  unfold eval_checkpoint. destruct st as [[dm vNN] vBi].
  apply ends_at_bind; [auto|apply ends_at_quiet, vec_at_trace|intros i].
  apply ends_at_bind; [auto|apply ends_at_quiet, coeff_trace|intros x].
  apply ends_at_bind; [auto|apply ends_at_quiet, coeff_trace|intros y].
  apply ends_at_bind; [auto|apply predictMeasurement_ends|].
  intros [[zN sN] dm1].
  apply ends_at_bind; [auto|apply ends_at_quiet, coeff_trace|intros z].
  apply ends_at_bind; [auto|apply ends_at_quiet, vec_set_trace|intros v1].
  apply ends_at_bind; [auto|apply ends_at_quiet, coeff_trace|intros x'].
  apply ends_at_bind; [auto|apply ends_at_quiet, coeff_trace|intros y'].
  apply ends_at_bind; [auto|apply predictMeasurement_ends|].
  intros [[zB sB] dm2].
  apply ends_at_bind; [auto|apply ends_at_quiet, coeff_trace|intros z'].
  apply ends_at_bind; [auto|apply ends_at_quiet, vec_set_trace|intros v2].
  apply ends_at_silent. reflexivity.
Qed.

Lemma saveToTextFile_not_failed v file header :
  Forall (fun e => ~ failed_prediction e)
         (fst (saveToTextFile env v file header)).
Proof.
  rewrite saveToTextFile_run. destruct (env_writable env file);
    repeat constructor. simpl. tauto.
Qed.

Lemma eval_checkpoints_ends raw_xyz p sPrefix dm :
  ends_at (fun e => ~ failed_prediction e)
          (eval_checkpoints FE nth_element uninitialized env raw_xyz p
                            sPrefix dm).
Proof.
  unfold eval_checkpoints.
  apply ends_at_bind; [apply calm_not_failed| |].
  { unfold for_loop. apply ends_at_for_each. intros.
    apply eval_checkpoint_ends. }
  intros [[dm1 vNN] vBi]. apply ends_at_quiet.
  apply bind_trace_Forall; [apply saveToTextFile_not_failed|intros _].
  apply bind_trace_Forall; [apply saveToTextFile_not_failed|intros _].
  apply bind_trace_Forall.
  { rewrite do_residuals_stats_silent. constructor. }
  intros [s1 h1].
  apply bind_trace_Forall.
  { rewrite do_residuals_stats_silent. constructor. }
  intros [s2 h2].
  apply bind_trace_Forall; [apply saveToTextFile_not_failed|intros _].
  apply bind_trace_Forall; [apply saveToTextFile_not_failed|intros _].
  apply ret_trace.
Qed.

Lemma insert_rule_calm cfg raw e : insert_rule cfg raw e -> calm e.
Proof. destruct e; simpl; try tauto. intros _. split; simpl; tauto. Qed.

Lemma output_not_failed e : is_output e -> ~ failed_prediction e.
Proof. destruct e; simpl; tauto. Qed.

Lemma build_dem_ends cfg raw_xyz p bb :
  ends_at (fun e => ~ failed_prediction e)
          (build_dem FE nth_element uninitialized env cfg raw_xyz
                     (cols raw_xyz =? 3)%nat p bb).
Proof.
  unfold build_dem.
  apply ends_at_bind; [apply calm_not_failed| |intros dm1].
  { apply ends_at_quiet. rewrite init_dem_map_run. cbn [fst].
    repeat constructor; simpl; tauto. }
  apply ends_at_bind; [apply calm_not_failed| |intros dm2].
  { apply ends_at_quiet.
    eapply Forall_impl; [apply insert_rule_calm|apply insert_points_trace]. }
  apply ends_at_bind; [apply calm_not_failed| |intros dm3].
  { apply ends_at_quiet. rewrite update_gmrf_run. cbn [fst].
    repeat constructor; simpl; tauto. }
  apply ends_at_then.
  { destruct (N_chk_pts p =? 0); [|apply eval_checkpoints_ends].
    apply ends_at_silent. reflexivity. }
  intros dm4.
  apply bind_trace_Forall.
  { eapply Forall_impl; [apply output_not_failed|apply save_points_trace]. }
  intros _. apply bind_trace_Forall; [|intros; apply ret_trace].
  rewrite show_window_run. cbn [fst].
  eapply Forall_impl; [apply output_not_failed|apply window_events_output].
Qed.

(** X9: when a prediction throws, it is the last call of the run: [main]
    returns 1, and all it did before was to call the estimator (set-up,
    insertions, estimation, earlier predictions).  No residual file, no point
    file and no map has been written. *)
Theorem failed_prediction_ends_run pre e post :
  fst (main FE round nth_element uninitialized env) = pre ++ e :: post ->
  failed_prediction e ->
  post = [] /\
  snd (main FE round nth_element uninitialized env) = Ok 1 /\
  Forall calm pre.
Proof.
  intros Ht He.
  destruct (main_trace_cases FE round nth_element uninitialized env)
    as [[E _]|(cfg & raw & bb & _ & _ & E)].
  { rewrite E in Ht. destruct pre; discriminate. }
  rewrite main_trace in Ht. rewrite main_result. rewrite E in *.
  destruct (build_dem_ends cfg raw (partition_of round env cfg raw) bb)
    as [H|(Hr & pre' & e' & Ht' & He' & Hpre)].
  - exfalso. rewrite Ht in H. rewrite Forall_forall in H.
    apply (H e); [|exact He]. apply in_or_app. right. now left.
  - rewrite Hr. rewrite Ht in Ht'.
    destruct (last_event failed_prediction pre e post pre' e' He) as (-> & -> & _).
    + eapply Forall_impl; [apply calm_not_failed|exact Hpre].
    + exact Ht'.
    + auto.
Qed.

End FailedPrediction.

Lemma failed_prediction_ends_run_witness :
  let env := sample_env (with_ratio (default_config "xyz.txt") lit_0_5)
                        sample_xyz in
  snd (main blind_estimator cvtsd2si nth_element_by_sort stale_ones env)
  = Ok 1 /\
  exists pre x y,
    fst (main blind_estimator cvtsd2si nth_element_by_sort stale_ones env)
    = pre ++ [EvPredict x y gimNearest None] /\ Forall calm pre.
Proof.
  intros env.
  assert (Ht : fst (main blind_estimator cvtsd2si nth_element_by_sort
                         stale_ones env)
               = firstn 5 (fst (main blind_estimator cvtsd2si
                                     nth_element_by_sort stale_ones env)) ++
                 EvPredict (of_int 4) (of_int 0) gimNearest None :: [])
    by (vm_compute; reflexivity).
  destruct (failed_prediction_ends_run blind_estimator cvtsd2si
              nth_element_by_sort stale_ones env _ _ _ Ht I)
    as (_ & Hr & Hpre).
  split; [exact Hr|]. eexists _, _, _. split; [exact Ht|exact Hpre].
Defined.

(** ** The window *)

Lemma setup_not_window e : is_setup e -> ~ is_window e.
Proof. destruct e; simpl; tauto. Qed.

Lemma insert_rule_not_window cfg raw e : insert_rule cfg raw e -> ~ is_window e.
Proof. destruct e; simpl; tauto. Qed.

Lemma validation_not_window e : is_validation e -> ~ is_window e.
Proof. destruct e; unfold is_validation; simpl; tauto. Qed.

Lemma print_point_not_window raw_xyz file i :
  Forall (fun e => ~ is_window e) (fst (print_point raw_xyz file i)).
Proof.
  unfold print_point.
  repeat (apply bind_trace_Forall; [apply coeff_trace|intros]).
  repeat constructor. simpl. tauto.
Qed.

Lemma CFileOutputStream_not_window env file :
  Forall (fun e => ~ is_window e) (fst (CFileOutputStream env file)).
Proof.
  rewrite CFileOutputStream_run. destruct (env_writable env file); simpl;
    repeat constructor. simpl. tauto.
Qed.

Lemma save_points_not_window FE env raw_xyz p sPrefix dm :
  Forall (fun e => ~ is_window e)
         (fst (save_points FE env raw_xyz p sPrefix dm)).
Proof.
  unfold save_points.
  apply bind_trace_Forall; [apply CFileOutputStream_not_window|intros _].
  apply bind_trace_Forall.
  { unfold for_loop. apply for_each_trace_Forall. intros k s.
    apply bind_trace_Forall; [apply vec_at_trace|intros].
    apply print_point_not_window. }
  intros _.
  apply bind_trace_Forall; [apply CFileOutputStream_not_window|intros _].
  apply bind_trace_Forall.
  { unfold for_loop. apply for_each_trace_Forall. intros k s.
    apply bind_trace_Forall; [apply vec_at_trace|intros].
    apply print_point_not_window. }
  intros _.
  rewrite !bind_emit. simpl.
  constructor; [simpl; tauto|].
  destruct (fe_saveMetricMapRepresentationToFile FE dm _); simpl;
    [|constructor].
  constructor; [simpl; tauto|].
  destruct (fe_saveAsMatlab3DGraph FE dm _); constructor.
Qed.

(** A computation that shows no window after a computation that shows none
    either, or that ends with [w] and returns 0. *)
Lemma window_after {A} (m : M A) (f : A -> M Z) w :
  Forall (fun e => ~ is_window e) (fst m) ->
  (forall a,
      Forall (fun e => ~ is_window e) (fst (f a)) \/
      (snd (f a) = Ok 0 /\
       exists t, fst (f a) = t ++ w /\ Forall (fun e => ~ is_window e) t)) ->
  Forall (fun e => ~ is_window e) (fst (bind m f)) \/
  (snd (bind m f) = Ok 0 /\
   exists t, fst (bind m f) = t ++ w /\ Forall (fun e => ~ is_window e) t).
Proof.
  intros Hm Hf. destruct m as [t [a| |]]; [|left; exact Hm..].
  cbn [fst] in Hm. specialize (Hf a). simpl. destruct (f a) as [t' r].
  cbn [fst snd] in *. destruct Hf as [Hf|(-> & t0 & -> & Ht0)].
  - left. apply Forall_app. now split.
  - right. split; [reflexivity|]. exists (t ++ t0).
    split; [now rewrite app_assoc|]. apply Forall_app. now split.
Qed.

Section Window.

Variable FE : FieldEstimator.
Variable round : double -> Z.
Variable nth_element : list double -> nat -> list double.
Variable uninitialized : nat -> double.
Variable env : Env.

Lemma build_dem_window cfg raw_xyz p bb :
  let m := build_dem FE nth_element uninitialized env cfg raw_xyz
                     (cols raw_xyz =? 3)%nat p bb in
  Forall (fun e => ~ is_window e) (fst m) \/
  (snd m = Ok 0 /\
   exists t, fst m = t ++ window_events env cfg /\
             Forall (fun e => ~ is_window e) t).
Proof.
  intros m. unfold m, build_dem.
  apply window_after.
  { rewrite init_dem_map_run. cbn [fst]. repeat constructor; simpl; tauto. }
  intros dm1. apply window_after.
  { eapply Forall_impl; [apply insert_rule_not_window|apply insert_points_trace]. }
  intros dm2. apply window_after.
  { rewrite update_gmrf_run. cbn [fst]. repeat constructor; simpl; tauto. }
  intros dm3. apply window_after.
  { destruct (N_chk_pts p =? 0); [apply ret_trace|].
    eapply Forall_impl; [apply validation_not_window|].
    apply eval_checkpoints_trace. }
  intros dm4. apply window_after; [apply save_points_not_window|intros _].
  right. rewrite show_window_run. split; [reflexivity|].
  exists []. split; [|constructor]. simpl. now rewrite app_nil_r.
Qed.

(** X10: the window is the last thing of a run, and of a run that returns 0:
    when the run shows it, nothing follows, nothing before it is a window,
    [main] returns 0, the program was built with wxWidgets and the options
    do not have [--no-gui]. *)
Theorem window_comes_last pre post :
  fst (main FE round nth_element uninitialized env)
  = pre ++ EvDisplayWindow :: post ->
  post = [] /\
  Forall (fun e => ~ is_window e) pre /\
  snd (main FE round nth_element uninitialized env) = Ok 0 /\
  env_has_wxwidgets env = true /\
  exists cfg, env_parse env = Some cfg /\ arg_no_gui cfg = false.
Proof.
  intros Ht.
  destruct (main_trace_cases FE round nth_element uninitialized env)
    as [[E _]|(cfg & raw & bb & Hp & _ & E)].
  { rewrite E in Ht. destruct pre; discriminate. }
  rewrite main_trace in Ht. rewrite main_result. rewrite E in *.
  destruct (build_dem_window cfg raw (partition_of round env cfg raw) bb)
    as [H|(Hr & t & Ht' & Hpre)].
  - exfalso. rewrite Ht in H. rewrite Forall_forall in H.
    apply (H EvDisplayWindow); [|exact I]. apply in_or_app. right. now left.
  - rewrite Hr. rewrite Ht in Ht'. unfold window_events in Ht'.
    destruct (env_has_wxwidgets env && negb (arg_no_gui cfg)) eqn:Hw.
    + destruct (last_event is_window pre EvDisplayWindow post t
                           EvDisplayWindow I Hpre Ht') as (-> & -> & _).
      apply andb_prop in Hw. destruct Hw as [Hw Hg].
      apply negb_true_iff in Hg. repeat split; auto.
      exists cfg. auto.
    + exfalso. rewrite app_nil_r in Ht'. subst t.
      rewrite Forall_forall in Hpre.
      apply (Hpre EvDisplayWindow); [|exact I]. apply in_or_app. right. now left.
Qed.

End Window.

Lemma window_comes_last_witness :
  let env := with_window (sample_env (default_config "xyz.txt") sample_xyz) in
  exists pre,
    fst (main level_estimator cvtsd2si nth_element_by_sort stale_ones env)
    = pre ++ [EvDisplayWindow] /\
    snd (main level_estimator cvtsd2si nth_element_by_sort stale_ones env)
    = Ok 0.
Proof.
  intros env.
  assert (Ht : fst (main level_estimator cvtsd2si nth_element_by_sort
                         stale_ones env)
               = removelast (fst (main level_estimator cvtsd2si
                                       nth_element_by_sort stale_ones env)) ++
                 EvDisplayWindow :: [])
    by (vm_compute; reflexivity).
  destruct (window_comes_last level_estimator cvtsd2si nth_element_by_sort
              stale_ones env _ _ Ht) as (_ & _ & Hr & _).
  eexists. split; [exact Ht|exact Hr].
Defined.
